(** * GenAlgSolver: the generational loop of simpleGA/genetic_algorithm_base.py

    A shallow embedding of the solver base class: numpy arrays are lists,
    Python integers are [Z] (indices included, so that negative indexing is
    kept), floats that hold fitness values and probabilities are idealised
    as rationals [Q] (rounding is ignored, the only non-finite value that the
    code can produce there, NaN, is kept apart), the two float products whose
    integer parts size a run ([pop_keep] and [n_mutations]) are computed in
    binary64, exceptions are the [Raise] case of [result], and the global
    numpy random generator is a stream of raw draws threaded through the
    code. *)

From Stdlib Require Import String.
From Stdlib Require Import List ZArith QArith Qround Qabs Lia Lqa Bool.
From Stdlib Require Import Permutation Sorted.
From Stdlib Require Import Floats.SpecFloat.
Import ListNotations.

Local Open Scope Z_scope.

(** ** Exceptions *)

Inductive exn : Type :=
  | NoFitnessFunction
  | InvalidInput
  | ValueError
  | IndexError
  | TypeError
  | ZeroDivisionError
  | OverflowError.

Inductive result (A : Type) : Type :=
  | Ok (a : A)
  | Raise (e : exn).

Arguments Ok {A} a.
Arguments Raise {A} e.

Definition bind {A B : Type} (c : result A) (k : A -> result B) : result B :=
  match c with
  | Ok a => k a
  | Raise e => Raise e
  end.

Notation "x <- c ;; k" := (bind c (fun x => k))
  (at level 61, c at next level, right associativity).
Notation "' p <- c ;; k" := (bind c (fun x => let p := x in k))
  (at level 61, p pattern, c at next level, right associativity).

(** ** numpy arrays as lists *)

Module Np.

Section Arrays.
Context {A : Type}.

(** [a[i]] for a Python integer [i]: negative indices count from the end,
    anything else out of range raises IndexError. *)
Definition normalize_index (n : nat) (i : Z) : option nat :=
  let j := if i <? 0 then i + Z.of_nat n else i in
  if (0 <=? j) && (j <? Z.of_nat n) then Some (Z.to_nat j) else None.

Definition getitem (a : list A) (i : Z) : result A :=
  match normalize_index (length a) i with
  | Some j => match nth_error a j with
              | Some x => Ok x
              | None => Raise IndexError
              end
  | None => Raise IndexError
  end.

Fixpoint update (a : list A) (j : nat) (x : A) : list A :=
  match a, j with
  | [], _ => []
  | _ :: t, O => x :: t
  | y :: t, S j' => y :: update t j' x
  end.

(** [a[i] = x], in place. *)
Definition setitem (a : list A) (i : Z) (x : A) : result (list A) :=
  match normalize_index (length a) i with
  | Some j => Ok (update a j x)
  | None => Raise IndexError
  end.

(** [a[idx]] for an integer index array [idx] (fancy indexing). *)
Fixpoint take (a : list A) (idx : list Z) : result (list A) :=
  match idx with
  | [] => Ok []
  | i :: rest =>
      x <- getitem a i ;;
      xs <- take a rest ;;
      Ok (x :: xs)
  end.

(** [np.empty_like(a)]: same shape, contents not initialised. *)
Definition empty_like (uninit : A) (a : list A) : list A :=
  repeat uninit (length a).

(** [a[lo:hi]] for non-negative bounds; slices clamp, they never raise. *)
Definition slice (a : list A) (lo hi : Z) : list A :=
  firstn (Z.to_nat hi - Z.to_nat lo) (skipn (Z.to_nat lo) a).
End Arrays.

(** [np.arange(lo, hi)] and [np.arange(lo, hi, 2)]. *)
Definition arange (lo hi : Z) : list Z :=
  map (fun k => lo + Z.of_nat k) (seq 0 (Z.to_nat (hi - lo))).

Definition arange2 (lo hi : Z) : list Z :=
  map (fun k => lo + 2 * Z.of_nat k) (seq 0 (Z.to_nat ((hi - lo + 1) / 2))).

(** [np.argsort(keys)]: the indices that put [keys] in ascending order.
    numpy's default sort does not promise an order among equal keys; the
    model breaks ties by position.  Everything proved about
    [sort_by_fitness] below is proved for every index array that is a
    permutation of the positions, so it does not depend on this choice. *)
Fixpoint insert_by_key (x : Q * Z) (l : list (Q * Z)) : list (Q * Z) :=
  match l with
  | [] => [x]
  | y :: t => if Qle_bool (fst x) (fst y) then x :: l else y :: insert_by_key x t
  end.

Definition sort_by_key (l : list (Q * Z)) : list (Q * Z) :=
  fold_right insert_by_key [] l.

Definition enumerate (keys : list Q) : list (Q * Z) :=
  combine keys (arange 0 (Z.of_nat (length keys))).

Definition argsort (keys : list Q) : list Z :=
  map snd (sort_by_key (enumerate keys)).

(** [np.argmin] over booleans: the first [false], or 0 when all are [true]. *)
Fixpoint first_false (bs : list bool) : option Z :=
  match bs with
  | [] => None
  | b :: t => if b then option_map Z.succ (first_false t) else Some 0
  end.

Definition argmin_bool (bs : list bool) : Z :=
  match first_false bs with
  | Some i => i
  | None => 0
  end.

(** [np.argmax] over floats: the first position of a maximal entry. *)
Fixpoint argmax_from (best : Q) (besti cur : Z) (l : list Q) : Z :=
  match l with
  | [] => besti
  | x :: t => if Qle_bool x best then argmax_from best besti (cur + 1) t
              else argmax_from x cur (cur + 1) t
  end.

Definition argmax (l : list Q) : Z :=
  match l with
  | [] => 0
  | x :: t => argmax_from x 0 1 t
  end.

Fixpoint cumsum_from (acc : Q) (l : list Q) : list Q :=
  match l with
  | [] => []
  | x :: t => (acc + x)%Q :: cumsum_from (acc + x)%Q t
  end.

Definition cumsum (l : list Q) : list Q := cumsum_from 0%Q l.

Definition sum (l : list Q) : Q := fold_left Qplus l 0%Q.

(** [a.mean()]. *)
Definition mean (l : list Q) : Q := (sum l / inject_Z (Z.of_nat (length l)))%Q.

End Np.

(** ** sort_by_fitness *)

Section SortByFitness.
Context {chromosome P : Type}.
Variable uninit : P.

(** The body of [sort_by_fitness] for a given index array
    [sorted_fitness]; the loop copies entry [i] to entry [i]. *)
Definition copy_printable (printable_fitness : list P)
    (acc : result (list P)) (i : Z) : result (list P) :=
  pf <- acc ;;
  x <- Np.getitem printable_fitness i ;;
  Np.setitem pf i x.

Definition sort_by_fitness_with (sorted_fitness : list Z)
    (fitness : list Q) (population : list chromosome)
    (printable_fitness : list P)
  : result (list Q * list chromosome * list P) :=
  population' <- Np.take population sorted_fitness ;;
  fitness' <- Np.take fitness sorted_fitness ;;
  pfitness <- fold_left (copy_printable printable_fitness) sorted_fitness
                (Ok (Np.empty_like uninit printable_fitness)) ;;
  Ok (fitness', population', pfitness).

Definition sort_by_fitness (fitness : list Q) (population : list chromosome)
    (printable_fitness : list P)
  : result (list Q * list chromosome * list P) :=
  sort_by_fitness_with (rev (Np.argsort fitness))
    fitness population printable_fitness.
End SortByFitness.

(** ** The random generator

    [np.random] is one global generator.  It is modelled by the stream of
    its raw draws and a cursor; every numpy call below consumes the draws it
    needs and returns the advanced generator. *)

Record rng : Type := { stream : nat -> Z; cursor : nat }.

Definition next_raw (g : rng) : Z * rng :=
  (stream g (cursor g), {| stream := stream g; cursor := S (cursor g) |}).

(** One integer uniform on [0, n). *)
Definition randint (n : Z) (g : rng) : Z * rng :=
  let (r, g') := next_raw g in (r mod n, g').

Fixpoint randints (n : Z) (k : nat) (g : rng) : list Z * rng :=
  match k with
  | O => ([], g)
  | S k' =>
      let (x, g1) := randint n g in
      let (xs, g2) := randints n k' g1 in
      (x :: xs, g2)
  end.

(** One float uniform on [0, 1): a 53-bit integer over 2^53, so 0 can be
    drawn and 1 cannot. *)
Definition random_sample (g : rng) : Q * rng :=
  let (r, g') := next_raw g in
  (Qmake (r mod 2 ^ 53) (2 ^ 53)%positive, g').

Fixpoint random_samples (k : nat) (g : rng) : list Q * rng :=
  match k with
  | O => ([], g)
  | S k' =>
      let (x, g1) := random_sample g in
      let (xs, g2) := random_samples k' g1 in
      (x :: xs, g2)
  end.

(** [np.random.choice(a, size, replace=True)]. *)
Definition choice (a : list Z) (size : Z) (g : rng) : result (list Z * rng) :=
  if size <? 0 then Raise ValueError
  else if (Z.of_nat (length a) =? 0) && negb (size =? 0) then Raise ValueError
  else
    let (idx, g') := randints (Z.of_nat (length a)) (Z.to_nat size) g in
    xs <- Np.take a idx ;;
    Ok (xs, g').

Fixpoint remove_nth {A : Type} (n : nat) (l : list A) : list A :=
  match l, n with
  | [], _ => []
  | _ :: t, O => t
  | x :: t, S n' => x :: remove_nth n' t
  end.

Fixpoint draw_distinct (k : nat) (pool : list Z) (g : rng) : list Z * rng :=
  match k with
  | O => ([], g)
  | S k' =>
      let (j, g1) := randint (Z.of_nat (length pool)) g in
      let x := nth (Z.to_nat j) pool 0 in
      let (xs, g2) := draw_distinct k' (remove_nth (Z.to_nat j) pool) g1 in
      (x :: xs, g2)
  end.

(** [np.random.choice(a, size, replace=False)]: a sample of distinct
    positions of [a]; asking for more than [len(a)] raises ValueError. *)
Definition choice_no_replace (a : list Z) (size : Z) (g : rng)
  : result (list Z * rng) :=
  if size <? 0 then Raise ValueError
  else if Z.of_nat (length a) <? size then Raise ValueError
  else Ok (draw_distinct (Z.to_nat size) a g).

(** ** Configuration and run state *)

Definition allowed_selection_strategies : list string :=
  ["roulette_wheel"; "two_by_two"; "random"; "tournament"; "boltzmann"]%string.

Definition strategy_allowed (selection_strategy : string) : bool :=
  existsb (String.eqb selection_strategy) allowed_selection_strategies.

(** The [excluded_genes] argument as Python passes it: absent, a list, a
    tuple, an ndarray, or an object of any other type. *)
Inductive excluded_arg : Type :=
  | ExcludedNone
  | ExcludedList (l : list Z)
  | ExcludedTuple (l : list Z)
  | ExcludedArray (l : list Z)
  | ExcludedOther.

(** A float that may be NaN. *)
Definition float := option Q.

Definition float_gt (value : Q) (x : float) : bool :=
  match x with
  | Some q => negb (Qle_bool value q)
  | None => false
  end.

(** [get_selection_probabilities]: the table built once at construction;
    [None] for the strategies that get no table. *)
Definition get_selection_probabilities (selection_strategy : string)
    (pop_keep : Z) : option (list float) :=
  if String.eqb selection_strategy "roulette_wheel" then
    let ranks := map inject_Z (Np.arange 1 (pop_keep + 1)) in
    let mating_prob := rev (map (fun r => (r / Np.sum ranks)%Q) ranks) in
    Some (map Some (0%Q :: Np.cumsum (Np.slice mating_prob 0 (pop_keep + 1))))
  else if String.eqb selection_strategy "random" then
    Some (map (fun i => Some (inject_Z i / inject_Z pop_keep)%Q)
            (Np.arange 0 (pop_keep + 1)))
  else None.

(** ** Binary64 arithmetic

    The operations are those of the IEEE 754 specification of the standard
    library ([SpecFloat]), at precision 53 and maximal exponent 1024. *)

Module Float64.

Definition prec : Z := 53.
Definition emax : Z := 1024.

(** [float(n)] for a Python integer: the nearest double, infinite when [n]
    is too large. *)
Definition of_int (n : Z) : spec_float := binary_normalize prec emax n 0 false.

(** The double nearest to a rational: the value of a float argument given
    by its decimal literal or by its exact value. *)
Definition of_Q (q : Q) : spec_float :=
  match Qnum q with
  | Z0 => S754_zero false
  | Zpos n => SFdiv prec emax (S754_finite false n 0)
                (S754_finite false (Qden q) 0)
  | Zneg n => SFdiv prec emax (S754_finite true n 0)
                (S754_finite false (Qden q) 0)
  end.

Definition mul (x y : spec_float) : spec_float := SFmul prec emax x y.

(** [n * x] and [x * n] for a Python integer [n] and a float [x]: the
    integer is converted first, which fails when it is too large. *)
Definition int_times (n : Z) (x : spec_float) : result spec_float :=
  match of_int n with
  | S754_infinity _ => Raise OverflowError
  | fn => Ok (mul fn x)
  end.

(** The integer a finite double stands for when its exponent is not
    negative, and its numerator over [2 ^ (- e)] otherwise. *)
Definition signed (s : bool) (m : positive) : Z :=
  if s then Zneg m else Zpos m.

(** [int(np.floor(x))] and [int(np.ceil(x))]: [int] refuses the infinities
    (OverflowError) and NaN (ValueError). *)
Definition floor (x : spec_float) : result Z :=
  match x with
  | S754_zero _ => Ok 0
  | S754_finite s m e =>
      Ok (if 0 <=? e then signed s m * 2 ^ e else signed s m / 2 ^ (- e))
  | S754_infinity _ => Raise OverflowError
  | S754_nan => Raise ValueError
  end.

Definition ceil (x : spec_float) : result Z :=
  match x with
  | S754_zero _ => Ok 0
  | S754_finite s m e =>
      Ok (if 0 <=? e then signed s m * 2 ^ e
          else - ((- signed s m) / 2 ^ (- e)))
  | S754_infinity _ => Raise OverflowError
  | S754_nan => Raise ValueError
  end.


End Float64.

(** [get_number_mutations]:
    [int(np.ceil((pop_size - 1) * n_genes * mutation_rate))], the product of
    the two integers being exact and the product with the rate a binary64
    product. *)
Definition get_number_mutations (pop_size n_genes : Z) (mutation_rate : Q)
  : result Z :=
  x <- Float64.int_times ((pop_size - 1) * n_genes)
         (Float64.of_Q mutation_rate) ;;
  Float64.ceil x.

(** [int(np.floor(selection_rate * pop_size))]. *)
Definition get_pop_keep (selection_rate : Q) (pop_size : Z) : result Z :=
  x <- Float64.int_times pop_size (Float64.of_Q selection_rate) ;;
  Float64.floor x.

(** [np.random.seed(seed)] accepts the seeds in [0, 2^32) only. *)
Definition valid_seed (seed : Z) : bool := (0 <=? seed) && (seed <? 2 ^ 32).

(** [np.isclose(a, b)] with numpy's default tolerances:
    |a - b| <= atol + rtol * |b|, atol = 1e-8, rtol = 1e-5. *)
Definition atol : Q := 1 # 100000000.
Definition rtol : Q := 1 # 100000.

Definition isclose (a b : Q) : bool :=
  Qle_bool (Qabs (a - b)) (atol + rtol * Qabs b)%Q.

Inductive offspring_number : Type := first | second.

Section Solver.
(** A chromosome is a row of genes; [P] is what the fitness function
    returns for one chromosome (the printable fitness). *)
Variable gene : Type.
Variable gene_eqb : gene -> gene -> bool.
Variable P : Type.

Definition chromosome : Type := list gene.

(** The float that a scalar fitness-function result is stored as. *)
Variable scalar_value : P -> Q.
(** Contents of a freshly allocated, uninitialised array cell. *)
Variable uninit : P.
(** [np.exp] on floats, and [np.random.seed]. *)
Variable np_exp : Q -> Q.
Variable np_random_seed : Z -> rng.

(** What the class may define itself: [fitness_function] and
    [hashable_fitness_function] as class attributes, and the methods left
    to child classes. *)
Variable cls_fitness_function : option (chromosome -> P).
Variable cls_hashable_fitness_function : option (chromosome -> P).
Variable initialize_population : rng -> list chromosome * rng.
Variable refill_population : Z -> rng -> list chromosome * rng.
Variable create_offspring :
  chromosome -> chromosome -> option (list Z) -> offspring_number -> chromosome.
(** The child class's part of [mutate_population]: given the rows and
    columns picked by the base method, it rewrites the targeted genes. *)
Variable mutate_genes :
  list chromosome -> list Z -> list Z -> rng -> list chromosome * rng.

(** The fields that [__init__] sets once. *)
Record config : Type := {
    n_genes : Z;
    allowed_mutation_genes : list Z;
    fitness_function : chromosome -> P;
    hashable_fitness_function : option (chromosome -> P);
    scalarizer : option (list P -> list Q);
    selection_strategy : string;
    max_gen : Z;
    max_conv : Z;
    pop_size : Z;
    mutation_rate : Q;
    selection_rate : Q;
    n_crossover_points : Z;
    pop_keep : Z;
    n_matings : Z;
    n_mutations : Z;
    prune_duplicates : bool
  }.

(** The fields that change while the solver runs, and the generator.
    [best_pfitness_] starts as the integer 0, modelled as [None]. *)
Record state : Type := {
    np_random : rng;
    generations_ : Z;
    best_individual_ : option chromosome;
    best_fitness_ : Q;
    best_pfitness_ : option P;
    population_ : option (list chromosome);
    fitness_ : option (list Q);
    printable_fitness : option (list P);
    mean_fitness_ : option (list Q);
    max_fitness_ : option (list Q);
    prob_intervals : option (list float);
    temperature : Q
  }.

Definition set_np_random (g : rng) (s : state) : state :=
  {| np_random := g;
     generations_ := generations_ s;
     best_individual_ := best_individual_ s;
     best_fitness_ := best_fitness_ s;
     best_pfitness_ := best_pfitness_ s;
     population_ := population_ s;
     fitness_ := fitness_ s;
     printable_fitness := printable_fitness s;
     mean_fitness_ := mean_fitness_ s;
     max_fitness_ := max_fitness_ s;
     prob_intervals := prob_intervals s;
     temperature := temperature s |}.

(** *** Construction *)

Record init_args : Type := {
    arg_n_genes : Z;
    arg_fitness_function : option (chromosome -> P);
    arg_max_gen : Z;
    arg_max_conv : Z;
    arg_pop_size : Z;
    arg_mutation_rate : Q;
    arg_selection_rate : Q;
    arg_selection_strategy : string;
    arg_excluded_genes : excluded_arg;
    arg_n_crossover_points : Z;
    arg_random_state : option Z;
    arg_lru_cache : bool;
    arg_hashable_fitness_function : option (chromosome -> P);
    arg_scalarizer : option (list P -> list Q);
    arg_prune_duplicates : bool
  }.

Definition filter_excluded (allowed excluded : list Z) : list Z :=
  filter (fun item => negb (existsb (Z.eqb item) excluded)) allowed.

(** The three checks that [check_input_base] and [check_input_base_cache]
    share after the function lookup. *)
Definition check_rest (allowed : list Z) (selection_strategy : string)
    (pop_size : Z) (excluded_genes : excluded_arg) : result (list Z) :=
  if negb (strategy_allowed selection_strategy) then Raise InvalidInput
  else if pop_size <? 2 then Raise InvalidInput
  else match excluded_genes with
       | ExcludedList l | ExcludedTuple l | ExcludedArray l =>
           Ok (filter_excluded allowed l)
       | ExcludedNone => Ok allowed
       | ExcludedOther => Raise InvalidInput
       end.

(** [check_input_base]: returns [self.fitness_function] and
    [self.allowed_mutation_genes] as they are afterwards. *)
Definition check_input_base (allowed : list Z)
    (fitness_function : option (chromosome -> P))
    (selection_strategy : string) (pop_size : Z)
    (excluded_genes : excluded_arg)
  : result ((chromosome -> P) * list Z) :=
  f <- match fitness_function with
       | None => match cls_fitness_function with
                 | None => Raise NoFitnessFunction
                 | Some f => Ok f
                 end
       | Some f => Ok f
       end ;;
  allowed' <- check_rest allowed selection_strategy pop_size excluded_genes ;;
  Ok (f, allowed').

Definition check_input_base_cache (allowed : list Z)
    (hashable_fitness_function : option (chromosome -> P))
    (selection_strategy : string) (pop_size : Z)
    (excluded_genes : excluded_arg)
  : result (list Z) :=
  _ <- match hashable_fitness_function with
       | None => match cls_hashable_fitness_function with
                 | None => Raise NoFitnessFunction
                 | Some h => Ok h
                 end
       | Some h => Ok h
       end ;;
  check_rest allowed selection_strategy pop_size excluded_genes.

(** [GenAlgSolver.__init__]; [g] is the global generator before the call. *)
Definition init (a : init_args) (g : rng) : result (config * state) :=
  g <- match arg_random_state a with
       | Some seed => if valid_seed seed then Ok (np_random_seed seed)
                      else Raise ValueError
       | None => Ok g
       end ;;
  let allowed0 := Np.arange 0 (arg_n_genes a) in
  let fitness_function :=
    match arg_fitness_function a, arg_hashable_fitness_function a with
    | None, Some h => Some h
    | f, _ => f
    end in
  ' (f, allowed1) <- check_input_base allowed0 fitness_function
                       (arg_selection_strategy a) (arg_pop_size a)
                       (arg_excluded_genes a) ;;
  allowed2 <- (if arg_lru_cache a
               then check_input_base_cache allowed1
                      (arg_hashable_fitness_function a)
                      (arg_selection_strategy a) (arg_pop_size a)
                      (arg_excluded_genes a)
               else Ok allowed1) ;;
  pop_keep0 <- get_pop_keep (arg_selection_rate a) (arg_pop_size a) ;;
  let pop_keep := if pop_keep0 <? 2 then 2 else pop_keep0 in
  n_mutations <- get_number_mutations (arg_pop_size a) (arg_n_genes a)
                   (arg_mutation_rate a) ;;
  Ok ({| n_genes := arg_n_genes a;
         allowed_mutation_genes := allowed2;
         fitness_function := f;
         hashable_fitness_function := arg_hashable_fitness_function a;
         scalarizer := arg_scalarizer a;
         selection_strategy := arg_selection_strategy a;
         max_gen := arg_max_gen a;
         max_conv := arg_max_conv a;
         pop_size := arg_pop_size a;
         mutation_rate := arg_mutation_rate a;
         selection_rate := arg_selection_rate a;
         n_crossover_points := arg_n_crossover_points a;
         pop_keep := pop_keep;
         n_matings := (arg_pop_size a - pop_keep) / 2;
         n_mutations := n_mutations;
         prune_duplicates := arg_prune_duplicates a |},
      {| np_random := g;
         generations_ := 0;
         best_individual_ := None;
         best_fitness_ := 0%Q;
         best_pfitness_ := None;
         population_ := None;
         fitness_ := None;
         printable_fitness := None;
         mean_fitness_ := None;
         max_fitness_ := None;
         prob_intervals :=
           get_selection_probabilities (arg_selection_strategy a) pop_keep;
         temperature := 100%Q |}).

(** *** Fitness evaluation *)

(** [calculate_fitness]: the scalar fitness and the printable fitness of
    every row. *)
Definition calculate_fitness (c : config) (population : list chromosome)
  : list Q * list P :=
  let pfitness := map (fitness_function c) population in
  match scalarizer c with
  | None => (map scalar_value pfitness, pfitness)
  | Some scalarize => (scalarize pfitness, pfitness)
  end.

(** Without a scalarizer the fitness array went through [np.squeeze]: for
    a single row it has no dimension left. *)
Definition unsized (c : config) (fitness : list Q) : bool :=
  match scalarizer c with
  | None => (length fitness =? 1)%nat
  | Some _ => false
  end.

(** [len(fitness)]: TypeError on a 0-d array. *)
Definition np_len (c : config) (fitness : list Q) : result Z :=
  if unsized c fitness then Raise TypeError
  else Ok (Z.of_nat (length fitness)).

(** *** Parent selection *)

(** [interval_selection]: the position of the first table entry that
    [value] does not exceed, minus one. *)
Definition interval_selection (table : option (list float)) (value : Q)
  : result Z :=
  match table with
  | None => Raise TypeError
  | Some t => Ok (Np.argmin_bool (map (float_gt value) t) - 1)
  end.

Fixpoint map_result {A B : Type} (f : A -> result B) (l : list A)
  : result (list B) :=
  match l with
  | [] => Ok []
  | x :: t => y <- f x ;; ys <- map_result f t ;; Ok (y :: ys)
  end.

(** [np.apply_along_axis(self.interval_selection, 1,
    np.random.rand(n_matings, 1))]: it refuses an empty first dimension. *)
Definition select_by_interval (c : config) (table : option (list float))
    (g : rng) : result (list Z * rng) :=
  if n_matings c <=? 0 then Raise ValueError
  else
    let (values, g') := random_samples (Z.to_nat (n_matings c)) g in
    idx <- map_result (interval_selection table) values ;;
    Ok (idx, g').

Fixpoint list_min (x : Q) (l : list Q) : Q :=
  match l with
  | [] => x
  | y :: t => list_min (if Qle_bool y x then y else x) t
  end.

Fixpoint list_max (x : Q) (l : list Q) : Q :=
  match l with
  | [] => x
  | y :: t => list_max (if Qle_bool x y then y else x) t
  end.

Definition epsilon : Q := 1 # 1000000.

(** The normalised probabilities of [get_boltzmann_probabilities];
    [None] when they are all NaN: a zero fitness range makes every scaled
    value 0/0, and a zero sum [C] makes every product 0 * inf. *)
Definition boltzmann_mating_prob (temperature : Q) (nfit : list Q)
  : option (list Q) :=
  match nfit with
  | [] => None
  | x :: t =>
      let lo := list_min x t in
      let hi := list_max x t in
      if Qeq_bool (hi - lo) 0 then None
      else
        let sfit := map (fun v => 1 / ((v - lo) / (hi - lo) + epsilon))%Q nfit in
        let mating_prob :=
          map (fun v => np_exp (- v * (1 / temperature)))%Q sfit in
        let C := Np.sum mating_prob in
        if Qeq_bool C 0 then None
        else Some (map (fun p => p * (1 / C))%Q mating_prob)
  end.

(** [get_boltzmann_probabilities]: the table and the raised temperature.
    An empty fitness array has no minimum (ValueError) and a zero
    temperature cannot be divided by. *)
Definition get_boltzmann_probabilities (c : config) (temperature : Q)
    (fitness : list Q) : result (list float * Q) :=
  let nfit := Np.slice fitness 0 (pop_keep c + 1) in
  match nfit with
  | [] => Raise ValueError
  | _ =>
      if Qeq_bool temperature 0 then Raise ZeroDivisionError
      else
        let table :=
          match boltzmann_mating_prob temperature nfit with
          | None =>
              repeat None (length (Np.slice nfit 0 (pop_keep c)))
          | Some mating_prob =>
              map Some (Np.cumsum (Np.slice mating_prob 0 (pop_keep c)))
          end in
        Ok (Some 0%Q :: table,
            (temperature + (1 # 10) * temperature)%Q)
  end.

(** [tournament_selection_helper]. *)
Definition tournament_selection_helper (selected_individuals : list Z)
    (fitness : list Q) : result Z :=
  individuals_fitness <- Np.take fitness selected_individuals ;;
  Np.getitem selected_individuals (Np.argmax individuals_fitness).

Fixpoint chunks3 (l : list Z) : list (list Z) :=
  match l with
  | a :: b :: c :: t => [a; b; c] :: chunks3 t
  | _ => []
  end.

(** [tournament_selection]: [n_matings] groups of three draws from
    [0, range_max). *)
Definition tournament_selection (c : config) (fitness : list Q)
    (range_max : Z) (g : rng) : result (list Z * rng) :=
  if n_matings c <? 0 then Raise ValueError
  else
    ' (draws, g') <- choice (Np.arange 0 range_max) (3 * n_matings c) g ;;
    winners <- map_result
                 (fun x => tournament_selection_helper x fitness)
                 (chunks3 draws) ;;
    Ok (winners, g').

Definition set_boltzmann (table : list float) (t : Q) (s : state) : state :=
  {| np_random := np_random s;
     generations_ := generations_ s;
     best_individual_ := best_individual_ s;
     best_fitness_ := best_fitness_ s;
     best_pfitness_ := best_pfitness_ s;
     population_ := population_ s;
     fitness_ := fitness_ s;
     printable_fitness := printable_fitness s;
     mean_fitness_ := mean_fitness_ s;
     max_fitness_ := max_fitness_ s;
     prob_intervals := Some table;
     temperature := t |}.

Definition every_other (l : list Z) : list Z :=
  map fst (filter (fun p => Nat.even (snd p)) (combine l (seq 0 (length l)))).

(** [select_parents]: the two parent index arrays ([None] is Python's
    None, left in place when no branch matches) and the solver state
    afterwards. *)
Definition select_parents (c : config) (s : state) (fitness : list Q)
  : result (option (list Z) * option (list Z) * state) :=
  let strategy := selection_strategy c in
  if String.eqb strategy "roulette_wheel" || String.eqb strategy "random" then
    ' (ma, g1) <- select_by_interval c (prob_intervals s) (np_random s) ;;
    ' (pa, g2) <- select_by_interval c (prob_intervals s) g1 ;;
    Ok (Some ma, Some pa, set_np_random g2 s)
  else if String.eqb strategy "boltzmann" then
    ' (table, t) <- get_boltzmann_probabilities c (temperature s) fitness ;;
    let s1 := set_boltzmann table t s in
    ' (ma, g1) <- select_by_interval c (prob_intervals s1) (np_random s1) ;;
    ' (pa, g2) <- select_by_interval c (prob_intervals s1) g1 ;;
    Ok (Some ma, Some pa, set_np_random g2 s1)
  else if String.eqb strategy "two_by_two" then
    let range_max := n_matings c * 2 in
    let ma := every_other (Np.arange 0 range_max) in
    let pa := every_other (tl (Np.arange 0 range_max)) in
    let ma := if (length pa <? length ma)%nat then removelast ma else ma in
    Ok (Some ma, Some pa, s)
  else if String.eqb strategy "tournament" then
    let range_max := n_matings c * 2 in
    ' (ma, g1) <- tournament_selection c fitness range_max (np_random s) ;;
    ' (pa, g2) <- tournament_selection c fitness range_max g1 ;;
    Ok (Some ma, Some pa, set_np_random g2 s)
  else Ok (None, None, s).

(** *** Crossover points and mutation targets *)

(** [ndarray.sort()]: sorts the array in place and returns None.  The
    pair is the array afterwards and the value of the call. *)
Definition ndarray_sort (a : list Z) : list Z * option (list Z) :=
  (map snd (Np.sort_by_key (map (fun i => (inject_Z i, i)) a)), None).

(** The array the crossover points are drawn from:
    [np.arange(len(self.allowed_mutation_genes))]. *)
Definition crossover_candidates (c : config) : list Z :=
  Np.arange 0 (Z.of_nat (length (allowed_mutation_genes c))).

(** [get_crossover_points]: the value returned and the generator. *)
Definition get_crossover_points (c : config) (g : rng)
  : result (option (list Z) * rng) :=
  ' (crossover_points, g') <-
      choice_no_replace (crossover_candidates c) (n_crossover_points c) g ;;
  Ok (snd (ndarray_sort crossover_points), g').

(** The base [mutate_population]: the rows and the columns to mutate. *)
Definition mutate_population_base (c : config) (n_mutations : Z) (g : rng)
  : result (list Z * list Z * rng) :=
  ' (mutation_rows, g1) <- choice (Np.arange 1 (pop_size c)) n_mutations g ;;
  ' (mutation_cols, g2) <- choice (allowed_mutation_genes c) n_mutations g1 ;;
  Ok (mutation_rows, mutation_cols, g2).

(** [mutate_population] as the loop calls it: the child class's override
    takes its targets from the base method and rewrites those genes. *)
Definition mutate_population (c : config) (population : list chromosome)
    (n_mutations : Z) (g : rng) : result (list chromosome * rng) :=
  ' (rows, cols, g1) <- mutate_population_base c n_mutations g ;;
  Ok (mutate_genes population rows cols g1).

(** *** One generation *)

(** The variables of [solve] that live across iterations of its loop. *)
Record locals : Type := {
    population : list chromosome;
    fitness : list Q;
    printable : list P;
    mean_fitness : list Q;
    max_fitness : list Q;
    gen_n : Z;
    conv : Z
  }.

Fixpoint chromosome_eqb (a b : chromosome) : bool :=
  match a, b with
  | [], [] => true
  | x :: a', y :: b' => gene_eqb x y && chromosome_eqb a' b'
  | _, _ => false
  end.

Definition getitem_opt {A : Type} (a : option (list A)) (i : Z) : result A :=
  match a with
  | None => Raise TypeError
  | Some l => Np.getitem l i
  end.

Fixpoint crossover_points_loop (c : config) (k : nat) (g : rng)
  : result (list (option (list Z)) * rng) :=
  match k with
  | O => Ok ([], g)
  | S k' =>
      ' (x, g1) <- get_crossover_points c g ;;
      ' (xs, g2) <- crossover_points_loop c k' g1 ;;
      Ok (x :: xs, g2)
  end.

(** The body of the offspring loop for one [i]: two rows near the end of
    the population are overwritten, one after the other. *)
Definition offspring_step (ma pa : option (list Z)) (ix : list Z)
    (xp : list (option (list Z)))
    (acc : result (list chromosome)) (i : Z) : result (list chromosome) :=
  population <- acc ;;
  m <- getitem_opt ma i ;;
  mother <- Np.getitem population m ;;
  p <- getitem_opt pa i ;;
  father <- Np.getitem population p ;;
  x <- Np.getitem xp i ;;
  k <- Np.getitem ix i ;;
  population1 <- Np.setitem population (-1 - k)
                   (create_offspring mother father x first) ;;
  father' <- Np.getitem population1 p ;;
  mother' <- Np.getitem population1 m ;;
  Np.setitem population1 (-1 - k - 1)
    (create_offspring father' mother' x second).

(** The pruning loop: a row is kept when it differs from the last row
    kept so far. *)
Definition prune_step (population : list chromosome)
    (acc : result (list chromosome)) (i : Z) : result (list chromosome) :=
  pruned_pop <- acc ;;
  row <- Np.getitem population i ;;
  last_kept <- Np.getitem pruned_pop (-1) ;;
  if chromosome_eqb row last_kept then Ok pruned_pop
  else Ok (pruned_pop ++ [row]).

Definition prune (c : config) (population : list chromosome) (g : rng)
  : result (list chromosome * rng) :=
  row0 <- Np.getitem population 0 ;;
  pruned_pop <- fold_left (prune_step population)
                  (Np.arange 1 (pop_size c)) (Ok [row0]) ;;
  let nrefill := pop_size c - Z.of_nat (length pruned_pop) in
  if 0 <? nrefill then
    let (fresh, g') := refill_population nrefill g in
    Ok (pruned_pop ++ fresh, g')
  else Ok (population, g).

Definition copy_rest_step (rest_printable_fitness : list P)
    (acc : result (list P)) (i : Z) : result (list P) :=
  printable_fitness <- acc ;;
  x <- Np.getitem rest_printable_fitness i ;;
  Np.setitem printable_fitness i x.

Definition set_generation (g : rng) (best : chromosome) (f0 : Q) (pf0 : P)
    (s : state) : state :=
  {| np_random := g;
     generations_ := generations_ s;
     best_individual_ := Some best;
     best_fitness_ := f0;
     best_pfitness_ := Some pf0;
     population_ := population_ s;
     fitness_ := fitness_ s;
     printable_fitness := printable_fitness s;
     mean_fitness_ := mean_fitness_ s;
     max_fitness_ := max_fitness_ s;
     prob_intervals := prob_intervals s;
     temperature := temperature s |}.

Definition count_generation (s : state) : state :=
  {| np_random := np_random s;
     generations_ := generations_ s + 1;
     best_individual_ := best_individual_ s;
     best_fitness_ := best_fitness_ s;
     best_pfitness_ := best_pfitness_ s;
     population_ := population_ s;
     fitness_ := fitness_ s;
     printable_fitness := printable_fitness s;
     mean_fitness_ := mean_fitness_ s;
     max_fitness_ := max_fitness_ s;
     prob_intervals := prob_intervals s;
     temperature := temperature s |}.

(** The body of the [for] loop of [solve], up to the test that may leave
    the loop. *)
Definition generation (c : config) (v : locals) (s : state)
  : result (locals * state) :=
  let gen_n' := gen_n v + 1 in
  let s := count_generation s in
  let mean_fitness' := mean_fitness v ++ [Np.mean (fitness v)] in
  f0 <- Np.getitem (fitness v) 0 ;;
  let max_fitness' := max_fitness v ++ [f0] in
  ' (ma, pa, s) <- select_parents c s (fitness v) ;;
  let ix := Np.arange2 0 (pop_size c - pop_keep c - 1) in
  ' (xp, g) <- crossover_points_loop c (Z.to_nat (n_matings c)) (np_random s) ;;
  population1 <- fold_left (offspring_step ma pa ix xp)
                   (Np.arange 0 (Z.of_nat (length xp)))
                   (Ok (population v)) ;;
  ' (population2, g) <- mutate_population c population1 (n_mutations c) g ;;
  ' (population3, g) <- (if prune_duplicates c then prune c population2 g
                         else Ok (population2, g)) ;;
  let (rest_fitness, rest_printable_fitness) :=
    calculate_fitness c (skipn 1 population3) in
  let fitness1 := f0 :: rest_fitness in
  n_rest <- np_len c rest_fitness ;;
  printable1 <- fold_left (copy_rest_step rest_printable_fitness)
                  (Np.arange 1 n_rest) (Ok (printable v)) ;;
  ' (fitness2, population4, printable2) <-
      sort_by_fitness uninit fitness1 population3 printable1 ;;
  best <- Np.getitem population4 0 ;;
  best_f <- Np.getitem fitness2 0 ;;
  let conv' := if isclose (best_fitness_ s) best_f then conv v + 1
               else conv v in
  best_pf <- Np.getitem printable2 0 ;;
  Ok ({| population := population4;
         fitness := fitness2;
         printable := printable2;
         mean_fitness := mean_fitness';
         max_fitness := max_fitness';
         gen_n := gen_n';
         conv := conv' |},
      set_generation g best best_f best_pf s).

(** The [for _ in range(niter)] loop: [k] iterations are left; the
    [break] test comes last in each one. *)
Fixpoint generations (c : config) (niter : Z) (k : nat) (v : locals)
    (s : state) : result (locals * state) :=
  match k with
  | O => Ok (v, s)
  | S k' =>
      ' (v', s') <- generation c v s ;;
      if (niter <=? gen_n v') || (max_conv c <? conv v') then Ok (v', s')
      else generations c niter k' v' s'
  end.

Definition store (v : locals) (s : state) : state :=
  {| np_random := np_random s;
     generations_ := generations_ s;
     best_individual_ := best_individual_ s;
     best_fitness_ := best_fitness_ s;
     best_pfitness_ := best_pfitness_ s;
     population_ := Some (population v);
     fitness_ := Some (fitness v);
     printable_fitness := Some (printable v);
     mean_fitness_ := Some (mean_fitness v);
     max_fitness_ := Some (max_fitness v);
     prob_intervals := prob_intervals s;
     temperature := temperature s |}.

Definition budget (c : config) (niter : option Z) : Z :=
  match niter with
  | Some n => Z.min (max_gen c) n
  | None => max_gen c
  end.

(** The part of [solve] before the loop: the histories and the population
    are taken from the solver when it has them, the population is
    evaluated and sorted, and the loop counters start afresh. *)
Definition solve_prepare (c : config) (s : state)
  : result (locals * state) :=
  let mean_fitness := match mean_fitness_ s with
                      | None => []
                      | Some m => m
                      end in
  let max_fitness := match max_fitness_ s with
                     | None => []
                     | Some m => m
                     end in
  let (population, g) := match population_ s with
                         | None => initialize_population (np_random s)
                         | Some p => (p, np_random s)
                         end in
  let (fitness, printable_fitness) := calculate_fitness c population in
  if unsized c fitness then Raise IndexError
  else
    ' (fitness, population, printable_fitness) <-
        sort_by_fitness uninit fitness population printable_fitness ;;
    Ok ({| population := population;
           fitness := fitness;
           printable := printable_fitness;
           mean_fitness := mean_fitness;
           max_fitness := max_fitness;
           gen_n := 1;
           conv := 0 |},
        set_np_random g s).

(** [solve] with its loop variables still visible. *)
Definition solve_locals (c : config) (niter : option Z) (s : state)
  : result (locals * state) :=
  ' (v, s) <- solve_prepare c s ;;
  generations c (budget c niter) (Z.to_nat (budget c niter)) v s.

(** [solve(niter)]. *)
Definition solve (c : config) (niter : option Z) (s : state) : result state :=
  ' (v, s) <- solve_locals c niter s ;;
  Ok (store v s).

End Solver.

Arguments calculate_fitness {gene P} scalar_value c population.
Arguments unsized {gene P} c fitness.
Arguments np_len {gene P} c fitness.
Arguments select_by_interval {gene P} c table g.
Arguments get_boltzmann_probabilities {gene P} np_exp c temperature fitness.
Arguments tournament_selection {gene P} c fitness range_max g.
Arguments select_parents {gene P} np_exp c s fitness.
Arguments crossover_candidates {gene P} c.
Arguments get_crossover_points {gene P} c g.
Arguments crossover_points_loop {gene P} c k g.
Arguments mutate_population_base {gene P} c n_mutations g.
Arguments mutate_population {gene P} mutate_genes c population n_mutations g.
Arguments prune {gene} gene_eqb {P} refill_population c population g.
Arguments offspring_step {gene} create_offspring ma pa ix xp acc i.
Arguments prune_step {gene} gene_eqb population acc i.
Arguments copy_rest_step {P} rest_printable_fitness acc i.
Arguments generation {gene} gene_eqb {P} scalar_value uninit np_exp
  refill_population create_offspring mutate_genes c v s.
Arguments generations {gene} gene_eqb {P} scalar_value uninit np_exp
  refill_population create_offspring mutate_genes c niter k v s.
Arguments solve_prepare {gene P} scalar_value uninit initialize_population c s.
Arguments solve_locals {gene} gene_eqb {P} scalar_value uninit np_exp
  initialize_population refill_population create_offspring mutate_genes
  c niter s.
Arguments solve {gene} gene_eqb {P} scalar_value uninit np_exp
  initialize_population refill_population create_offspring mutate_genes
  c niter s.
Arguments init {gene P} np_random_seed cls_fitness_function
  cls_hashable_fitness_function a g.
Arguments check_input_base {gene P} cls_fitness_function allowed
  fitness_function selection_strategy pop_size excluded_genes.
Arguments check_input_base_cache {gene P} cls_hashable_fitness_function
  allowed hashable_fitness_function selection_strategy pop_size excluded_genes.
Arguments budget {gene P} c niter.
Arguments store {gene P} v s.
Arguments set_np_random {gene P} g s.
Arguments set_boltzmann {gene P} table t s.
Arguments set_generation {gene P} g best f0 pf0 s.
Arguments count_generation {gene P} s.
Arguments n_genes {gene P} c.
Arguments allowed_mutation_genes {gene P} c.
Arguments fitness_function {gene P} c.
Arguments scalarizer {gene P} c.
Arguments selection_strategy {gene P} c.
Arguments max_gen {gene P} c.
Arguments max_conv {gene P} c.
Arguments pop_size {gene P} c.
Arguments mutation_rate {gene P} c.
Arguments pop_keep {gene P} c.
Arguments n_matings {gene P} c.
Arguments n_mutations {gene P} c.
Arguments n_crossover_points {gene P} c.
Arguments prune_duplicates {gene P} c.
Arguments np_random {gene P} s.
Arguments generations_ {gene P} s.
Arguments best_individual_ {gene P} s.
Arguments best_fitness_ {gene P} s.
Arguments best_pfitness_ {gene P} s.
Arguments population_ {gene P} s.
Arguments fitness_ {gene P} s.
Arguments printable_fitness {gene P} s.
Arguments mean_fitness_ {gene P} s.
Arguments max_fitness_ {gene P} s.
Arguments prob_intervals {gene P} s.
Arguments temperature {gene P} s.
Arguments population {gene P} l.
Arguments fitness {gene P} l.
Arguments printable {gene P} l.
Arguments mean_fitness {gene P} l.
Arguments max_fitness {gene P} l.
Arguments gen_n {gene P} l.
Arguments conv {gene P} l.

(** ** A small concrete solver

    Integer genes in [0, 10), fitness the sum of the genes, no scalarizer.
    It stands for a child class: the methods that the base class leaves
    open are given the simplest bodies that respect their contracts. *)

Module Demo.

Definition gene : Type := Z.
Definition P : Type := Q.

Definition sum_genes (x : list gene) : P := inject_Z (fold_left Z.add x 0).

(** A rational stand-in for [np.exp] on arguments that are not positive:
    positive and increasing there.  Unlike binary64 [np.exp] it never
    underflows to 0; [underflowing_exp] below does. *)
Definition np_exp (x : Q) : Q := (1 / (1 - x))%Q.

Definition np_random_seed (seed : Z) : rng :=
  {| stream := fun n => seed + Z.of_nat n; cursor := 0 |}.

(** A generator that replays [draws] and then yields zeros. *)
Definition replay (draws : list Z) : rng :=
  {| stream := fun n => nth n draws 0; cursor := 0 |}.

Definition initialize_population (pop_size n_genes : Z) (g : rng)
  : list (list gene) * rng :=
  (repeat (repeat 0 (Z.to_nat n_genes)) (Z.to_nat pop_size), g).

Fixpoint fresh_rows (n_genes : Z) (n : nat) (g : rng)
  : list (list gene) * rng :=
  match n with
  | O => ([], g)
  | S n' =>
      let (row, g1) := randints 10 (Z.to_nat n_genes) g in
      let (rows, g2) := fresh_rows n_genes n' g1 in
      (row :: rows, g2)
  end.

Definition refill_population (n_genes : Z) (n : Z) (g : rng)
  : list (list gene) * rng :=
  fresh_rows n_genes (Z.to_nat n) g.

Definition create_offspring (first_parent sec_parent : list gene)
    (crossover_pt : option (list Z)) (which : offspring_number)
  : list gene :=
  match crossover_pt with
  | None => first_parent
  | Some pts =>
      let cut := Z.to_nat (hd 0 pts) in
      firstn cut first_parent ++ skipn cut sec_parent
  end.

(** One mutation: a new value for gene [col] of row [row]. *)
Definition mutate_one (acc : list (list gene) * rng) (target : Z * Z)
  : list (list gene) * rng :=
  let (population, g) := acc in
  let (row, col) := target in
  let (value, g') := randint 10 g in
  (Np.update population (Z.to_nat row)
     (Np.update (nth (Z.to_nat row) population []) (Z.to_nat col) value),
   g').

Definition mutate_genes (population : list (list gene))
    (rows cols : list Z) (g : rng) : list (list gene) * rng :=
  fold_left mutate_one (combine rows cols) (population, g).

Definition args (pop_size n_genes : Z) (strategy : string)
    (mutation_rate : Q) (prune : bool) (excluded : excluded_arg)
  : init_args gene P :=
  {| arg_n_genes := n_genes;
     arg_fitness_function := Some sum_genes;
     arg_max_gen := 1000;
     arg_max_conv := 100;
     arg_pop_size := pop_size;
     arg_mutation_rate := mutation_rate;
     arg_selection_rate := 1 # 2;
     arg_selection_strategy := strategy;
     arg_excluded_genes := excluded;
     arg_n_crossover_points := 1;
     arg_random_state := None;
     arg_lru_cache := false;
     arg_hashable_fitness_function := None;
     arg_scalarizer := None;
     arg_prune_duplicates := prune |}.

(** Caching switched on, a fitness function passed, no hashable one. *)
Definition cached_args : init_args gene P :=
  {| arg_n_genes := 4;
     arg_fitness_function := Some sum_genes;
     arg_max_gen := 1000;
     arg_max_conv := 100;
     arg_pop_size := 10;
     arg_mutation_rate := 15 # 100;
     arg_selection_rate := 1 # 2;
     arg_selection_strategy := "roulette_wheel";
     arg_excluded_genes := ExcludedNone;
     arg_n_crossover_points := 1;
     arg_random_state := None;
     arg_lru_cache := true;
     arg_hashable_fitness_function := None;
     arg_scalarizer := None;
     arg_prune_duplicates := false |}.

(** The solver's methods with this child class's methods filled in. *)
Abbreviation init a g := (init np_random_seed None None a g).

Abbreviation solve_locals c niter s :=
  (solve_locals Z.eqb (fun q : Q => q) 0%Q np_exp
     (initialize_population (pop_size c) (n_genes c))
     (refill_population (n_genes c)) create_offspring mutate_genes
     c niter s).

Abbreviation solve c niter s :=
  (solve Z.eqb (fun q : Q => q) 0%Q np_exp
     (initialize_population (pop_size c) (n_genes c))
     (refill_population (n_genes c)) create_offspring mutate_genes
     c niter s).

Abbreviation generation c v s :=
  (generation Z.eqb (fun q : Q => q) 0%Q np_exp
     (refill_population (n_genes c)) create_offspring mutate_genes c v s).

(** Construct a solver and call [solve(niter)] once. *)
Definition run (a : init_args gene P) (g : rng) (niter : option Z)
  : result (config gene P * locals gene P * state gene P) :=
  ' (c, s) <- init a g ;;
  ' (v, s') <- solve_locals c niter s ;;
  Ok (c, v, s').

End Demo.

(** ** The temperature after [k] calls of [get_boltzmann_probabilities] *)

Definition heated (selection_strategy : string) (k : nat) (t : Q) : Q :=
  if String.eqb selection_strategy "boltzmann"
  then Nat.iter k (fun t => t + (1 # 10) * t)%Q t
  else t.

Definition history (h : option (list Q)) : list Q :=
  match h with
  | None => []
  | Some l => l
  end.

(** The number of rows of the population the loop works on. *)
Definition rows {gene P : Type} (v : locals gene P) : Z :=
  Z.of_nat (length (population v)).

(** ** What counts as a configuration error *)

Section ConfigurationErrors.
Context {gene P : Type}.
Variable cls_fitness_function : option (chromosome gene -> P).
Variable cls_hashable_fitness_function : option (chromosome gene -> P).

(** No fitness evaluator: none passed, neither plain nor hashable, and none
    defined by the class. *)
Definition evaluator_missing (a : init_args gene P) : Prop :=
  arg_fitness_function gene P a = None
  /\ arg_hashable_fitness_function gene P a = None
  /\ cls_fitness_function = None.

Definition bad_arguments (a : init_args gene P) : Prop :=
  strategy_allowed (arg_selection_strategy gene P a) = false
  \/ arg_pop_size gene P a < 2
  \/ arg_excluded_genes gene P a = ExcludedOther.

(** Caching is asked for and there is no hashable fitness function. *)
Definition hashable_missing (a : init_args gene P) : Prop :=
  arg_lru_cache gene P a = true
  /\ arg_hashable_fitness_function gene P a = None
  /\ cls_hashable_fitness_function = None.

Definition configuration_error {A : Type} (r : result A) : Prop :=
  r = Raise NoFitnessFunction \/ r = Raise InvalidInput.

(** A seed is passed and [np.random.seed] refuses it. *)
Definition seed_refused (a : init_args gene P) : Prop :=
  exists seed, arg_random_state gene P a = Some seed
               /\ valid_seed seed = false.
End ConfigurationErrors.

(** The errors that come from numpy or from Python itself. *)
Definition runtime_error (e : exn) : Prop :=
  e = ValueError \/ e = IndexError \/ e = TypeError \/ e = ZeroDivisionError.


(** ** Concrete runs of the small solver *)

Module Run.

(** Three chromosomes of one gene, pairing two by two, one mutation per
    generation.  The generator replays three draws per generation (row,
    column, new value): the first generation rewrites a 0 by a 0, the second
    one by a 7, later ones by a 0 again. *)
Definition a : init_args Demo.gene Demo.P :=
  Demo.args 3 1 "two_by_two" (1 # 2) false ExcludedNone.

Definition g : rng := Demo.replay [0; 0; 0; 0; 0; 7].

Definition c : config Demo.gene Demo.P :=
  {| n_genes := 1;
     allowed_mutation_genes := [0];
     fitness_function := Demo.sum_genes;
     hashable_fitness_function := None;
     scalarizer := None;
     selection_strategy := "two_by_two";
     max_gen := 1000;
     max_conv := 100;
     pop_size := 3;
     mutation_rate := 1 # 2;
     selection_rate := 1 # 2;
     n_crossover_points := 1;
     pop_keep := 2;
     n_matings := 0;
     n_mutations := 1;
     prune_duplicates := false |}.

(** The solver state right after construction. *)
Definition s0 : state Demo.gene Demo.P :=
  {| np_random := g;
     generations_ := 0;
     best_individual_ := None;
     best_fitness_ := 0%Q;
     best_pfitness_ := None;
     population_ := None;
     fitness_ := None;
     printable_fitness := None;
     mean_fitness_ := None;
     max_fitness_ := None;
     prob_intervals := None;
     temperature := 100%Q |}.

Definition no_locals : locals Demo.gene Demo.P :=
  {| population := [];
     fitness := [];
     printable := [];
     mean_fitness := [];
     max_fitness := [];
     gen_n := 0;
     conv := 0 |}.

Definition value {A : Type} (default : A) (r : result A) : A :=
  match r with
  | Ok x => x
  | Raise _ => default
  end.

(** The loop variables and the state when [solve(niter)] is about to
    store its results, on the fresh solver. *)
Definition after (niter : Z) : locals Demo.gene Demo.P * state Demo.gene Demo.P :=
  value (no_locals, s0) (Demo.solve_locals c (Some niter) s0).

(** One more pass through the loop body from there. *)
Definition next (niter : Z) : locals Demo.gene Demo.P * state Demo.gene Demo.P :=
  value (no_locals, s0)
    (Demo.generation c (fst (after niter)) (snd (after niter))).

(** The solver after [solve(niter)], and after a second [solve(niter)]. *)
Definition solved (niter : Z) : state Demo.gene Demo.P :=
  value s0 (Demo.solve c (Some niter) s0).

Definition solved_again (niter : Z) : state Demo.gene Demo.P :=
  value s0 (Demo.solve c (Some niter) (solved niter)).

(** The same solver with duplicate pruning switched on. *)
Definition c_prune : config Demo.gene Demo.P :=
  {| n_genes := 1;
     allowed_mutation_genes := [0];
     fitness_function := Demo.sum_genes;
     hashable_fitness_function := None;
     scalarizer := None;
     selection_strategy := "two_by_two";
     max_gen := 1000;
     max_conv := 100;
     pop_size := 3;
     mutation_rate := 1 # 2;
     selection_rate := 1 # 2;
     n_crossover_points := 1;
     pop_keep := 2;
     n_matings := 0;
     n_mutations := 1;
     prune_duplicates := true |}.

Definition solved_prune (niter : Z) : state Demo.gene Demo.P :=
  value s0 (Demo.solve c_prune (Some niter) s0).

(** Five genes of which genes 2 and 4 may not mutate. *)
Definition a_excl : init_args Demo.gene Demo.P :=
  Demo.args 4 5 "two_by_two" (1 # 2) false (ExcludedList [2; 4]).

Definition g_excl : rng := Demo.np_random_seed 7.

End Run.

(** The excluded-genes run: the solver, and the targets of one call of the
    base [mutate_population]. *)
Module RunExcluded.

Definition a : init_args Demo.gene Demo.P :=
  Demo.args 4 5 "two_by_two" (1 # 2) false (ExcludedList [2; 4]).

Definition g : rng := Demo.np_random_seed 7.

Definition built : config Demo.gene Demo.P * state Demo.gene Demo.P :=
  Run.value (Run.c, Run.s0) (Demo.init a g).

Definition targets : list Z * list Z * rng :=
  Run.value ([], [], g)
    (mutate_population_base (fst built) (n_mutations (fst built))
       (np_random (snd built))).

End RunExcluded.

(** A boltzmann solver with four chromosomes, of which two are kept. *)
Module RunBoltzmann.

Definition a : init_args Demo.gene Demo.P :=
  Demo.args 4 1 "boltzmann" (1 # 2) false ExcludedNone.

Definition built : config Demo.gene Demo.P * state Demo.gene Demo.P :=
  Run.value (Run.c, Run.s0) (Demo.init a (Demo.replay [])).

(** An elite that has converged, and one that has not. *)
Definition converged : list Q := [5; 5; 5; 5]%Q.
Definition spread : list Q := [3; 2; 1; 0]%Q.

Definition table_of (fitness : list Q) : list float :=
  fst (Run.value ([], 0%Q)
         (get_boltzmann_probabilities Demo.np_exp (fst built)
            (temperature (snd built)) fitness)).

End RunBoltzmann.

(** A roulette-wheel solver with six chromosomes, of which three are kept,
    and a generator whose first float is 0. *)
Module RunRoulette.

Definition a : init_args Demo.gene Demo.P :=
  Demo.args 6 2 "roulette_wheel" (1 # 2) false ExcludedNone.

Definition built : config Demo.gene Demo.P * state Demo.gene Demo.P :=
  Run.value (Run.c, Run.s0) (Demo.init a (Demo.replay [0; 1])).

Definition fitness : list Q := [6; 5; 4; 3; 2; 1]%Q.

Definition selected
  : option (list Z) * option (list Z) * state Demo.gene Demo.P :=
  Run.value (None, None, Run.s0)
    (select_parents Demo.np_exp (fst built) (snd built) fitness).

End RunRoulette.

(** A strictly increasing list of floats. *)
Definition increasing (l : list Q) : Prop := Sorted Qlt l.

(** A cumulative table over [n] buckets: [n + 1] finite entries that start
    at 0, increase strictly and end at 1. *)
Definition cumulative_table (n : Z) (table : list float) : Prop :=
  exists entries : list Q,
    table = map Some entries
    /\ Z.of_nat (length entries) = n + 1
    /\ (hd 1 entries == 0)%Q
    /\ increasing entries
    /\ (last entries 0 == 1)%Q.

(** Every other entry of a list, starting with the first: [l[::2]]. *)
Fixpoint alternate (l : list Z) : list Z :=
  match l with
  | [] => []
  | x :: t => x :: match t with
                   | [] => []
                   | _ :: r => alternate r
                   end
  end.

(** A two_by_two solver with twelve chromosomes (three matings), and a
    tournament solver of the same size with a counting generator. *)
Module RunPairs.

Definition built : config Demo.gene Demo.P * state Demo.gene Demo.P :=
  Run.value (Run.c, Run.s0)
    (Demo.init (Demo.args 12 1 "two_by_two" (1 # 2) false ExcludedNone)
       (Demo.replay [])).

Definition built_tournament
  : config Demo.gene Demo.P * state Demo.gene Demo.P :=
  Run.value (Run.c, Run.s0)
    (Demo.init (Demo.args 12 1 "tournament" (1 # 2) false ExcludedNone)
       (Demo.np_random_seed 3)).

Definition fitness : list Q := [12; 11; 10; 9; 8; 7; 6; 5; 4; 3; 2; 1]%Q.

Definition winners : list Z * rng :=
  Run.value ([], Demo.replay [])
    (tournament_selection (fst built_tournament) fitness
       (n_matings (fst built_tournament) * 2)
       (np_random (snd built_tournament))).

End RunPairs.

(** A rational stand-in for [np.exp] that underflows as binary64 does:
    far enough below zero its value is 0. *)
Definition underflowing_exp (x : Q) : Q :=
  if Qle_bool x (- (746)) then 0%Q
  else if Qle_bool x 0 then (1 / (1 - x))%Q
  else (1 + x)%Q.

(** The offspring loop of the twelve-row two_by_two solver on rows
    numbered from 0, and a boltzmann table under [underflowing_exp]. *)
Module RunElite.

Definition population : list (chromosome Demo.gene) :=
  map (fun i => [i]) (Np.arange 0 12).

Definition offspring : list (chromosome Demo.gene) :=
  Run.value []
    (fold_left
       (offspring_step Demo.create_offspring (Some [0; 2; 4]) (Some [1; 3; 5])
          (Np.arange2 0 (pop_size (fst RunPairs.built)
                         - pop_keep (fst RunPairs.built) - 1))
          [None; None; None])
       (Np.arange 0 3) (Ok population)).

Definition table : list float * Q :=
  Run.value ([], 0%Q)
    (get_boltzmann_probabilities underflowing_exp (fst RunBoltzmann.built)
       100 RunBoltzmann.spread).

End RunElite.


(** A roulette-wheel solver with three rows, and a two_by_two solver with
    two. *)
Module RunSmall.

Definition built : config Demo.gene Demo.P * state Demo.gene Demo.P :=
  Run.value (Run.c, Run.s0)
    (Demo.init (Demo.args 3 1 "roulette_wheel" (1 # 2) false ExcludedNone)
       (Demo.replay [])).

Definition built_two : config Demo.gene Demo.P * state Demo.gene Demo.P :=
  Run.value (Run.c, Run.s0)
    (Demo.init (Demo.args 2 1 "two_by_two" (1 # 2) false ExcludedNone)
       (Demo.replay [])).

(** The loop variables of the two-row solver when [solve] enters its
    loop. *)
Definition prepared : locals Demo.gene Demo.P * state Demo.gene Demo.P :=
  Run.value (Run.no_locals, Run.s0)
    (solve_prepare (fun q : Q => q) 0%Q
       (Demo.initialize_population (pop_size (fst built_two))
          (n_genes (fst built_two)))
       (fst built_two) (snd built_two)).

End RunSmall.


(** Two solvers whose mutation rates are not binary fractions: 100 rows
    open to mutation at rate 0.07, and 30 at rate 0.1. *)
Module RunRates.



End RunRates.

(** ** Orders used in the statements *)

Definition key_le (a b : Q * Z) : Prop := (fst a <= fst b)%Q.

Definition descending (l : list Q) : Prop :=
  StronglySorted (fun a b => (b <= a)%Q) l.

(** * Properties *)

Lemma bind_Ok_inv {A B : Type} (c : result A) (k : A -> result B) (b : B) :
  bind c k = Ok b -> exists a, c = Ok a /\ k a = Ok b.
Proof.
  destruct c as [a|e]; simpl; intros H.
  - exists a. split; [reflexivity | exact H].
  - discriminate H.
Qed.

Ltac inv_bind H :=
  let a := fresh "a" in
  let Ha := fresh "E" in
  apply bind_Ok_inv in H; destruct H as (a & Ha & H).

(** ** Arrays *)

Section ArrayFacts.
Context {A : Type}.
Implicit Types (a : list A) (x : A) (i : Z) (j k : nat).

Lemma update_length a j x : length (Np.update a j x) = length a.
Proof.
  revert j; induction a as [|y t IH]; intros [|j]; simpl; auto.
Qed.

Lemma nth_error_update_eq a j x :
  (j < length a)%nat -> nth_error (Np.update a j x) j = Some x.
Proof.
  revert j; induction a as [|y t IH]; intros [|j]; simpl; intros H;
    try lia; auto.
  apply IH; lia.
Qed.

Lemma nth_error_update_neq a j k x :
  j <> k -> nth_error (Np.update a j x) k = nth_error a k.
Proof.
  revert j k; induction a as [|y t IH]; intros [|j] [|k] H; simpl; auto.
  congruence.
Qed.

Lemma normalize_index_nonneg (n : nat) i :
  0 <= i < Z.of_nat n -> Np.normalize_index n i = Some (Z.to_nat i).
Proof.
  intros H. unfold Np.normalize_index.
  destruct (Z.ltb_spec i 0); try lia.
  destruct (Z.leb_spec 0 i); try lia.
  destruct (Z.ltb_spec i (Z.of_nat n)); try lia.
  reflexivity.
Qed.

Lemma normalize_index_lt (n : nat) i j :
  Np.normalize_index n i = Some j -> (j < n)%nat.
Proof.
  unfold Np.normalize_index.
  destruct (Z.ltb_spec i 0);
    match goal with
    | |- context [(0 <=? ?u) && (?u <? ?w)] =>
        destruct (Z.leb_spec 0 u); destruct (Z.ltb_spec u w)
    end; simpl; intros E; inversion E; lia.
Qed.

Lemma getitem_nonneg a i x :
  0 <= i -> Np.getitem a i = Ok x -> nth_error a (Z.to_nat i) = Some x.
Proof.
  intros Hi. unfold Np.getitem, Np.normalize_index.
  destruct (Z.ltb_spec i 0); try lia.
  destruct (Z.leb_spec 0 i); try lia.
  destruct (Z.ltb_spec i (Z.of_nat (length a))); simpl; try discriminate.
  destruct (nth_error a (Z.to_nat i)); congruence.
Qed.

Lemma getitem_of_nth_error a j x :
  nth_error a j = Some x -> Np.getitem a (Z.of_nat j) = Ok x.
Proof.
  intros H. unfold Np.getitem.
  assert (j < length a)%nat by (apply nth_error_Some; congruence).
  rewrite normalize_index_nonneg by lia.
  rewrite Nat2Z.id, H. reflexivity.
Qed.

Lemma getitem_In a i x : Np.getitem a i = Ok x -> In x a.
Proof.
  unfold Np.getitem.
  destruct (Np.normalize_index (length a) i) as [j|]; try discriminate.
  destruct (nth_error a j) eqn:E; try discriminate.
  intros H; inversion H; subst. eapply nth_error_In; eauto.
Qed.

Lemma setitem_length a i x a' :
  Np.setitem a i x = Ok a' -> length a' = length a.
Proof.
  unfold Np.setitem.
  destruct (Np.normalize_index (length a) i); try discriminate.
  intros H; inversion H. apply update_length.
Qed.

Lemma take_Forall2 a (idx : list Z) (l : list A) :
  Np.take a idx = Ok l <-> Forall2 (fun i x => Np.getitem a i = Ok x) idx l.
Proof.
  revert l; induction idx as [|i rest IH]; intros l; simpl.
  - split; intros H; inversion H; subst; auto.
  - split; intros H.
    + inv_bind H. inv_bind H. inversion H; subst.
      constructor; [assumption | apply IH; assumption].
    + inversion H as [|? y ? ys Hy Hys]; subst.
      rewrite Hy; simpl. apply IH in Hys. rewrite Hys. reflexivity.
Qed.

Lemma take_length a (idx : list Z) (l : list A) :
  Np.take a idx = Ok l -> length l = length idx.
Proof.
  intros H. apply take_Forall2 in H.
  symmetry. eapply Forall2_length; eauto.
Qed.

Lemma take_In a (idx : list Z) (l : list A) x :
  Np.take a idx = Ok l -> In x l -> In x a.
Proof.
  intros H. apply take_Forall2 in H.
  induction H as [|i y idx' l' Hy _ IH]; simpl; intros Hin; [contradiction|].
  destruct Hin as [->|Hin]; [eapply getitem_In; eauto | auto].
Qed.

Lemma Forall2_snoc {B : Type} (R : B -> A -> Prop) l1 l2 b x :
  Forall2 R l1 l2 -> R b x -> Forall2 R (l1 ++ [b]) (l2 ++ [x]).
Proof.
  intros H Hx. apply Forall2_app; auto.
Qed.

Lemma Forall2_rev_intro {B : Type} (R : B -> A -> Prop) l1 l2 :
  Forall2 R l1 l2 -> Forall2 R (rev l1) (rev l2).
Proof.
  induction 1; simpl; auto using Forall2_snoc.
Qed.

Lemma take_rev a (idx : list Z) (l : list A) :
  Np.take a idx = Ok l -> Np.take a (rev idx) = Ok (rev l).
Proof.
  rewrite !take_Forall2. apply Forall2_rev_intro.
Qed.
End ArrayFacts.

(** ** argsort *)

Lemma arange_length lo hi : length (Np.arange lo hi) = Z.to_nat (hi - lo).
Proof. unfold Np.arange. rewrite length_map, length_seq. reflexivity. Qed.

Lemma arange_In lo hi i : In i (Np.arange lo hi) <-> lo <= i < hi.
Proof.
  unfold Np.arange. rewrite in_map_iff. split.
  - intros (k & <- & Hk). apply in_seq in Hk. lia.
  - intros H. exists (Z.to_nat (i - lo)). split; [lia|].
    apply in_seq. lia.
Qed.

Lemma arange_nth_error lo hi k :
  (k < Z.to_nat (hi - lo))%nat ->
  nth_error (Np.arange lo hi) k = Some (lo + Z.of_nat k).
Proof.
  intros H. unfold Np.arange.
  rewrite nth_error_map, nth_error_seq.
  destruct (Nat.ltb_spec k (Z.to_nat (hi - lo))); [reflexivity | lia].
Qed.

Lemma map_snd_combine {A B : Type} (l : list A) (l' : list B) :
  length l = length l' -> map snd (combine l l') = l'.
Proof.
  revert l'; induction l as [|x t IH]; intros [|y t']; simpl; intros H;
    try discriminate; auto.
  f_equal. apply IH. lia.
Qed.

Lemma insert_by_key_perm x l : Permutation (Np.insert_by_key x l) (x :: l).
Proof.
  induction l as [|y t IH]; simpl; auto.
  destruct (Qle_bool (fst x) (fst y)); auto.
  rewrite IH. apply perm_swap.
Qed.

Lemma sort_by_key_perm l : Permutation (Np.sort_by_key l) l.
Proof.
  induction l as [|x t IH]; simpl; auto.
  rewrite insert_by_key_perm. auto.
Qed.

Lemma insert_by_key_sorted x l :
  StronglySorted key_le l -> StronglySorted key_le (Np.insert_by_key x l).
Proof.
  induction 1 as [|y t Ht IH Hy]; simpl.
  - repeat constructor.
  - destruct (Qle_bool (fst x) (fst y)) eqn:E.
    + apply Qle_bool_iff in E. constructor.
      * constructor; assumption.
      * constructor; [exact E|].
        eapply Forall_impl; [|exact Hy].
        intros z Hz. unfold key_le in *. eapply Qle_trans; eauto.
    + assert (Hyx : key_le y x).
      { unfold key_le. destruct (Qlt_le_dec (fst y) (fst x)) as [L|L].
        - apply Qlt_le_weak; exact L.
        - apply Qle_bool_iff in L. congruence. }
      constructor; [exact IH|].
      eapply Permutation_Forall.
      * symmetry. apply insert_by_key_perm.
      * constructor; assumption.
Qed.

Lemma sort_by_key_sorted l : StronglySorted key_le (Np.sort_by_key l).
Proof.
  induction l as [|x t IH]; simpl.
  - constructor.
  - apply insert_by_key_sorted, IH.
Qed.

Lemma argsort_perm keys :
  Permutation (Np.argsort keys) (Np.arange 0 (Z.of_nat (length keys))).
Proof.
  unfold Np.argsort.
  rewrite (Permutation_map snd (sort_by_key_perm (Np.enumerate keys))).
  unfold Np.enumerate. rewrite map_snd_combine; auto.
  rewrite arange_length. lia.
Qed.

Lemma enumerate_getitem keys k i :
  In (k, i) (Np.enumerate keys) -> Np.getitem keys i = Ok k.
Proof.
  unfold Np.enumerate. intros H.
  apply In_nth_error in H. destruct H as (n & Hn).
  assert (Hlen : (n < length keys)%nat).
  { assert (n < length (combine keys (Np.arange 0 (Z.of_nat (length keys)))))%nat
      by (apply nth_error_Some; congruence).
    rewrite length_combine in H. lia. }
  destruct (nth_error keys n) as [k'|] eqn:Ek;
    [|apply nth_error_None in Ek; lia].
  pose proof (arange_nth_error 0 (Z.of_nat (length keys)) n ltac:(lia)) as Ei.
  assert (Hc : nth_error (combine keys (Np.arange 0 (Z.of_nat (length keys)))) n
               = Some (k', 0 + Z.of_nat n)).
  { clear Hn. revert Ek Ei.
    generalize (Np.arange 0 (Z.of_nat (length keys))) as idx.
    generalize (0 + Z.of_nat n) as v. revert n Hlen.
    induction keys as [|q t IH]; intros [|n] Hl v [|j idx]; simpl in *;
      intros E1 E2; try discriminate; try lia.
    - congruence.
    - apply IH; auto. lia. }
  rewrite Hc in Hn. inversion Hn; subst.
  simpl. apply getitem_of_nth_error. exact Ek.
Qed.

Lemma take_pairs keys (l : list (Q * Z)) :
  (forall k i, In (k, i) l -> Np.getitem keys i = Ok k) ->
  Np.take keys (map snd l) = Ok (map fst l).
Proof.
  induction l as [|[k i] t IH]; simpl; intros H; auto.
  rewrite (H k i) by auto. simpl.
  rewrite IH by auto. reflexivity.
Qed.

(** Indexing the keys by their argsort gives them in ascending order. *)
Lemma take_argsort keys :
  Np.take keys (Np.argsort keys)
  = Ok (map fst (Np.sort_by_key (Np.enumerate keys))).
Proof.
  apply take_pairs. intros k i H. apply enumerate_getitem.
  eapply Permutation_in; [apply sort_by_key_perm | exact H].
Qed.

Lemma StronglySorted_rev_flip {A : Type} (R : A -> A -> Prop) l :
  StronglySorted R l -> StronglySorted (fun a b => R b a) (rev l).
Proof.
  induction 1 as [|x t Ht IH Hx]; simpl.
  - constructor.
  - clear Ht. revert IH. generalize (Forall_rev Hx).
    generalize (rev t) as r. clear. intros r Hr.
    induction 1 as [|y u Hu IHu Hy]; simpl.
    + repeat constructor.
    + inversion Hr; subst. constructor; auto.
      apply Forall_app. split; auto.
Qed.

Lemma sorted_keys_descending keys :
  descending (rev (map fst (Np.sort_by_key (Np.enumerate keys)))).
Proof.
  apply (StronglySorted_rev_flip Qle).
  induction (sort_by_key_sorted (Np.enumerate keys)) as [|x t Ht IH Hx];
    simpl; constructor; auto.
  rewrite Forall_map. exact Hx.
Qed.

(** ** sort_by_fitness *)

Section SortFacts.
Context {chromosome P : Type}.
Variable uninit : P.

(** The copying loop writes entry [i] of the source to entry [i] of the
    target for every [i] it visits and leaves the other entries alone. *)
Lemma copy_printable_fold (printable_fitness : list P) (idx : list Z) :
  Forall (fun i => 0 <= i < Z.of_nat (length printable_fitness)) idx ->
  forall pf, length pf = length printable_fitness ->
  exists pf',
    fold_left (copy_printable printable_fitness) idx (Ok pf) = Ok pf'
    /\ length pf' = length printable_fitness
    /\ forall j,
         (In (Z.of_nat j) idx ->
          nth_error pf' j = nth_error printable_fitness j)
         /\ (~ In (Z.of_nat j) idx -> nth_error pf' j = nth_error pf j).
Proof.
  induction 1 as [|i rest Hi _ IH]; intros pf Hlen; cbn [fold_left].
  - exists pf. repeat split; auto. contradiction.
  - destruct (nth_error printable_fitness (Z.to_nat i)) as [x|] eqn:Ex;
      [|apply nth_error_None in Ex; lia].
    assert (Hget : Np.getitem printable_fitness i = Ok x).
    { rewrite <- (Z2Nat.id i) by lia. apply getitem_of_nth_error, Ex. }
    assert (Hstep : copy_printable printable_fitness (Ok pf) i
                    = Ok (Np.update pf (Z.to_nat i) x)).
    { unfold copy_printable. simpl. rewrite Hget. simpl.
      unfold Np.setitem. rewrite normalize_index_nonneg by lia.
      reflexivity. }
    rewrite Hstep.
    destruct (IH (Np.update pf (Z.to_nat i) x)) as (pf' & Hf & Hl & Hn).
    { rewrite update_length. exact Hlen. }
    exists pf'. repeat split; auto.
    + intros [Hj|Hj].
      * destruct (in_dec Z.eq_dec (Z.of_nat j) rest) as [Hin|Hout].
        -- apply Hn, Hin.
        -- destruct (Hn j) as [_ Hkeep]. rewrite (Hkeep Hout).
           subst i. rewrite Nat2Z.id in *.
           rewrite nth_error_update_eq by lia. congruence.
      * apply Hn, Hj.
    + intros Hj. destruct (Hn j) as [_ Hkeep].
      rewrite Hkeep by (intros Hin; apply Hj; right; exact Hin).
      apply nth_error_update_neq. intros E. apply Hj. left. lia.
Qed.

(** Whatever order the index array has, the returned printable fitness is
    the one passed in, entry for entry. *)
Lemma copy_printable_identity (printable_fitness : list P) (idx : list Z) :
  Permutation idx (Np.arange 0 (Z.of_nat (length printable_fitness))) ->
  fold_left (copy_printable printable_fitness) idx
    (Ok (Np.empty_like uninit printable_fitness))
  = Ok printable_fitness.
Proof.
  intros Hperm.
  destruct (copy_printable_fold printable_fitness idx)
    with (pf := Np.empty_like uninit printable_fitness)
    as (pf' & Hf & Hl & Hn).
  - apply Forall_forall. intros i Hi.
    apply (Permutation_in _ Hperm), arange_In in Hi. lia.
  - unfold Np.empty_like. apply repeat_length.
  - rewrite Hf. f_equal. apply nth_error_ext. intros j.
    destruct (Nat.lt_ge_cases j (length printable_fitness)) as [Hj|Hj].
    + apply Hn. apply (Permutation_in _ (Permutation_sym Hperm)).
      apply arange_In. lia.
    + transitivity (@None P).
      * apply nth_error_None. lia.
      * symmetry. apply nth_error_None. lia.
Qed.

Lemma take_total {A : Type} (a : list A) (idx : list Z) :
  Forall (fun i => 0 <= i < Z.of_nat (length a)) idx ->
  exists l, Np.take a idx = Ok l.
Proof.
  induction 1 as [|i rest Hi _ (l & IH)]; simpl.
  - eexists; reflexivity.
  - destruct (nth_error a (Z.to_nat i)) as [x|] eqn:Ex;
      [|apply nth_error_None in Ex; lia].
    exists (x :: l).
    rewrite <- (Z2Nat.id i) by lia.
    rewrite (getitem_of_nth_error _ _ _ Ex). simpl. rewrite IH. reflexivity.
Qed.

(** X13.  What [sort_by_fitness] returns on three arrays of one length: the
    fitness in non-increasing order, every returned row next to the fitness
    it had, and the printable fitness in its old order. *)
Lemma sort_by_fitness_spec (fitness : list Q) (population : list chromosome)
    (printable_fitness : list P) :
  length population = length fitness ->
  length printable_fitness = length fitness ->
  exists fitness' population',
    sort_by_fitness uninit fitness population printable_fitness
    = Ok (fitness', population', printable_fitness)
    /\ descending fitness'
    /\ Permutation (rev (Np.argsort fitness))
         (Np.arange 0 (Z.of_nat (length fitness)))
    /\ Forall2 (fun i fx => Np.getitem fitness i = Ok fx)
         (rev (Np.argsort fitness)) fitness'
    /\ Forall2 (fun i row => Np.getitem population i = Ok row)
         (rev (Np.argsort fitness)) population'.
Proof.
  intros Hpop Hpf.
  assert (Hperm : Permutation (rev (Np.argsort fitness))
                    (Np.arange 0 (Z.of_nat (length fitness)))).
  { rewrite <- Permutation_rev. apply argsort_perm. }
  assert (Hrange : forall n, n = length fitness ->
            Forall (fun i => 0 <= i < Z.of_nat n) (rev (Np.argsort fitness))).
  { intros n ->. apply Forall_forall. intros i Hi.
    apply (Permutation_in _ Hperm), arange_In in Hi. lia. }
  destruct (take_total population (rev (Np.argsort fitness)))
    as (population' & Hp); [apply Hrange; auto|].
  pose proof (take_rev _ _ _ (take_argsort fitness)) as Hfit.
  exists (rev (map fst (Np.sort_by_key (Np.enumerate fitness)))), population'.
  repeat split.
  - unfold sort_by_fitness, sort_by_fitness_with.
    rewrite Hp; simpl. rewrite Hfit; simpl.
    rewrite copy_printable_identity by (rewrite Hpf; exact Hperm).
    reflexivity.
  - apply sorted_keys_descending.
  - exact Hperm.
  - apply take_Forall2, Hfit.
  - apply take_Forall2, Hp.
Qed.

Lemma sort_by_fitness_length (fitness fitness' : list Q)
    (population population' : list chromosome)
    (printable_fitness pfitness : list P) :
  sort_by_fitness uninit fitness population printable_fitness
  = Ok (fitness', population', pfitness) ->
  length fitness' = length fitness
  /\ length population' = length fitness
  /\ length pfitness = length printable_fitness.
Proof.
  unfold sort_by_fitness, sort_by_fitness_with. intros H.
  inv_bind H. inv_bind H. inv_bind H. inversion H; subst.
  assert (Hlen : length (rev (Np.argsort fitness)) = length fitness).
  { rewrite length_rev, (Permutation_length (argsort_perm fitness)).
    rewrite arange_length. lia. }
  apply take_length in E, E0. repeat split; try congruence.
  clear - E1. revert E1.
  assert (Hgen : forall idx (acc : result (list P)) pf,
             fold_left (copy_printable printable_fitness) idx acc = Ok pf ->
             exists pf0, acc = Ok pf0 /\ length pf = length pf0).
  { induction idx as [|i rest IH]; simpl; intros acc pf H.
    - exists pf. auto.
    - apply IH in H. destruct H as (pf1 & H1 & Hl).
      unfold copy_printable in H1. inv_bind H1. inv_bind H1.
      apply setitem_length in H1. exists a. split; congruence. }
  intros H. apply Hgen in H. destruct H as (pf0 & H0 & Hl).
  inversion H0; subst. rewrite Hl. unfold Np.empty_like.
  apply repeat_length.
Qed.
End SortFacts.

(** C1.  [sort_by_fitness] on fitness [1; 2] with rows [a; b] and
    printable fitness [10; 20]: the fitness comes back in non-increasing
    order and the rows follow it, but the printable fitness comes back in its
    old order, so row [b], whose printable fitness was 20, is returned next
    to 10.  The three arrays keep one length and lose their index
    correspondence. *)
Theorem sort_by_fitness_unpairs_printable :
  sort_by_fitness 0%Q [1%Q; 2%Q] ["a"%string; "b"%string] [10%Q; 20%Q]
  = Ok ([2%Q; 1%Q], ["b"%string; "a"%string], [10%Q; 20%Q]).
Proof. reflexivity. Qed.

(** ** Crossover points *)

(** C2.  [get_crossover_points] never returns the crossover points: for every
    configuration and generator the call either raises or returns None,
    the value of the in-place [sort()].  Moreover the points are drawn from
    the positions [0 .. len(allowed) - 1], not from the allowed genes: with
    five genes and genes 0 and 1 excluded, the allowed genes are [2; 3; 4],
    the candidates are [0; 1; 2], and the call returns None. *)
Theorem get_crossover_points_returns_None :
  (forall (gene P : Type) (c : config gene P) (g : rng),
      match get_crossover_points c g with
      | Ok (points, _) => points = None
      | Raise _ => True
      end)
  /\ (exists c s g',
         Demo.init
           (Demo.args 6 5 "two_by_two" (1 # 2) false (ExcludedList [0; 1]))
           (Demo.replay [0]) = Ok (c, s)
         /\ allowed_mutation_genes c = [2; 3; 4]
         /\ crossover_candidates c = [0; 1; 2]
         /\ get_crossover_points c (np_random s)
            = Ok (None, g')).
Proof.
  split.
  - intros gene P c g. unfold get_crossover_points.
    destruct (choice_no_replace _ _ g) as [[pts g']|e]; simpl; auto.
  - do 3 eexists. repeat split; reflexivity.
Qed.

Lemma getitem_nil {A : Type} (i : Z) :
  Np.getitem (@nil A) i = Raise IndexError.
Proof.
  unfold Np.getitem, Np.normalize_index. simpl.
  destruct (Z.ltb_spec i 0).
  - destruct (Z.leb_spec 0 (i + 0)), (Z.ltb_spec (i + 0) 0);
      simpl; auto; lia.
  - destruct (Z.leb_spec 0 i), (Z.ltb_spec i 0); simpl; auto; lia.
Qed.

Lemma take_nil_inv {A : Type} (idx : list Z) (l : list A) :
  Np.take [] idx = Ok l -> idx = [].
Proof.
  destruct idx as [|i rest]; simpl; auto.
  rewrite getitem_nil. discriminate.
Qed.

Lemma argsort_length keys : length (Np.argsort keys) = length keys.
Proof.
  rewrite (Permutation_length (argsort_perm keys)), arange_length. lia.
Qed.

(** ** The generational loop *)

Section LoopFacts.
Variable gene : Type.
Variable gene_eqb : gene -> gene -> bool.
Variable P : Type.
Variable scalar_value : P -> Q.
Variable uninit : P.
Variable np_exp : Q -> Q.
Variable initialize_population : rng -> list (chromosome gene) * rng.
Variable refill_population : Z -> rng -> list (chromosome gene) * rng.
Variable create_offspring :
  chromosome gene -> chromosome gene -> option (list Z) -> offspring_number ->
  chromosome gene.
Variable mutate_genes :
  list (chromosome gene) -> list Z -> list Z -> rng ->
  list (chromosome gene) * rng.

Local Abbreviation generation' :=
  (generation gene_eqb scalar_value uninit np_exp refill_population
     create_offspring mutate_genes).
Local Abbreviation generations' :=
  (generations gene_eqb scalar_value uninit np_exp refill_population
     create_offspring mutate_genes).
Local Abbreviation solve_prepare' :=
  (solve_prepare scalar_value uninit initialize_population).
Local Abbreviation solve_locals' :=
  (solve_locals gene_eqb scalar_value uninit np_exp initialize_population
     refill_population create_offspring mutate_genes).
Local Abbreviation solve' :=
  (solve gene_eqb scalar_value uninit np_exp initialize_population
     refill_population create_offspring mutate_genes).

Implicit Types (c : config gene P) (s : state gene P) (v : locals gene P).

(** [select_parents] touches the generator, and for the boltzmann strategy
    the table and the temperature; nothing else. *)
Lemma select_parents_frame c s fit ma pa s' :
  select_parents np_exp c s fit = Ok (ma, pa, s') ->
  generations_ s' = generations_ s
  /\ best_fitness_ s' = best_fitness_ s
  /\ population_ s' = population_ s
  /\ fitness_ s' = fitness_ s
  /\ printable_fitness s' = printable_fitness s
  /\ mean_fitness_ s' = mean_fitness_ s
  /\ max_fitness_ s' = max_fitness_ s
  /\ temperature s'
     = if String.eqb (selection_strategy c) "boltzmann"
       then (temperature s + (1 # 10) * temperature s)%Q
       else temperature s.
Proof.
  unfold select_parents. intros H.
  destruct (String.eqb (selection_strategy c) "roulette_wheel") eqn:Er;
    [|destruct (String.eqb (selection_strategy c) "random") eqn:Ea];
    simpl in H.
  1,2: assert (Eb : String.eqb (selection_strategy c) "boltzmann" = false)
         by (apply String.eqb_neq; intros E;
             first [apply String.eqb_eq in Er | apply String.eqb_eq in Ea];
             congruence).
  1,2: rewrite Eb; inv_bind H; destruct a as [ma' g1]; simpl in H;
       inv_bind H; destruct a as [pa' g2]; simpl in H;
       inversion H; subst; simpl; repeat split; reflexivity.
  destruct (String.eqb (selection_strategy c) "boltzmann") eqn:Eb.
  - inv_bind H. destruct a as [table t]. simpl in H.
    inv_bind H. destruct a as [ma' g1]. simpl in H.
    inv_bind H. destruct a as [pa' g2]. simpl in H.
    inversion H; subst; simpl. repeat split; try reflexivity.
    unfold get_boltzmann_probabilities in E.
    destruct (Np.slice fit 0 (pop_keep c + 1)); try discriminate.
    destruct (Qeq_bool (temperature s) 0); try discriminate.
    inversion E; subst. reflexivity.
  - destruct (String.eqb (selection_strategy c) "two_by_two").
    + inversion H; subst. repeat split; reflexivity.
    + destruct (String.eqb (selection_strategy c) "tournament").
      * inv_bind H. destruct a as [ma' g1]. simpl in H.
        inv_bind H. destruct a as [pa' g2]. simpl in H.
        inversion H; subst; simpl. repeat split; reflexivity.
      * inversion H; subst. repeat split; reflexivity.
Qed.

(** What one pass through the loop body does to the counters, the
    histories and the stored fields. *)
Lemma generation_facts c v s v' s' :
  generation' c v s = Ok (v', s') ->
  gen_n v' = gen_n v + 1
  /\ generations_ s' = generations_ s + 1
  /\ mean_fitness v' = mean_fitness v ++ [Np.mean (fitness v)]
  /\ (exists f0, Np.getitem (fitness v) 0 = Ok f0
                 /\ max_fitness v' = max_fitness v ++ [f0])
  /\ Np.getitem (fitness v') 0 = Ok (best_fitness_ s')
  /\ conv v' = (if isclose (best_fitness_ s) (best_fitness_ s')
                then conv v + 1 else conv v)
  /\ temperature s'
     = (if String.eqb (selection_strategy c) "boltzmann"
        then (temperature s + (1 # 10) * temperature s)%Q
        else temperature s)
  /\ population_ s' = population_ s
  /\ mean_fitness_ s' = mean_fitness_ s
  /\ max_fitness_ s' = max_fitness_ s.
Proof.
  unfold generation. intros H.
  inv_bind H. rename a into f0.
  inv_bind H. destruct a as [[ma pa] s1]. simpl in H.
  inv_bind H. destruct a as [xp g1]. simpl in H.
  inv_bind H. rename a into population1.
  inv_bind H. destruct a as [population2 g2]. simpl in H.
  inv_bind H. destruct a as [population3 g3]. simpl in H.
  destruct (calculate_fitness scalar_value c _) as [rest_fitness rest_pf].
  inv_bind H. rename a into n_rest.
  inv_bind H. rename a into printable1.
  inv_bind H. destruct a as [[fitness2 population4] printable2]. simpl in H.
  inv_bind H. inv_bind H. inv_bind H.
  inversion H; subst; clear H. simpl.
  apply select_parents_frame in E0.
  destruct E0 as (Hg & Hb & Hp & _ & _ & Hm & Hx & Ht).
  simpl in *.
  repeat split; auto.
  - exists f0. auto.
  - rewrite Hb. reflexivity.
Qed.

Lemma heated_succ strategy k t :
  heated strategy k (heated strategy 1 t) = heated strategy (S k) t.
Proof.
  unfold heated. destruct (String.eqb strategy "boltzmann"); auto.
  symmetry. apply Nat.iter_succ_r.
Qed.

(** The loop as a whole: the generation counters move together, the
    histories grow by one entry per generation, the stagnation counter never
    goes down, and when it is not the stagnation test that ends the loop the
    number of generations run is fixed by [niter] and the iterations left. *)
Lemma generations_facts c niter k v s v' s' :
  generations' c niter k v s = Ok (v', s') ->
  gen_n v' - gen_n v = generations_ s' - generations_ s
  /\ gen_n v <= gen_n v' <= gen_n v + Z.of_nat k
  /\ (gen_n v + 1 <= niter -> gen_n v' <= niter)
  /\ conv v <= conv v'
  /\ (conv v' <= max_conv c -> (1 <= k)%nat ->
      gen_n v' = Z.min (gen_n v + Z.of_nat k) (Z.max niter (gen_n v + 1)))
  /\ (exists ms, mean_fitness v' = mean_fitness v ++ ms
                 /\ Z.of_nat (length ms) = gen_n v' - gen_n v)
  /\ (exists xs, max_fitness v' = max_fitness v ++ xs
                 /\ Z.of_nat (length xs) = gen_n v' - gen_n v)
  /\ temperature s'
     = heated (selection_strategy c) (Z.to_nat (gen_n v' - gen_n v))
         (temperature s)
  /\ population_ s' = population_ s
  /\ mean_fitness_ s' = mean_fitness_ s
  /\ max_fitness_ s' = max_fitness_ s.
Proof.
  revert v s. induction k as [|k IH]; intros v s H; simpl in H.
  - inversion H; subst. rewrite !Z.sub_diag.
    repeat split; try lia.
    + exists []. rewrite app_nil_r. auto.
    + exists []. rewrite app_nil_r. auto.
    + unfold heated. simpl.
      destruct (String.eqb (selection_strategy c) "boltzmann"); reflexivity.
  - inv_bind H. destruct a as [v1 s1]. simpl in H.
    apply generation_facts in E.
    destruct E as (Hg & Hs & Hm & (f0 & _ & Hx) & _ & Hc & Ht & Hp & Hmf & Hxf).
    assert (Hconv : conv v <= conv v1).
    { rewrite Hc. destruct (isclose _ _); lia. }
    assert (Hheat : temperature s1
                    = heated (selection_strategy c) 1 (temperature s)).
    { rewrite Ht. unfold heated.
      destruct (String.eqb (selection_strategy c) "boltzmann"); reflexivity. }
    destruct ((niter <=? gen_n v1) || (max_conv c <? conv v1)) eqn:Eb.
    + inversion H; subst v' s'; clear H.
      apply orb_true_iff in Eb.
      replace (gen_n v1 - gen_n v) with 1 by lia.
      repeat split; try lia.
      * exists [Np.mean (fitness v)]. auto.
      * exists [f0]. auto.
      * exact Hheat.
      * congruence.
      * congruence.
      * congruence.
    + apply orb_false_iff in Eb. destruct Eb as [Eb1 Eb2].
      apply Z.leb_gt in Eb1. apply Z.ltb_ge in Eb2.
      apply IH in H.
      destruct H as (Hg' & Hr' & Hn' & Hc' & He' & (ms & Hm' & Hml)
                     & (xs & Hx' & Hxl) & Ht' & Hp' & Hmf' & Hxf').
      repeat split; try lia.
      * exists (Np.mean (fitness v) :: ms). split.
        -- rewrite Hm', Hm, <- app_assoc. reflexivity.
        -- simpl length. lia.
      * exists (f0 :: xs). split.
        -- rewrite Hx', Hx, <- app_assoc. reflexivity.
        -- simpl length. lia.
      * rewrite Ht', Hheat, heated_succ. f_equal. lia.
      * congruence.
      * congruence.
      * congruence.
Qed.

(** The part of [solve] before the loop leaves every field but the
    generator alone and starts both loop counters afresh. *)
Lemma solve_prepare_facts c s v s' :
  solve_prepare' c s = Ok (v, s') ->
  gen_n v = 1 /\ conv v = 0
  /\ mean_fitness v = history (mean_fitness_ s)
  /\ max_fitness v = history (max_fitness_ s)
  /\ generations_ s' = generations_ s
  /\ temperature s' = temperature s
  /\ best_fitness_ s' = best_fitness_ s
  /\ population_ s' = population_ s
  /\ mean_fitness_ s' = mean_fitness_ s
  /\ max_fitness_ s' = max_fitness_ s.
Proof.
  unfold solve_prepare. intros H.
  destruct (match population_ s with
            | Some p => (p, np_random s)
            | None => initialize_population (np_random s)
            end) as [pop g].
  destruct (calculate_fitness scalar_value c pop) as [fit pf].
  destruct (unsized c fit); try discriminate.
  inv_bind H. destruct a as [[fit' pop'] pf']. simpl in H.
  inversion H; subst; simpl. repeat split; reflexivity.
Qed.

(** X12.  The number of generations one call of [solve] runs: with a budget
    [b = min(max_gen, niter)] of at least 2 it never runs [b] generations;
    unless the stagnation test ends it, it runs [b - 1]. *)
Lemma solve_generation_count c niter s v' s' :
  solve_locals' c niter s = Ok (v', s') ->
  2 <= budget c niter ->
  generations_ s' - generations_ s <= budget c niter - 1
  /\ (conv v' <= max_conv c ->
      generations_ s' - generations_ s = budget c niter - 1).
Proof.
  unfold solve_locals. intros H Hb.
  inv_bind H. destruct a as [v0 s0]. simpl in H.
  apply solve_prepare_facts in E.
  destruct E as (Hg & _ & _ & _ & Hs & _).
  apply generations_facts in H.
  destruct H as (Hd & _ & Hle & _ & Hex & _).
  split.
  - lia.
  - intros Hc. specialize (Hex Hc ltac:(lia)). lia.
Qed.


(** *** Population size *)

Lemma fold_result_inv {A B : Type} (step : result A -> B -> result A)
    (Inv : A -> Prop) :
  (forall acc b a', step acc b = Ok a' ->
                    exists a, acc = Ok a /\ (Inv a -> Inv a')) ->
  forall idx acc a', fold_left step idx acc = Ok a' ->
                     exists a, acc = Ok a /\ (Inv a -> Inv a').
Proof.
  intros Hstep. induction idx as [|b rest IH]; simpl; intros acc a' H.
  - exists a'. auto.
  - apply IH in H. destruct H as (a1 & H1 & Hi1).
    apply Hstep in H1. destruct H1 as (a0 & H0 & Hi0).
    exists a0. auto.
Qed.

Lemma offspring_loop_length ma pa ix xp idx
    (population population' : list (chromosome gene)) :
  fold_left (offspring_step create_offspring ma pa ix xp) idx (Ok population)
  = Ok population' ->
  length population' = length population.
Proof.
  intros H.
  apply (fold_result_inv _ (fun p => length p = length population)) in H.
  - destruct H as (a & Ha & Hi). inversion Ha; subst. auto.
  - clear. intros acc i a' H. unfold offspring_step in H.
    inv_bind H. exists a. split; auto.
    do 9 inv_bind H.
    apply setitem_length in H.
    match goal with
    | E : Np.setitem a _ _ = Ok _ |- _ => apply setitem_length in E
    end.
    intros Hl. congruence.
Qed.

Lemma calculate_fitness_length c pop fit pf :
  (forall scalarize l, scalarizer c = Some scalarize ->
                       length (scalarize l) = length l) ->
  calculate_fitness scalar_value c pop = (fit, pf) ->
  length fit = length pop /\ length pf = length pop.
Proof.
  intros Hs. unfold calculate_fitness.
  destruct (scalarizer c) as [scalarize|] eqn:E; intros H; inversion H; subst.
  - rewrite (Hs _ _ eq_refl), !length_map. auto.
  - rewrite !length_map. auto.
Qed.

Section PopulationSize.
Variable c : config gene P.

(** The contracts of the collaborators: the initializer yields [pop_size]
    rows, a refill of [n] yields [n] rows, mutation rewrites genes without
    adding or dropping rows, and a scalarizer returns one scalar per row. *)
Hypothesis initialize_rows :
  forall g, Z.of_nat (length (fst (initialize_population g))) = pop_size c.
Hypothesis refill_rows :
  forall n g, 0 < n -> length (fst (refill_population n g)) = Z.to_nat n.
Hypothesis mutate_rows :
  forall pop rows cols g,
    length (fst (mutate_genes pop rows cols g)) = length pop.
Hypothesis scalarize_rows :
  forall scalarize l, scalarizer c = Some scalarize ->
                      length (scalarize l) = length l.

Lemma prune_rows pop g pop' g' :
  Z.of_nat (length pop) = pop_size c ->
  prune gene_eqb refill_population c pop g = Ok (pop', g') ->
  Z.of_nat (length pop') = pop_size c.
Proof.
  intros Hlen. unfold prune. intros H.
  inv_bind H. inv_bind H.
  destruct (Z.ltb_spec 0 (pop_size c - Z.of_nat (length a0))) as [Hn|Hn].
  - pose proof (refill_rows _ g Hn) as Hr.
    destruct (refill_population _ g) as [fresh g1]. simpl in Hr.
    inversion H; subst. rewrite length_app, Hr. lia.
  - inversion H; subst. exact Hlen.
Qed.

Lemma generation_rows v s v' s' :
  rows v = pop_size c ->
  generation' c v s = Ok (v', s') ->
  rows v' = pop_size c.
Proof.
  unfold rows, generation. intros Hrows H.
  inv_bind H. rename a into f0.
  inv_bind H. destruct a as [[ma pa] s1]. simpl in H.
  inv_bind H. destruct a as [xp g1]. simpl in H.
  inv_bind H. rename a into population1.
  inv_bind H. destruct a as [population2 g2]. simpl in H.
  inv_bind H. destruct a as [population3 g3]. simpl in H.
  destruct (calculate_fitness scalar_value c _) as [rest_fitness rest_pf]
    eqn:Ecalc.
  inv_bind H. rename a into n_rest.
  inv_bind H. rename a into printable1.
  inv_bind H. destruct a as [[fitness2 population4] printable2]. simpl in H.
  inv_bind H. inv_bind H. inv_bind H.
  inversion H; subst; clear H. simpl.
  apply offspring_loop_length in E2.
  assert (H2 : length population2 = length population1).
  { unfold mutate_population in E3. inv_bind E3.
    destruct a2 as [[mrows mcols] g']. simpl in E3.
    pose proof (mutate_rows population1 mrows mcols g') as Hm.
    destruct (mutate_genes population1 mrows mcols g'). simpl in Hm.
    inversion E3; subst. exact Hm. }
  assert (H3 : Z.of_nat (length population3) = pop_size c).
  { destruct (prune_duplicates c).
    - eapply prune_rows; [|exact E4]. congruence.
    - inversion E4; subst. congruence. }
  apply calculate_fitness_length in Ecalc; [|exact scalarize_rows].
  destruct Ecalc as [Hrest _].
  pose proof E7 as Hsort.
  apply sort_by_fitness_length in Hsort. destruct Hsort as (_ & Hp4 & _).
  destruct population3 as [|row0 rest3].
  - exfalso. unfold sort_by_fitness, sort_by_fitness_with in E7.
    inv_bind E7.
    match goal with
    | T : Np.take [] _ = Ok _ |- _ => apply take_nil_inv in T;
        apply (f_equal (@length Z)) in T;
        rewrite length_rev, argsort_length in T; simpl in T; lia
    end.
  - simpl in Hrest, Hp4 |- *. simpl in H3. lia.
Qed.

Lemma solve_prepare_rows s v s' :
  (forall p, population_ s = Some p -> Z.of_nat (length p) = pop_size c) ->
  solve_prepare' c s = Ok (v, s') ->
  rows v = pop_size c.
Proof.
  intros Hstored. unfold solve_prepare, rows. intros H.
  assert (Hpop : Z.of_nat (length (fst (match population_ s with
                                        | Some p => (p, np_random s)
                                        | None => initialize_population (np_random s)
                                        end))) = pop_size c).
  { destruct (population_ s) as [p|]; simpl; auto. }
  destruct (match population_ s with
            | Some p => (p, np_random s)
            | None => initialize_population (np_random s)
            end) as [pop g]. simpl in Hpop.
  destruct (calculate_fitness scalar_value c pop) as [fit pf] eqn:Ecalc.
  destruct (unsized c fit); try discriminate.
  inv_bind H. destruct a as [[fit' pop'] pf']. simpl in H.
  inversion H; subst; simpl.
  apply sort_by_fitness_length in E. destruct E as (_ & Hp & _).
  apply calculate_fitness_length in Ecalc; [|exact scalarize_rows].
  destruct Ecalc as [Hf _]. lia.
Qed.

Lemma generations_rows niter k v s v' s' :
  rows v = pop_size c ->
  generations' c niter k v s = Ok (v', s') ->
  rows v' = pop_size c.
Proof.
  revert v s. induction k as [|k IH]; simpl; intros v s Hr H.
  - inversion H; subst. exact Hr.
  - inv_bind H. destruct a as [v1 s1]. simpl in H.
    apply generation_rows in E; [|exact Hr].
    destruct ((niter <=? gen_n v1) || (max_conv c <? conv v1)).
    + inversion H; subst. exact E.
    + eapply IH; eauto.
Qed.

Lemma copy_rest_length (rest_pf : list P) idx (pf pf' : list P) :
  fold_left (copy_rest_step rest_pf) idx (Ok pf) = Ok pf' ->
  length pf' = length pf.
Proof.
  intros H.
  apply (fold_result_inv _ (fun p => length p = length pf)) in H.
  - destruct H as (a & Ha & Hi). inversion Ha; subst. auto.
  - clear. intros acc i a' H. unfold copy_rest_step in H.
    inv_bind H. exists a. split; auto.
    inv_bind H. apply setitem_length in H. intros Hl. congruence.
Qed.

(** X14.  The three parallel arrays keep one length through a generation. *)
Lemma generation_parallel_lengths v s v' s' :
  rows v = pop_size c ->
  length (printable v) = length (population v) ->
  generation' c v s = Ok (v', s') ->
  length (fitness v') = length (population v')
  /\ length (printable v') = length (population v').
Proof.
  intros Hrows Hpf H.
  pose proof (generation_rows _ _ _ _ Hrows H) as Hrows'.
  unfold rows in *. unfold generation in H.
  inv_bind H. rename a into f0.
  inv_bind H. destruct a as [[ma pa] s1]. simpl in H.
  inv_bind H. destruct a as [xp g1]. simpl in H.
  inv_bind H. rename a into population1.
  inv_bind H. destruct a as [population2 g2]. simpl in H.
  inv_bind H. destruct a as [population3 g3]. simpl in H.
  destruct (calculate_fitness scalar_value c _) as [rest_fitness rest_pf].
  inv_bind H. rename a into n_rest.
  inv_bind H. rename a into printable1.
  inv_bind H. destruct a as [[fitness2 population4] printable2]. simpl in H.
  inv_bind H. inv_bind H. inv_bind H.
  inversion H; subst; clear H. simpl in *.
  apply sort_by_fitness_length in E7. destruct E7 as (Hf & Hp & Hq).
  apply copy_rest_length in E6.
  split; [congruence | lia].
Qed.

(** C8.  When the collaborators keep their contracts, the population has
    exactly [pop_size] rows when the loop is entered, every generation that
    starts with [pop_size] rows ends with [pop_size] rows (duplicate pruning
    and refill included), and so does the population that [solve] stores. *)
Theorem population_size_invariant (s : state gene P) (niter : option Z)
    (Hstored : forall p, population_ s = Some p ->
                         Z.of_nat (length p) = pop_size c) :
  (forall v s0, solve_prepare' c s = Ok (v, s0) -> rows v = pop_size c)
  /\ (forall v s1 v' s1', rows v = pop_size c ->
                          generation' c v s1 = Ok (v', s1') ->
                          rows v' = pop_size c)
  /\ (forall s', solve' c niter s = Ok s' ->
                 exists p, population_ s' = Some p
                           /\ Z.of_nat (length p) = pop_size c).
Proof.
  split; [|split].
  - intros v s0. apply solve_prepare_rows, Hstored.
  - intros v s1 v' s1'. apply generation_rows.
  - intros s' H. unfold solve, solve_locals in H.
    inv_bind H. destruct a as [v1 s1]. simpl in H.
    inv_bind E. destruct a as [v0 s0]. simpl in E.
    apply solve_prepare_rows in E0; [|exact Hstored].
    apply generations_rows in E; [|exact E0].
    inversion H; subst. simpl. exists (population v1). split; auto.
Qed.
End PopulationSize.

(** *** Successive calls *)

Lemma sort_by_fitness_incl {C : Type} (fit fit' : list Q)
    (pop pop' : list C) (pf pf' : list P) :
  sort_by_fitness uninit fit pop pf = Ok (fit', pop', pf') -> incl pop' pop.
Proof.
  unfold sort_by_fitness, sort_by_fitness_with. intros H.
  inv_bind H. inv_bind H. inv_bind H. inversion H; subst.
  intros x Hx. eapply take_In; eauto.
Qed.

(** C10.  A call of [solve] on a solver that has run before continues from
    what is stored: the generation counter goes on from its value, the two
    histories are extended at their ends by one entry per generation run,
    the temperature goes on from its value (raised once per generation under
    boltzmann, untouched otherwise), and a stored population is what the
    loop starts from, without a draw from the generator.  The stagnation
    counter is not stored: the loop always starts with it at zero, and with
    the loop's own generation number at one. *)
Theorem solve_resumes c niter s s' (H : solve' c niter s = Ok s') :
  exists k : nat,
    generations_ s' = generations_ s + Z.of_nat k
    /\ (exists ms, mean_fitness_ s' = Some (history (mean_fitness_ s) ++ ms)
                   /\ length ms = k)
    /\ (exists xs, max_fitness_ s' = Some (history (max_fitness_ s) ++ xs)
                   /\ length xs = k)
    /\ temperature s' = heated (selection_strategy c) k (temperature s)
    /\ (exists v0 s0,
           solve_prepare' c s = Ok (v0, s0)
           /\ conv v0 = 0 /\ gen_n v0 = 1
           /\ (forall p, population_ s = Some p ->
                         incl (population v0) p
                         /\ np_random s0 = np_random s)
           /\ exists v' s1,
               generations' c (budget c niter) (Z.to_nat (budget c niter))
                 v0 s0 = Ok (v', s1)
               /\ s' = store v' s1).
Proof.
  unfold solve, solve_locals in H.
  inv_bind H. destruct a as [v' s1]. simpl in H.
  inv_bind E. destruct a as [v0 s0]. simpl in E.
  inversion H; subst s'; clear H.
  pose proof (solve_prepare_facts _ _ _ _ E0)
    as (Hg & Hc & Hm & Hx & Hgen & Ht & _ & Hp & Hmf & Hxf).
  pose proof (generations_facts _ _ _ _ _ _ _ E)
    as (Hd & Hr & _ & _ & _ & (ms & Hms & Hml) & (xs & Hxs & Hxl) & Ht' & _).
  exists (Z.to_nat (gen_n v' - gen_n v0)).
  simpl. repeat split.
  - lia.
  - exists ms. split; [congruence | lia].
  - exists xs. split; [congruence | lia].
  - congruence.
  - exists v0, s0. repeat split; auto.
    + unfold solve_prepare in E0. rewrite H in E0.
      destruct (calculate_fitness scalar_value c p) as [fit pf].
      destruct (unsized c fit); try discriminate.
      inv_bind E0. destruct a as [[fit' pop'] pf']. simpl in E0.
      inversion E0; subst; simpl.
      eapply sort_by_fitness_incl; eauto.
    + unfold solve_prepare in E0. rewrite H in E0.
      destruct (calculate_fitness scalar_value c p) as [fit pf].
      destruct (unsized c fit); try discriminate.
      inv_bind E0. destruct a as [[fit' pop'] pf']. simpl in E0.
      inversion E0; subst; simpl. reflexivity.
    + exists v', s1. auto.
Qed.

End LoopFacts.


(** ** Errors at selection time *)

Lemma bind_Raise_inv {A B : Type} (c : result A) (k : A -> result B) e :
  bind c k = Raise e -> c = Raise e \/ exists a, c = Ok a /\ k a = Raise e.
Proof.
  destruct c as [a|e']; simpl; intros H.
  - right. exists a. auto.
  - left. inversion H. reflexivity.
Qed.

Lemma getitem_raise {A : Type} (a : list A) i e :
  Np.getitem a i = Raise e -> e = IndexError.
Proof.
  unfold Np.getitem.
  destruct (Np.normalize_index (length a) i) as [j|];
    [destruct (nth_error a j)|]; intros H; inversion H; reflexivity.
Qed.

Lemma take_raise {A : Type} (a : list A) idx e :
  Np.take a idx = Raise e -> e = IndexError.
Proof.
  induction idx as [|i rest IH]; simpl; intros H; [discriminate|].
  apply bind_Raise_inv in H. destruct H as [H|(x & _ & H)].
  - eapply getitem_raise; eauto.
  - apply bind_Raise_inv in H. destruct H as [H|(xs & _ & H)];
      [auto | discriminate].
Qed.

Lemma map_result_raise {A B : Type} (f : A -> result B) (Bad : exn -> Prop) :
  (forall x e, f x = Raise e -> Bad e) ->
  forall l e, map_result f l = Raise e -> Bad e.
Proof.
  intros Hf. induction l as [|x t IH]; simpl; intros e H; [discriminate|].
  apply bind_Raise_inv in H. destruct H as [H|(y & _ & H)]; [eauto|].
  apply bind_Raise_inv in H. destruct H as [H|(ys & _ & H)];
    [eauto | discriminate].
Qed.

Lemma choice_raise a size g e :
  choice a size g = Raise e -> runtime_error e.
Proof.
  unfold choice, runtime_error.
  destruct (size <? 0); [intros H; inversion H; auto|].
  destruct ((Z.of_nat (length a) =? 0) && negb (size =? 0));
    [intros H; inversion H; auto|].
  destruct (randints _ _ g) as [idx g']. intros H.
  apply bind_Raise_inv in H. destruct H as [H|(xs & _ & H)];
    [apply take_raise in H; auto | discriminate].
Qed.

Section SelectionErrors.
Context {gene P : Type}.
Variable np_exp : Q -> Q.
Implicit Types (c : config gene P) (s : state gene P).

Lemma select_by_interval_raise c table g e :
  select_by_interval c table g = Raise e -> runtime_error e.
Proof.
  unfold select_by_interval.
  destruct (n_matings c <=? 0);
    [intros H; inversion H; unfold runtime_error; auto|].
  destruct (random_samples _ g) as [values g']. intros H.
  apply bind_Raise_inv in H. destruct H as [H|(xs & _ & H)]; [|discriminate].
  revert H. apply (map_result_raise _ runtime_error). clear. intros x e.
  unfold interval_selection, runtime_error.
  destruct table; intros H; inversion H; auto.
Qed.

Lemma tournament_selection_raise c fit range_max g e :
  tournament_selection c fit range_max g = Raise e -> runtime_error e.
Proof.
  unfold tournament_selection.
  destruct (n_matings c <? 0);
    [intros H; inversion H; unfold runtime_error; auto|].
  intros H. apply bind_Raise_inv in H. destruct H as [H|([draws g'] & _ & H)].
  - eapply choice_raise; eauto.
  - simpl in H. apply bind_Raise_inv in H.
    destruct H as [H|(ws & _ & H)]; [|discriminate].
    revert H. apply (map_result_raise _ runtime_error). clear. intros x e.
    unfold tournament_selection_helper, runtime_error. intros H.
    apply bind_Raise_inv in H. destruct H as [H|(fs & _ & H)].
    + apply take_raise in H. auto.
    + apply getitem_raise in H. auto.
Qed.

(** Whatever [select_parents] raises comes from numpy or Python, never from
    the configuration checks. *)
Lemma select_parents_raise c s fit e :
  select_parents np_exp c s fit = Raise e -> runtime_error e.
Proof.
  unfold select_parents.
  destruct (String.eqb (selection_strategy c) "roulette_wheel"
            || String.eqb (selection_strategy c) "random").
  { intros H. apply bind_Raise_inv in H. destruct H as [H|([ma g1] & _ & H)];
      [eapply select_by_interval_raise; eauto|].
    simpl in H. apply bind_Raise_inv in H.
    destruct H as [H|([pa g2] & _ & H)];
      [eapply select_by_interval_raise; eauto | discriminate]. }
  destruct (String.eqb (selection_strategy c) "boltzmann").
  { intros H. apply bind_Raise_inv in H.
    destruct H as [H|([table t] & _ & H)].
    - unfold get_boltzmann_probabilities in H.
      destruct (Np.slice fit 0 (pop_keep c + 1));
        [inversion H; unfold runtime_error; auto|].
      destruct (Qeq_bool (temperature s) 0);
        inversion H; unfold runtime_error; auto.
    - simpl in H. apply bind_Raise_inv in H.
      destruct H as [H|([ma g1] & _ & H)];
        [eapply select_by_interval_raise; eauto|].
      simpl in H. apply bind_Raise_inv in H.
      destruct H as [H|([pa g2] & _ & H)];
        [eapply select_by_interval_raise; eauto | discriminate]. }
  destruct (String.eqb (selection_strategy c) "two_by_two");
    [discriminate|].
  destruct (String.eqb (selection_strategy c) "tournament");
    [|discriminate].
  intros H. apply bind_Raise_inv in H. destruct H as [H|([ma g1] & _ & H)];
    [eapply tournament_selection_raise; eauto|].
  simpl in H. apply bind_Raise_inv in H.
  destruct H as [H|([pa g2] & _ & H)];
    [eapply tournament_selection_raise; eauto | discriminate].
Qed.
End SelectionErrors.

(** ** Construction *)

Section InitFacts.
Context {gene P : Type}.
Variable np_random_seed : Z -> rng.
Variable cls_fitness_function : option (chromosome gene -> P).
Variable cls_hashable_fitness_function : option (chromosome gene -> P).

Lemma check_rest_cases allowed strategy pop_size excluded :
  (check_rest allowed strategy pop_size excluded = Raise InvalidInput
   /\ (strategy_allowed strategy = false \/ pop_size < 2
       \/ excluded = ExcludedOther))
  \/ (exists allowed', check_rest allowed strategy pop_size excluded
                       = Ok allowed'
      /\ strategy_allowed strategy = true /\ 2 <= pop_size
      /\ excluded <> ExcludedOther).
Proof.
  unfold check_rest.
  destruct (strategy_allowed strategy); simpl; [|left; auto].
  destruct (Z.ltb_spec pop_size 2); [left; auto|].
  destruct excluded; try (right; eexists; repeat split; auto; discriminate).
  left. auto.
Qed.

Lemma check_rest_allowed_irrelevant allowed allowed' strategy pop_size excluded e :
  check_rest allowed strategy pop_size excluded = Raise e ->
  check_rest allowed' strategy pop_size excluded = Raise e.
Proof.
  unfold check_rest.
  destruct (strategy_allowed strategy); simpl; auto.
  destruct (pop_size <? 2); auto.
  destruct excluded; auto; discriminate.
Qed.

Lemma int_times_raise n x e :
  Float64.int_times n x = Raise e -> e = OverflowError.
Proof.
  unfold Float64.int_times.
  destruct (Float64.of_int n); intros H; inversion H; reflexivity.
Qed.

Lemma get_pop_keep_raise rate size e :
  get_pop_keep rate size = Raise e -> e = ValueError \/ e = OverflowError.
Proof.
  unfold get_pop_keep. intros H.
  apply bind_Raise_inv in H. destruct H as [H|(x & _ & H)].
  - right. eapply int_times_raise. exact H.
  - destruct x; inversion H; auto.
Qed.

Lemma get_number_mutations_raise size genes rate e :
  get_number_mutations size genes rate = Raise e ->
  e = ValueError \/ e = OverflowError.
Proof.
  unfold get_number_mutations. intros H.
  apply bind_Raise_inv in H. destruct H as [H|(x & _ & H)].
  - right. eapply int_times_raise. exact H.
  - destruct x; inversion H; auto.
Qed.

(** C9 (as amended).  [np.random.seed] runs first: a seed outside
    [0, 2^32) makes construction raise ValueError before any check.
    Otherwise construction raises a configuration error exactly when no
    fitness evaluator is available, the selection strategy is not one of the
    five names, the population size is below 2, the excluded-genes argument
    is neither absent nor a list, tuple or array, or caching is asked for
    and no hashable fitness function is available; whatever else it raises
    comes from turning the float products for [pop_keep] and [n_mutations]
    into integers, and is a ValueError or an OverflowError.
    [select_parents] raises no configuration error, whatever the
    strategy. *)
Theorem init_raises_iff (a : init_args gene P) (g : rng) :
  (seed_refused a ->
   init np_random_seed cls_fitness_function cls_hashable_fitness_function
     a g = Raise ValueError)
  /\ (~ seed_refused a ->
      (configuration_error
         (init np_random_seed cls_fitness_function
            cls_hashable_fitness_function a g)
       <-> evaluator_missing cls_fitness_function a
           \/ bad_arguments a
           \/ hashable_missing cls_hashable_fitness_function a)
      /\ (forall e,
             init np_random_seed cls_fitness_function
               cls_hashable_fitness_function a g = Raise e ->
             e = NoFitnessFunction \/ e = InvalidInput
             \/ get_pop_keep (arg_selection_rate gene P a)
                  (arg_pop_size gene P a) = Raise e
             \/ get_number_mutations (arg_pop_size gene P a)
                  (arg_n_genes gene P a) (arg_mutation_rate gene P a)
                = Raise e))
  /\ (forall e,
         init np_random_seed cls_fitness_function
           cls_hashable_fitness_function a g = Raise e ->
         e = NoFitnessFunction \/ e = InvalidInput
         \/ e = ValueError \/ e = OverflowError)
  /\ (forall np_exp (c : config gene P) s fit e,
         select_parents np_exp c s fit = Raise e ->
         e <> InvalidInput /\ e <> NoFitnessFunction).
Proof.
  refine ((fun H => conj (proj1 H) (conj (proj1 (proj2 H))
                                      (conj (proj2 (proj2 H)) _))) _).
  { clear. intros np_exp c s fit e Hr. apply select_parents_raise in Hr.
    unfold runtime_error in Hr.
    split; intros ->; destruct Hr as [Hr|[Hr|[Hr|Hr]]]; discriminate. }
  unfold seed_refused.
  destruct a as [ng ff mg mc ps mr sr st ex ncp rs lru hf sc pd].
  cbn [arg_random_state arg_selection_rate arg_pop_size arg_n_genes
       arg_mutation_rate].
  unfold init.
  cbn [arg_n_genes arg_fitness_function arg_pop_size arg_selection_strategy
       arg_excluded_genes arg_lru_cache arg_hashable_fitness_function
       arg_random_state arg_selection_rate arg_mutation_rate].
  destruct rs as [seed|]; [destruct (valid_seed seed) eqn:Eseed|].
  2: { (* the seed is refused *)
       cbn [bind].
       split; [reflexivity|].
       split; [intros Hn; exfalso; apply Hn; exists seed; auto|].
       intros e H; inversion H; auto. }
  all: cbn [bind].
  all: split; [intros (seed' & Hs & Hv); congruence|].
  all: refine ((fun H => conj (fun _ => H)
                           (fun e He => _ (proj2 H e He))) _).
  all: try (intros [H1|[H1|[H1|H1]]]; auto;
            [apply get_pop_keep_raise in H1
            |apply get_number_mutations_raise in H1]; tauto).
  all: unfold check_input_base, check_input_base_cache,
         configuration_error, evaluator_missing, bad_arguments,
         hashable_missing;
       cbn [arg_n_genes arg_fitness_function arg_pop_size
            arg_selection_strategy arg_excluded_genes arg_lru_cache
            arg_hashable_fitness_function].
  all: destruct (get_pop_keep sr ps) as [k|e1] eqn:Ek.
  all: destruct (get_number_mutations ps ng mr) as [n|e2] eqn:En.
  all: try (apply get_pop_keep_raise in Ek).
  all: try (apply get_number_mutations_raise in En).
  all: destruct (check_rest_cases (Np.arange 0 ng) st ps ex)
         as [[Hr Hbad] | (al & Hok & Hs & Hp & He)].
  all: try (
    (* the shared checks fail *)
    destruct ff as [f|]; [|destruct hf as [h|];
                           [|destruct cls_fitness_function as [cf|]]];
    cbn [bind]; try rewrite Hr; cbn [bind];
    (split; [split; auto|]);
    intros e H; inversion H; auto; fail).
  all: assert (Hnb : ~ (strategy_allowed st = false \/ ps < 2
                        \/ ex = ExcludedOther))
         by (intros [H|[H|H]]; [congruence | lia | contradiction]).
  all: destruct (check_rest_cases al st ps ex)
         as [[Hr2 Hbad2] | (al2 & Hok2 & _)]; [contradiction|].
  all: destruct ff as [f|]; [|destruct hf as [h|];
                              [|destruct cls_fitness_function as [cf|]]];
       cbn [bind]; try rewrite Hok; cbn [bind].
  all: try (split; [split; auto|]; intros e H; inversion H; auto; fail).
  all: destruct lru; cbn [bind].
  all: try destruct hf as [h'|]; cbn [bind].
  all: try destruct cls_hashable_fitness_function as [ch|]; cbn [bind].
  all: try rewrite Hok2; cbn [bind].
  all: split; [split|].
  all: try (intros e H; inversion H; subst; auto; fail).
  all: try (intros _; right; right; repeat split; reflexivity).
  all: try (intros [H|H]; inversion H; subst;
            repeat match goal with
                   | D : _ \/ _ |- _ => destruct D
                   end; discriminate).
  all: try (left; reflexivity).
  all: intros [(H1 & H2 & H3)|[H|(H1 & H2 & H3)]];
    try discriminate; try contradiction.
Qed.

(** What a successful construction has computed. *)
Lemma init_inv (a : init_args gene P) (g0 : rng) (c : config gene P)
    (s0 : state gene P) :
  init np_random_seed cls_fitness_function cls_hashable_fitness_function a g0
  = Ok (c, s0) ->
  exists f allowed1 k0,
    check_input_base cls_fitness_function
      (Np.arange 0 (arg_n_genes gene P a))
      match arg_fitness_function gene P a,
            arg_hashable_fitness_function gene P a with
      | None, Some h => Some h
      | f, _ => f
      end
      (arg_selection_strategy gene P a) (arg_pop_size gene P a)
      (arg_excluded_genes gene P a)
    = Ok (f, allowed1)
    /\ (if arg_lru_cache gene P a
        then check_input_base_cache cls_hashable_fitness_function allowed1
               (arg_hashable_fitness_function gene P a)
               (arg_selection_strategy gene P a) (arg_pop_size gene P a)
               (arg_excluded_genes gene P a)
        else Ok allowed1)
       = Ok (allowed_mutation_genes c)
    /\ get_pop_keep (arg_selection_rate gene P a) (arg_pop_size gene P a)
       = Ok k0
    /\ get_number_mutations (arg_pop_size gene P a) (arg_n_genes gene P a)
         (arg_mutation_rate gene P a)
       = Ok (n_mutations c)
    /\ pop_size c = arg_pop_size gene P a
    /\ n_genes c = arg_n_genes gene P a
    /\ mutation_rate c = arg_mutation_rate gene P a
    /\ selection_rate gene P c = arg_selection_rate gene P a
    /\ selection_strategy c = arg_selection_strategy gene P a
    /\ pop_keep c = Z.max 2 k0
    /\ n_matings c = (pop_size c - pop_keep c) / 2
    /\ 2 <= pop_size c.
Proof.
  unfold init. intros H.
  apply bind_Ok_inv in H. destruct H as (g1 & _ & H).
  apply bind_Ok_inv in H. destruct H as ([f allowed1] & E & H).
  apply bind_Ok_inv in H. destruct H as (allowed2 & E0 & H).
  apply bind_Ok_inv in H. destruct H as (k0 & Ek & H).
  apply bind_Ok_inv in H. destruct H as (n & En & H).
  apply (f_equal (fun r => match r with
                           | Ok p => fst p
                           | Raise _ => c
                           end)) in H.
  cbv beta iota delta [fst] in H. subst c.
  cbv beta iota delta [pop_size n_genes mutation_rate selection_rate
                       selection_strategy pop_keep n_matings n_mutations
                       allowed_mutation_genes].
  exists f, allowed1, k0.
  split; [exact E|]. split; [exact E0|]. split; [exact Ek|].
  split; [exact En|].
  do 5 (split; [reflexivity|]).
  split; [destruct (Z.ltb_spec k0 2); lia|].
  split; [reflexivity|].
  unfold check_input_base in E.
  apply bind_Ok_inv in E. destruct E as (f' & _ & E).
  apply bind_Ok_inv in E. destruct E as (al & E & _).
  unfold check_rest in E.
  destruct (negb (strategy_allowed _)); [discriminate|].
  destruct (Z.ltb_spec (arg_pop_size gene P a) 2); [discriminate | lia].
Qed.
End InitFacts.

(** ** The concrete runs *)

(** Splits a conjunction of closed equations and evaluates each one. *)
Ltac evaluate :=
  repeat match goal with
         | |- _ /\ _ => split
         end;
  vm_compute; reflexivity.

Lemma run_init : Demo.init Run.a Run.g = Ok (Run.c, Run.s0).
Proof. vm_compute. reflexivity. Qed.

Lemma run_prune_init :
  Demo.init (Demo.args 3 1 "two_by_two" (1 # 2) true ExcludedNone) Run.g
  = Ok (Run.c_prune, Run.s0).
Proof. vm_compute. reflexivity. Qed.

(** C3.  A fresh solver with [max_gen = 1000] and [max_conv = 100], asked
    for [solve(5)], runs four generations, not [min(5, 1000) = 5]: the loop's
    own generation number starts at 1 and the loop is left as soon as it
    reaches the budget.  The stagnation counter stands at 3 then, far from
    [max_conv].  Asked for [solve(2)] it runs one generation. *)
Theorem solve_runs_one_generation_less :
  budget Run.c (Some 5) = 5
  /\ generations_ (snd (Run.after 5)) = 4
  /\ gen_n (fst (Run.after 5)) = 5
  /\ conv (fst (Run.after 5)) = 3
  /\ Demo.solve_locals Run.c (Some 5) Run.s0 = Ok (Run.after 5)
  /\ generations_ (snd (Run.after 2)) = 1
  /\ Demo.solve_locals Run.c (Some 2) Run.s0 = Ok (Run.after 2).
Proof. evaluate. Qed.



(** On the run: a second [solve(3)] on the solver left by a first. *)
Lemma solve_resumes_witness :
  Demo.solve Run.c (Some 3) (Run.solved 3) = Ok (Run.solved_again 3)
  /\ generations_ (Run.solved 3) <= generations_ (Run.solved_again 3).
Proof.
  assert (H : Demo.solve Run.c (Some 3) (Run.solved 3)
              = Ok (Run.solved_again 3))
    by (vm_compute; reflexivity).
  split; [exact H|].
  destruct (solve_resumes Demo.gene Z.eqb Demo.P (fun q => q) 0%Q
              Demo.np_exp
              (Demo.initialize_population (pop_size Run.c) (n_genes Run.c))
              (Demo.refill_population (n_genes Run.c))
              Demo.create_offspring Demo.mutate_genes Run.c
              (Some 3) (Run.solved 3) (Run.solved_again 3) H)
    as (k & Hk & _).
  revert Hk. clear H.
  generalize (generations_ (Run.solved_again 3)) (generations_ (Run.solved 3)).
  intros x y Hk. lia.
Defined.

(** On the run: the first call leaves the stagnation counter at 1 after
    its two generations; the second call stores two more generations, four
    in all, with histories of length four. *)
Lemma second_call_continues :
  conv (fst (Run.after 3)) = 1
  /\ generations_ (Run.solved 3) = 2
  /\ generations_ (Run.solved_again 3) = 4
  /\ max_fitness_ (Run.solved 3) = Some [0%Q; 0%Q]
  /\ max_fitness_ (Run.solved_again 3) = Some [0%Q; 0%Q; 7%Q; 7%Q].
Proof. evaluate. Qed.

(** C9, the claim as stated fails.  With caching switched on, a fitness
    function passed and no hashable fitness function, construction raises
    NoFitnessFunction although the fitness evaluator is there, the strategy
    is recognized, the population size is 10 and no genes are excluded. *)
Lemma init_cache_raises :
  Demo.init Demo.cached_args (Demo.replay []) = Raise NoFitnessFunction
  /\ ~ (evaluator_missing None Demo.cached_args
        \/ bad_arguments Demo.cached_args).
Proof.
  split; [vm_compute; reflexivity|].
  unfold evaluator_missing, bad_arguments. simpl.
  intros [(H & _)|[H|[H|H]]]; discriminate.
Qed.

Lemma init_raises_iff_witness :
  configuration_error (Demo.init Demo.cached_args (Demo.replay []))
  <-> evaluator_missing None Demo.cached_args
      \/ bad_arguments Demo.cached_args
      \/ hashable_missing None Demo.cached_args.
Proof.
  assert (Hseed : ~ seed_refused Demo.cached_args)
    by (intros (seed & E & _); discriminate E).
  exact (proj1 (proj1 (proj2 (init_raises_iff Demo.np_random_seed None None
                                Demo.cached_args (Demo.replay [])))
                  Hseed)).
Defined.

(** ** Mutation targets *)

Lemma randints_length n k g :
  length (fst (randints n k g)) = k.
Proof.
  revert g. induction k as [|k IH]; intros g; cbn [randints]; auto.
  destruct (randint n g) as [x g1].
  specialize (IH g1). destruct (randints n k g1) as [xs g2].
  cbn [fst length] in *. lia.
Qed.

(** [np.random.choice] with replacement: as many entries as asked for, each
    one an entry of the array drawn from. *)
Lemma choice_spec a size g xs g' :
  choice a size g = Ok (xs, g') ->
  0 <= size
  /\ Z.of_nat (length xs) = size
  /\ Forall (fun x => In x a) xs
  /\ exists idx,
       randints (Z.of_nat (length a)) (Z.to_nat size) g = (idx, g')
       /\ Np.take a idx = Ok xs.
Proof.
  unfold choice.
  destruct (Z.ltb_spec size 0) as [Hneg|Hpos]; [discriminate|].
  destruct ((Z.of_nat (length a) =? 0) && negb (size =? 0)); [discriminate|].
  pose proof (randints_length (Z.of_nat (length a)) (Z.to_nat size) g) as Hl.
  destruct (randints _ _ g) as [idx g1]. simpl in Hl.
  intros H. inv_bind H. inversion H; subst.
  repeat split.
  - assumption.
  - apply take_length in E. lia.
  - apply Forall_forall. intros x Hx. eapply take_In; eauto.
  - exists idx. auto.
Qed.



Section MutationFacts.
Context {gene P : Type}.
Variable np_random_seed : Z -> rng.
Variable cls_fitness_function : option (chromosome gene -> P).
Variable cls_hashable_fitness_function : option (chromosome gene -> P).


Variable gene_eqb : gene -> gene -> bool.
Variable scalar_value : P -> Q.
Variable uninit : P.
Variable np_exp : Q -> Q.
Variable refill_population : Z -> rng -> list (chromosome gene) * rng.
Variable create_offspring :
  chromosome gene -> chromosome gene -> option (list Z) -> offspring_number ->
  chromosome gene.
Variable mutate_genes :
  list (chromosome gene) -> list Z -> list Z -> rng ->
  list (chromosome gene) * rng.


End MutationFacts.



(** ** The small solver keeps the collaborators' contracts *)

Lemma demo_fresh_rows_length n_genes n g :
  length (fst (Demo.fresh_rows n_genes n g)) = n.
Proof.
  revert g. induction n as [|n IH]; intros g; cbn [Demo.fresh_rows]; auto.
  destruct (randints 10 (Z.to_nat n_genes) g) as [row g1].
  specialize (IH g1). destruct (Demo.fresh_rows n_genes n g1) as [rs g2].
  cbn [fst length] in *. lia.
Qed.

Lemma demo_refill_rows n_genes n g :
  0 < n -> length (fst (Demo.refill_population n_genes n g)) = Z.to_nat n.
Proof. intros _. apply demo_fresh_rows_length. Qed.

Lemma demo_mutate_rows pop rows cols g :
  length (fst (Demo.mutate_genes pop rows cols g)) = length pop.
Proof.
  unfold Demo.mutate_genes.
  generalize (combine rows cols) as targets. intros targets.
  revert pop g. induction targets as [|[r col] t IH]; intros pop g; simpl; auto.
  destruct (randint 10 g) as [value g1]. rewrite IH.
  apply update_length.
Qed.

Lemma population_size_invariant_witness :
  Demo.solve Run.c_prune (Some 5) Run.s0 = Ok (Run.solved_prune 5)
  /\ exists p, population_ (Run.solved_prune 5) = Some p
               /\ Z.of_nat (length p) = pop_size Run.c_prune.
Proof.
  assert (H : Demo.solve Run.c_prune (Some 5) Run.s0
              = Ok (Run.solved_prune 5))
    by (vm_compute; reflexivity).
  split; [exact H|].
  assert (Hinit : forall g,
             Z.of_nat (length (fst (Demo.initialize_population
                                      (pop_size Run.c_prune)
                                      (n_genes Run.c_prune) g)))
             = pop_size Run.c_prune)
    by (intros g; reflexivity).
  assert (Hscal : forall (scalarize : list Demo.P -> list Q) l,
             scalarizer Run.c_prune = Some scalarize ->
             length (scalarize l) = length l)
    by (intros scalarize l E; discriminate E).
  assert (Hstored : forall p, population_ Run.s0 = Some p ->
                              Z.of_nat (length p) = pop_size Run.c_prune)
    by (intros p E; discriminate E).
  destruct (population_size_invariant Demo.gene Z.eqb Demo.P (fun q => q) 0%Q
              Demo.np_exp
              (Demo.initialize_population (pop_size Run.c_prune)
                 (n_genes Run.c_prune))
              (Demo.refill_population (n_genes Run.c_prune))
              Demo.create_offspring Demo.mutate_genes Run.c_prune
              Hinit (demo_refill_rows (n_genes Run.c_prune))
              demo_mutate_rows Hscal Run.s0 (Some 5) Hstored)
    as (_ & _ & Hsolve).
  exact (Hsolve (Run.solved_prune 5) H).
Defined.

(** ** The boltzmann table *)

(** C5.  On a boltzmann solver with [pop_keep = 2] and temperature 100:
    the table is built from the first [pop_keep + 1 = 3] fitness values, not
    from the two kept ones.  For a converged elite the fitness range is
    zero, the epsilon is added only after the division by the range, and
    every entry after the leading 0 is NaN, whatever [np.exp] is.  For the
    fitness [3; 2; 1; 0] the three probabilities are normalised to sum 1 but
    only the first two are accumulated, so the table ends below 1.  The
    temperature does go from 100 to 110. *)
Theorem boltzmann_table_not_normalized :
  Demo.init RunBoltzmann.a (Demo.replay [])
  = Ok (fst RunBoltzmann.built, snd RunBoltzmann.built)
  /\ pop_keep (fst RunBoltzmann.built) = 2
  /\ temperature (snd RunBoltzmann.built) = 100%Q
  /\ Np.slice RunBoltzmann.spread 0 (pop_keep (fst RunBoltzmann.built) + 1)
     = [3; 2; 1]%Q
  /\ (forall np_exp,
         get_boltzmann_probabilities np_exp (fst RunBoltzmann.built)
           (temperature (snd RunBoltzmann.built)) RunBoltzmann.converged
         = Ok ([Some 0%Q; None; None], (100 + (1 # 10) * 100)%Q))
  /\ (exists p1 p2 t,
         get_boltzmann_probabilities Demo.np_exp (fst RunBoltzmann.built)
           (temperature (snd RunBoltzmann.built)) RunBoltzmann.spread
         = Ok ([Some 0%Q; Some p1; Some p2], t)
         /\ (p2 < 1)%Q /\ (t == 110)%Q).
Proof.
  do 4 (split; [vm_compute; reflexivity|]).
  split.
  - intros np_exp. vm_compute. reflexivity.
  - do 3 eexists. split; [vm_compute; reflexivity|].
    split; vm_compute; reflexivity.
Qed.

(** ** Interval selection *)

(** C6.  On a roulette-wheel solver with [pop_keep = 3] and one mating, a
    generator whose first float is 0: [interval_selection] finds the first
    table entry, 0, not exceeded, and returns 0 - 1 = -1.  Nothing clips
    it: [select_parents] returns the mother index -1, which is outside
    [0, pop_size). *)
Theorem interval_selection_returns_minus_one :
  Demo.init RunRoulette.a (Demo.replay [0; 1])
  = Ok (fst RunRoulette.built, snd RunRoulette.built)
  /\ pop_keep (fst RunRoulette.built) = 3
  /\ n_matings (fst RunRoulette.built) = 1
  /\ pop_size (fst RunRoulette.built) = 6
  /\ (fst (random_sample (np_random (snd RunRoulette.built))) == 0)%Q
  /\ interval_selection (prob_intervals (snd RunRoulette.built)) 0%Q
     = Ok (-1)
  /\ select_parents Demo.np_exp (fst RunRoulette.built)
       (snd RunRoulette.built) RunRoulette.fitness
     = Ok RunRoulette.selected
  /\ fst (fst RunRoulette.selected) = Some [-1]
  /\ snd (fst RunRoulette.selected) = Some [0].
Proof. evaluate. Qed.

(** ** Sums and cumulative sums *)

Lemma fold_left_Qplus_acc (l : list Q) (a : Q) :
  (fold_left Qplus l a == a + fold_left Qplus l 0)%Q.
Proof.
  revert a. induction l as [|x t IH]; intros a; simpl.
  - ring.
  - rewrite (IH (a + x)%Q), (IH (0 + x)%Q). ring.
Qed.

Lemma sum_cons (x : Q) (l : list Q) : (Np.sum (x :: l) == x + Np.sum l)%Q.
Proof.
  unfold Np.sum. simpl. rewrite fold_left_Qplus_acc. ring.
Qed.

Lemma sum_app (l1 l2 : list Q) :
  (Np.sum (l1 ++ l2) == Np.sum l1 + Np.sum l2)%Q.
Proof.
  induction l1 as [|x t IH]; simpl.
  - unfold Np.sum at 2. simpl. ring.
  - rewrite !sum_cons, IH. ring.
Qed.

Lemma sum_map_scale (k : Q) (l : list Q) :
  (Np.sum (map (fun p => p * k) l) == Np.sum l * k)%Q.
Proof.
  induction l as [|x t IH]; simpl.
  - unfold Np.sum. simpl. ring.
  - rewrite !sum_cons, IH. ring.
Qed.

Lemma sum_pos (l : list Q) :
  Forall (fun x => 0 < x)%Q l -> l <> [] -> (0 < Np.sum l)%Q.
Proof.
  induction 1 as [|x t Hx Ht IH]; intros Hne; [congruence|].
  rewrite sum_cons. destruct t as [|y t'].
  - unfold Np.sum. simpl. rewrite Qplus_0_r. exact Hx.
  - assert (0 < Np.sum (y :: t'))%Q by (apply IH; discriminate).
    rewrite <- (Qplus_0_r 0). apply Qplus_lt_le_compat; auto.
    apply Qlt_le_weak; auto.
Qed.

Lemma cumsum_from_last (l : list Q) (a d : Q) :
  l <> [] -> (last (Np.cumsum_from a l) d == a + Np.sum l)%Q.
Proof.
  revert a. induction l as [|x t IH]; intros a Hne; [congruence|].
  destruct t as [|y t'].
  - simpl. unfold Np.sum. simpl. ring.
  - change (Np.cumsum_from a (x :: y :: t'))
      with ((a + x)%Q :: Np.cumsum_from (a + x) (y :: t')).
    assert (Hl : forall (u : Q) v w, last (u :: v :: w) d = last (v :: w) d)
      by reflexivity.
    change (Np.cumsum_from (a + x) (y :: t'))
      with ((a + x + y)%Q :: Np.cumsum_from (a + x + y) t') at 1.
    rewrite Hl.
    change ((a + x + y)%Q :: Np.cumsum_from (a + x + y) t')
      with (Np.cumsum_from (a + x) (y :: t')).
    rewrite IH by discriminate. rewrite (sum_cons x). ring.
Qed.

(** ** The boltzmann table in general *)

Section BoltzmannFacts.
Context {gene P : Type}.
Variable np_exp : Q -> Q.
Hypothesis np_exp_pos : forall x, (0 < np_exp x)%Q.

Lemma normalize_spec (e : list Q) :
  Forall (fun p => 0 < p)%Q e -> e <> [] ->
  length (map (fun p => p * (1 / Np.sum e))%Q e) = length e
  /\ Forall (fun p => 0 < p)%Q (map (fun p => p * (1 / Np.sum e))%Q e)
  /\ (Np.sum (map (fun p => p * (1 / Np.sum e))%Q e) == 1)%Q.
Proof.
  intros He Hne. pose proof (sum_pos e He Hne) as HC.
  repeat split.
  - apply length_map.
  - apply Forall_forall. intros p Hp.
    apply in_map_iff in Hp. destruct Hp as (v & <- & Hv).
    rewrite Forall_forall in He. specialize (He v Hv).
    apply Qmult_lt_0_compat; auto.
    unfold Qdiv. rewrite Qmult_1_l. apply Qinv_lt_0_compat. exact HC.
  - rewrite (sum_map_scale (1 / Np.sum e) e). field.
    intros E0. rewrite E0 in HC. inversion HC.
Qed.

Lemma boltzmann_mating_prob_spec temperature nfit mating_prob :
  boltzmann_mating_prob np_exp temperature nfit = Some mating_prob ->
  length mating_prob = length nfit
  /\ Forall (fun p => 0 < p)%Q mating_prob
  /\ (Np.sum mating_prob == 1)%Q.
Proof.
  unfold boltzmann_mating_prob.
  destruct nfit as [|x t]; [discriminate|].
  destruct (Qeq_bool (list_max x t - list_min x t) 0); [discriminate|].
  match goal with
  | |- context [Qeq_bool (Np.sum ?e0) 0] => remember e0 as e eqn:Ee
  end.
  destruct (Qeq_bool (Np.sum e) 0); [discriminate|].
  intros H. injection H as H. subst mating_prob.
  assert (Hlen : length e = length (x :: t))
    by (subst e; rewrite !length_map; reflexivity).
  destruct (normalize_spec e) as (Hl & Hpos & Hsum).
  - subst e. apply Forall_forall. intros p Hp.
    apply in_map_iff in Hp. destruct Hp as (v & <- & _). apply np_exp_pos.
  - intros E0. rewrite E0 in Hlen. discriminate.
  - repeat split; auto. congruence.
Qed.

(** With more rows than [pop_keep] and an [np.exp] that is positive
    everywhere, the table never ends at 1: when its last entry is a number,
    that number is below 1. *)
Lemma boltzmann_table_ends_below_one (c : config gene P) temperature
    fitness table temperature' :
  1 <= pop_keep c ->
  pop_keep c < Z.of_nat (length fitness) ->
  get_boltzmann_probabilities np_exp c temperature fitness
  = Ok (table, temperature') ->
  forall q, last table None = Some q -> (q < 1)%Q.
Proof.
  intros Hk Hlen. unfold get_boltzmann_probabilities.
  set (nfit := Np.slice fitness 0 (pop_keep c + 1)).
  assert (Hn : length nfit = S (Z.to_nat (pop_keep c))).
  { unfold nfit, Np.slice. simpl skipn. rewrite length_firstn. lia. }
  destruct nfit as [|x t] eqn:En; [discriminate|].
  destruct (Qeq_bool temperature 0); [discriminate|].
  destruct (boltzmann_mating_prob np_exp temperature (x :: t)) as [mp|] eqn:Emp;
    intros H; injection H as H1 H2; subst table; clear H2.
  - apply boltzmann_mating_prob_spec in Emp.
    destruct Emp as (Hl & Hpos & Hsum).
    intros q Hq.
    unfold Np.slice in Hq. simpl skipn in Hq.
    replace (Z.to_nat (pop_keep c) - Z.to_nat 0)%nat
      with (Z.to_nat (pop_keep c)) in Hq by lia.
    set (n := Z.to_nat (pop_keep c)) in *.
    assert (Hsplit : mp = firstn n mp ++ skipn n mp)
      by (symmetry; apply firstn_skipn).
    assert (Hfl : length (firstn n mp) = n)
      by (rewrite length_firstn; lia).
    assert (Hsl : length (skipn n mp) = 1%nat)
      by (rewrite length_skipn; lia).
    destruct (skipn n mp) as [|y [|z r]] eqn:Es; try discriminate.
    assert (Hy : (0 < y)%Q).
    { rewrite Forall_forall in Hpos. apply Hpos.
      rewrite Hsplit. apply in_or_app. right. left. reflexivity. }
    assert (Hne : firstn n mp <> []).
    { intros E0. rewrite E0 in Hfl. simpl in Hfl. lia. }
    assert (Hcs : Np.cumsum (firstn n mp) <> []).
    { destruct (firstn n mp); [congruence | discriminate]. }
    assert (Hlast : last (Some 0%Q :: map Some (Np.cumsum (firstn n mp))) None
                    = Some (last (Np.cumsum (firstn n mp)) 0%Q)).
    { revert Hcs. generalize (Np.cumsum (firstn n mp)). intros l Hl0.
      destruct l as [|u l']; [congruence|].
      change (last (Some 0%Q :: map Some (u :: l')) None)
        with (last (map Some (u :: l')) None).
      clear. revert u. induction l' as [|v l' IH]; intros u; [reflexivity|].
      change (last (map Some (u :: v :: l')) None)
        with (last (map Some (v :: l')) None).
      change (last (u :: v :: l') 0%Q) with (last (v :: l') 0%Q).
      apply IH. }
    pose proof (eq_trans (eq_sym Hlast) Hq) as Hq'.
    injection Hq' as Hq'. subst q.
    unfold Np.cumsum. rewrite cumsum_from_last by exact Hne.
    assert (Hs1 : (Np.sum [y] == y)%Q) by (unfold Np.sum; simpl; ring).
    rewrite Hsplit, sum_app, Hs1 in Hsum.
    revert Hsum Hy. generalize (Np.sum (firstn n mp)). intros S HS Hy. lra.
  - intros q Hq. exfalso.
    unfold Np.slice in Hq. simpl skipn in Hq.
    rewrite length_firstn in Hq.
    replace (Nat.min (Z.to_nat (pop_keep c) - Z.to_nat 0) (length (x :: t)))
      with (S (Z.to_nat (pop_keep c) - 1)) in Hq by lia.
    revert Hq. generalize (Z.to_nat (pop_keep c) - 1)%nat. clear.
    intros m. induction m as [|m IH]; simpl; [discriminate|].
    exact IH.
Qed.
End BoltzmannFacts.

(** ** Interval selection in general *)

Lemma first_false_bound (bs : list bool) (i : Z) :
  Np.first_false bs = Some i -> 0 <= i < Z.of_nat (length bs).
Proof.
  revert i. induction bs as [|b t IH]; intros i; simpl; [discriminate|].
  destruct b.
  - destruct (Np.first_false t) as [j|]; simpl; [|discriminate].
    intros H. inversion H; subst. specialize (IH j eq_refl). lia.
  - intros H. inversion H; subst. lia.
Qed.

Lemma first_false_exists (bs : list bool) :
  In false bs -> exists i, Np.first_false bs = Some i.
Proof.
  induction bs as [|b t IH]; simpl; [contradiction|].
  destruct b.
  - intros [H|H]; [discriminate|].
    destruct (IH H) as (i & ->). simpl. eauto.
  - eauto.
Qed.

(** A draw above 0 that some later table entry does not fall short of is
    mapped to a position among the kept rows. *)
Lemma interval_selection_in_range (rest : list float) (value : Q) :
  (0 < value)%Q ->
  Exists (fun x => float_gt value x = false) rest ->
  exists i, interval_selection (Some (Some 0%Q :: rest)) value = Ok i
            /\ 0 <= i < Z.of_nat (length rest).
Proof.
  intros Hpos Hex. unfold interval_selection, Np.argmin_bool.
  cbn [map Np.first_false float_gt].
  assert (Hgt : negb (Qle_bool value 0) = true).
  { apply negb_true_iff. destruct (Qle_bool value 0) eqn:E; auto.
    apply Qle_bool_iff in E. lra. }
  rewrite Hgt.
  destruct (first_false_exists (map (float_gt value) rest)) as (i & Hi).
  { apply Exists_exists in Hex. destruct Hex as (x & Hx & Ex).
    apply in_map_iff. exists x. auto. }
  rewrite Hi. simpl.
  apply first_false_bound in Hi. rewrite length_map in Hi.
  exists i. split; [f_equal; lia | lia].
Qed.

(** X15.  A draw of 0 on a table that starts with 0 is mapped to -1. *)
Lemma interval_selection_zero (rest : list float) (value : Q) :
  (value == 0)%Q ->
  interval_selection (Some (Some 0%Q :: rest)) value = Ok (-1).
Proof.
  intros H0. unfold interval_selection, Np.argmin_bool.
  cbn [map Np.first_false float_gt].
  assert (Hle : Qle_bool value 0 = true) by (apply Qle_bool_iff; lra).
  rewrite Hle. reflexivity.
Qed.

(** [np.isclose] is not a purely absolute test: two best fitness values one
    unit apart count as the same once they are large. *)
Lemma isclose_relative_tolerance :
  isclose 1000000 1000001 = true /\ isclose 0 (1 # 1000000) = false.
Proof. split; vm_compute; reflexivity. Qed.

(** ** The deterministic strategies on small inputs *)

Lemma tournament_helper_example :
  tournament_selection_helper [0; 1; 2] [1; 5; 3]%Q = Ok 1.
Proof. reflexivity. Qed.

Lemma two_by_two_example :
  exists c s,
    Demo.init (Demo.args 12 1 "two_by_two" (1 # 2) false ExcludedNone)
      (Demo.replay []) = Ok (c, s)
    /\ n_matings c = 3
    /\ select_parents Demo.np_exp c s [] = Ok (Some [0; 2; 4], Some [1; 3; 5], s).
Proof. do 2 eexists. repeat split; reflexivity. Qed.

(** ** The selection tables built at construction *)

Lemma sum_rev (l : list Q) : (Np.sum (rev l) == Np.sum l)%Q.
Proof.
  induction l as [|x t IH]; simpl; [reflexivity|].
  rewrite sum_app, !sum_cons, IH.
  change (Np.sum []) with 0%Q. ring.
Qed.

Lemma cumsum_from_length (l : list Q) (a : Q) :
  length (Np.cumsum_from a l) = length l.
Proof.
  revert a. induction l as [|x t IH]; intros a; simpl; auto.
Qed.

Lemma cumsum_from_increasing (l : list Q) (a : Q) :
  Forall (fun x => 0 < x)%Q l -> increasing (a :: Np.cumsum_from a l).
Proof.
  revert a. induction l as [|x t IH]; intros a H; simpl.
  - constructor; constructor.
  - inversion H; subst. constructor.
    + apply IH. assumption.
    + constructor. lra.
Qed.

Lemma slice_all {A : Type} (l : list A) (hi : Z) :
  Z.of_nat (length l) <= hi -> Np.slice l 0 hi = l.
Proof.
  intros H. unfold Np.slice. simpl skipn.
  apply firstn_all2. change (Z.to_nat 0) with 0%nat. lia.
Qed.

Lemma ranks_positive (pop_keep : Z) :
  Forall (fun x => 0 < x)%Q (map inject_Z (Np.arange 1 (pop_keep + 1))).
Proof.
  apply Forall_forall. intros x Hx.
  apply in_map_iff in Hx. destruct Hx as (k & <- & Hk).
  apply arange_In in Hk.
  change 0%Q with (inject_Z 0). rewrite <- Zlt_Qlt. lia.
Qed.

Lemma sorted_map_seq (h : nat -> Q) (a n : nat) :
  (forall k, h k < h (S k))%Q -> increasing (map h (seq a n)).
Proof.
  intros Hh. revert a. induction n as [|n IH]; intros a; simpl.
  - constructor.
  - constructor; [apply IH|].
    destruct n; simpl; constructor. apply Hh.
Qed.

Lemma last_map_seq (h : nat -> Q) (a n : nat) (d : Q) :
  last (map h (seq a (S n))) d = h (a + n)%nat.
Proof.
  revert a. induction n as [|n IH]; intros a.
  - simpl. f_equal. lia.
  - change (seq a (S (S n))) with (a :: seq (S a) (S n)).
    change (map h (a :: seq (S a) (S n)))
      with (h a :: map h (seq (S a) (S n))).
    assert (Hl : forall (u : Q) v w, last (u :: v :: w) d = last (v :: w) d)
      by reflexivity.
    change (map h (seq (S a) (S n)))
      with (h (S a) :: map h (seq (S (S a)) n)) at 1.
    rewrite Hl.
    change (h (S a) :: map h (seq (S (S a)) n))
      with (map h (seq (S a) (S n))).
    rewrite IH. f_equal. lia.
Qed.

(** X1.  For every [pop_keep >= 1] the roulette-wheel table built at
    construction is a cumulative table over [pop_keep] buckets: it has
    [pop_keep + 1] entries, starts at 0, increases strictly and ends at 1. *)
Theorem roulette_wheel_table (pop_keep : Z) (Hkeep : 1 <= pop_keep) :
  exists table,
    get_selection_probabilities "roulette_wheel" pop_keep = Some table
    /\ cumulative_table pop_keep table.
Proof.
  unfold get_selection_probabilities. rewrite String.eqb_refl.
  set (ranks := map inject_Z (Np.arange 1 (pop_keep + 1))).
  set (mating_prob := rev (map (fun r => (r / Np.sum ranks)%Q) ranks)).
  eexists. split; [reflexivity|].
  assert (Hranks : Forall (fun x => 0 < x)%Q ranks) by apply ranks_positive.
  assert (Hlen : length ranks = Z.to_nat pop_keep).
  { unfold ranks. rewrite length_map, arange_length. lia. }
  assert (Hne : ranks <> []).
  { intros E. rewrite E in Hlen. simpl in Hlen. lia. }
  pose proof (sum_pos ranks Hranks Hne) as HS.
  assert (Hmp : Forall (fun x => 0 < x)%Q mating_prob).
  { unfold mating_prob. apply Forall_rev. apply Forall_forall.
    intros x Hx. apply in_map_iff in Hx. destruct Hx as (r & <- & Hr).
    rewrite Forall_forall in Hranks. specialize (Hranks r Hr).
    unfold Qdiv. apply Qmult_lt_0_compat; auto.
    apply Qinv_lt_0_compat. exact HS. }
  assert (Hmlen : length mating_prob = Z.to_nat pop_keep).
  { unfold mating_prob. rewrite length_rev, length_map. exact Hlen. }
  rewrite slice_all by lia.
  exists (0%Q :: Np.cumsum mating_prob).
  split; [reflexivity|]. split; [|split; [|split]].
  - simpl length. unfold Np.cumsum. rewrite cumsum_from_length. lia.
  - reflexivity.
  - apply cumsum_from_increasing. exact Hmp.
  - assert (Hmne : mating_prob <> []).
    { intros E. rewrite E in Hmlen. simpl in Hmlen. lia. }
    assert (Hcne : Np.cumsum mating_prob <> []).
    { destruct mating_prob; [congruence | discriminate]. }
    assert (Hl : last (0%Q :: Np.cumsum mating_prob) 0%Q
                 = last (Np.cumsum mating_prob) 0%Q).
    { destruct (Np.cumsum mating_prob); [congruence | reflexivity]. }
    rewrite Hl. unfold Np.cumsum. rewrite cumsum_from_last by exact Hmne.
    unfold mating_prob. rewrite sum_rev.
    change (map (fun r => (r / Np.sum ranks)%Q) ranks)
      with (map (fun r => (r * / Np.sum ranks)%Q) ranks).
    rewrite (sum_map_scale (/ Np.sum ranks) ranks). field.
    intros E. rewrite E in HS. inversion HS.
Qed.

Lemma roulette_wheel_table_witness :
  exists table,
    get_selection_probabilities "roulette_wheel" 3 = Some table
    /\ cumulative_table 3 table.
Proof. apply (roulette_wheel_table 3). lia. Defined.

(** X2.  For every [pop_keep >= 1] the table of the random strategy is a
    cumulative table over [pop_keep] buckets, and its entries are evenly
    spaced: entry [k] is [k / pop_keep]. *)
Theorem random_table (pop_keep : Z) (Hkeep : 1 <= pop_keep) :
  exists table,
    get_selection_probabilities "random" pop_keep = Some table
    /\ cumulative_table pop_keep table
    /\ forall k, 0 <= k <= pop_keep ->
                 nth_error table (Z.to_nat k)
                 = Some (Some (inject_Z k / inject_Z pop_keep)%Q).
Proof.
  unfold get_selection_probabilities.
  change (String.eqb "random" "roulette_wheel") with false.
  rewrite String.eqb_refl. cbv iota.
  eexists. split; [reflexivity|].
  assert (Hpk : (0 < inject_Z pop_keep)%Q).
  { change 0%Q with (inject_Z 0). rewrite <- Zlt_Qlt. lia. }
  set (h := fun k : nat => (inject_Z (0 + Z.of_nat k) / inject_Z pop_keep)%Q).
  assert (Hent : map (fun i => (inject_Z i / inject_Z pop_keep)%Q)
                   (Np.arange 0 (pop_keep + 1))
                 = map h (seq 0 (S (Z.to_nat pop_keep)))).
  { unfold Np.arange. rewrite map_map.
    replace (Z.to_nat (pop_keep + 1 - 0)) with (S (Z.to_nat pop_keep)) by lia.
    reflexivity. }
  split.
  - exists (map h (seq 0 (S (Z.to_nat pop_keep)))).
    split; [|split; [|split; [|split]]].
    + rewrite <- Hent, map_map. reflexivity.
    + rewrite length_map, length_seq. lia.
    + simpl. unfold h. simpl. field.
      intros E. rewrite E in Hpk. inversion Hpk.
    + apply sorted_map_seq. intros k. unfold h.
      unfold Qdiv. apply Qmult_lt_compat_r.
      * apply Qinv_lt_0_compat. exact Hpk.
      * rewrite <- Zlt_Qlt. lia.
    + rewrite last_map_seq. unfold h.
      replace (0 + Z.of_nat (0 + Z.to_nat pop_keep)) with pop_keep by lia.
      field. intros E. rewrite E in Hpk. inversion Hpk.
  - intros k Hk. rewrite nth_error_map.
    rewrite arange_nth_error by lia.
    cbn [option_map].
    replace (0 + Z.of_nat (Z.to_nat k)) with k by lia. reflexivity.
Qed.

Lemma random_table_witness :
  exists table,
    get_selection_probabilities "random" 4 = Some table
    /\ cumulative_table 4 table
    /\ forall k, 0 <= k <= 4 ->
                 nth_error table (Z.to_nat k)
                 = Some (Some (inject_Z k / inject_Z 4)%Q).
Proof. apply (random_table 4). lia. Defined.

(** ** The bucket that interval selection returns *)

Lemma first_false_spec (bs : list bool) (j : Z) :
  Np.first_false bs = Some j ->
  nth (Z.to_nat j) bs true = false
  /\ forall k, (k < Z.to_nat j)%nat -> nth k bs false = true.
Proof.
  revert j. induction bs as [|b t IH]; intros j; simpl; [discriminate|].
  destruct b.
  - destruct (Np.first_false t) as [i|] eqn:E; simpl; [|discriminate].
    intros H. inversion H; subst; clear H.
    destruct (IH i eq_refl) as [Hi Hk].
    pose proof (first_false_bound t i E) as Hb.
    replace (Z.to_nat (Z.succ i)) with (S (Z.to_nat i)) by lia.
    split; [exact Hi|].
    intros [|k] Hlt; [reflexivity|]. apply Hk. lia.
  - intros H. inversion H; subst. split; [reflexivity|].
    intros k Hk. simpl in Hk. lia.
Qed.

Lemma last_nth {A : Type} (l : list A) (d : A) :
  last l d = nth (length l - 1) l d.
Proof.
  induction l as [|x t IH]; [reflexivity|].
  destruct t as [|y t']; [reflexivity|].
  change (last (x :: y :: t') d) with (last (y :: t') d).
  rewrite IH. simpl. rewrite Nat.sub_0_r. reflexivity.
Qed.

(** X3.  On a table of finite entries whose first entry is 0, a draw above
    0 and not above the last entry is mapped to the bucket that holds it:
    the index [i] returned is a position among the buckets, every entry up
    to [i] is below the draw, and entry [i + 1] is not. *)
Theorem interval_selection_bucket (entries : list Q) (value : Q)
    (Hhd : (hd 1 entries == 0)%Q)
    (Hpos : (0 < value)%Q)
    (Hlast : (value <= last entries 0)%Q) :
  exists i,
    interval_selection (Some (map Some entries)) value = Ok i
    /\ 0 <= i < Z.of_nat (length entries) - 1
    /\ (forall k, (k <= Z.to_nat i)%nat -> (nth k entries 0 < value)%Q)
    /\ (value <= nth (S (Z.to_nat i)) entries 0)%Q.
Proof.
  set (bs := map (float_gt value) (map Some entries)).
  assert (Hbs : forall k d, nth k bs d
                            = if (k <? length entries)%nat
                              then negb (Qle_bool value (nth k entries 0%Q))
                              else d).
  { intros k d. unfold bs. rewrite map_map.
    destruct (Nat.ltb_spec k (length entries)) as [Hk|Hk].
    - rewrite (nth_indep _ d (float_gt value (Some 0%Q)))
        by (rewrite length_map; exact Hk).
      rewrite (map_nth (fun q => float_gt value (Some q))). reflexivity.
    - apply nth_overflow. rewrite length_map. exact Hk. }
  assert (Hne : entries <> []).
  { intros E. rewrite E in Hlast. simpl in Hlast. lra. }
  assert (Hlen : (0 < length entries)%nat).
  { destruct entries; [congruence | simpl; lia]. }
  destruct (first_false_exists bs) as (j & Hj).
  { unfold bs. rewrite map_map. apply in_map_iff.
    exists (last entries 0%Q). split.
    - simpl. apply negb_false_iff. apply Qle_bool_iff. exact Hlast.
    - rewrite last_nth. apply nth_In. lia. }
  pose proof (first_false_bound bs j Hj) as Hb.
  assert (Hbl : length bs = length entries)
    by (unfold bs; rewrite !length_map; reflexivity).
  rewrite Hbl in Hb.
  destruct (first_false_spec bs j Hj) as [Hfalse Htrue].
  assert (H0 : nth 0 bs false = true).
  { rewrite Hbs. destruct (Nat.ltb_spec 0 (length entries)); [|lia].
    apply negb_true_iff. destruct (Qle_bool value (nth 0 entries 0%Q)) eqn:E;
      [|reflexivity].
    apply Qle_bool_iff in E. destruct entries as [|q r]; [congruence|].
    simpl in E, Hhd. lra. }
  assert (Hj1 : 1 <= j).
  { destruct (Z.eq_dec j 0) as [->|]; [|lia].
    simpl in Hfalse. destruct bs as [|b r]; [discriminate|].
    simpl in Hfalse, H0. congruence. }
  exists (j - 1). split; [|split; [|split]].
  - unfold interval_selection, Np.argmin_bool. fold bs. rewrite Hj.
    reflexivity.
  - lia.
  - intros k Hk. specialize (Htrue k ltac:(lia)).
    rewrite Hbs in Htrue.
    destruct (Nat.ltb_spec k (length entries)); [|lia].
    apply negb_true_iff in Htrue.
    destruct (Qlt_le_dec (nth k entries 0%Q) value) as [L|L]; [exact L|].
    apply Qle_bool_iff in L. congruence.
  - replace (S (Z.to_nat (j - 1))) with (Z.to_nat j) by lia.
    rewrite Hbs in Hfalse.
    destruct (Nat.ltb_spec (Z.to_nat j) (length entries)); [|lia].
    apply negb_false_iff in Hfalse. apply Qle_bool_iff. exact Hfalse.
Qed.

Lemma interval_selection_bucket_witness :
  exists i,
    interval_selection (Some (map Some [0; 1 # 2; 5 # 6; 1]%Q)) (7 # 10)
    = Ok i
    /\ 0 <= i < Z.of_nat (length [0; 1 # 2; 5 # 6; 1]%Q) - 1
    /\ (forall k, (k <= Z.to_nat i)%nat ->
                  (nth k [0; 1 # 2; 5 # 6; 1] 0 < 7 # 10)%Q)
    /\ (7 # 10 <= nth (S (Z.to_nat i)) [0; 1 # 2; 5 # 6; 1] 0)%Q.
Proof.
  apply (interval_selection_bucket [0; 1 # 2; 5 # 6; 1]%Q (7 # 10)).
  - reflexivity.
  - reflexivity.
  - discriminate.
Defined.

(** ** Pairing two by two *)

Lemma every_other_from_pair (l : list Z) :
  forall k, Nat.even k = true ->
  (map fst (filter (fun p : Z * nat => Nat.even (snd p))
              (combine l (seq k (length l))))
   = alternate l)
  /\ forall x,
       map fst (filter (fun p : Z * nat => Nat.even (snd p))
                  (combine (x :: l) (seq k (S (length l)))))
       = alternate (x :: l).
Proof.
  induction l as [|y r IH]; intros k Hk.
  - split; [reflexivity|]. intros x. simpl. rewrite Hk. reflexivity.
  - destruct (IH k Hk) as [IH1 IH2]. split; [apply IH2|].
    intros x. cbn [length seq combine filter snd map fst alternate].
    rewrite Hk. rewrite Nat.even_succ. unfold Nat.odd. rewrite Hk.
    cbn [negb map fst]. f_equal.
    apply (IH (S (S k))). exact Hk.
Qed.

Lemma every_other_alternate (l : list Z) : every_other l = alternate l.
Proof. apply (every_other_from_pair l 0). reflexivity. Qed.

Lemma alternate_cons (x : Z) (l : list Z) :
  alternate (x :: l) = x :: alternate (tl l).
Proof. destruct l; reflexivity. Qed.

Lemma alternate_map_seq (f : nat -> Z) (n a : nat) :
  alternate (map f (seq a (2 * n))) = map (fun i => f (a + 2 * i)%nat) (seq 0 n)
  /\ alternate (tl (map f (seq a (2 * n))))
     = map (fun i => f (a + 2 * i + 1)%nat) (seq 0 n).
Proof.
  revert a. induction n as [|n IH]; intros a.
  - split; reflexivity.
  - replace (2 * S n)%nat with (S (S (2 * n))) by lia.
    destruct (IH (S (S a))) as [IH1 IH2].
    cbn [seq map tl]. split.
    + rewrite alternate_cons. cbn [tl]. rewrite IH1.
      f_equal; [f_equal; lia|].
      rewrite <- seq_shift, map_map. apply map_ext. intros i. f_equal. lia.
    + rewrite alternate_cons. rewrite IH2.
      f_equal; [f_equal; lia|].
      rewrite <- seq_shift, map_map. apply map_ext. intros i. f_equal. lia.
Qed.

(** X4.  Under the two_by_two strategy [select_parents] draws nothing and
    leaves the solver as it is: whatever the fitness, the mothers are the
    even indices [0, 2, ...] and the fathers the odd indices [1, 3, ...]
    below [2 * n_matings], [n_matings] of each. *)
Theorem two_by_two_pairs {gene P : Type} (np_exp : Q -> Q)
    (c : config gene P) (s : state gene P) (fitness : list Q)
    (Hstrategy : selection_strategy c = "two_by_two"%string) :
  select_parents np_exp c s fitness
  = Ok (Some (map (fun i => 2 * i) (Np.arange 0 (n_matings c))),
        Some (map (fun i => 2 * i + 1) (Np.arange 0 (n_matings c))),
        s).
Proof.
  unfold select_parents. rewrite Hstrategy.
  change (String.eqb "two_by_two" "roulette_wheel") with false.
  change (String.eqb "two_by_two" "random") with false.
  change (String.eqb "two_by_two" "boltzmann") with false.
  change (String.eqb "two_by_two" "two_by_two") with true.
  cbv iota. cbn [orb].
  set (n := Z.to_nat (n_matings c)).
  assert (Har : Np.arange 0 (n_matings c * 2)
                = map (fun k => 0 + Z.of_nat k) (seq 0 (2 * n))).
  { unfold Np.arange. f_equal. f_equal. lia. }
  rewrite Har, !every_other_alternate.
  destruct (alternate_map_seq (fun k => 0 + Z.of_nat k) n 0) as [Hma Hpa].
  rewrite Hma, Hpa. rewrite !length_map, !length_seq, Nat.ltb_irrefl.
  unfold Np.arange. rewrite !map_map.
  replace (Z.to_nat (n_matings c - 0)) with n by lia.
  assert (E1 : map (fun x : nat => 2 * (0 + Z.of_nat x)) (seq 0 n)
               = map (fun i : nat => 0 + Z.of_nat (0 + 2 * i)) (seq 0 n))
    by (apply map_ext; intros i; lia).
  assert (E2 : map (fun x : nat => 2 * (0 + Z.of_nat x) + 1) (seq 0 n)
               = map (fun i : nat => 0 + Z.of_nat (0 + 2 * i + 1)) (seq 0 n))
    by (apply map_ext; intros i; lia).
  rewrite E1, E2. reflexivity.
Qed.

Lemma two_by_two_pairs_witness :
  selection_strategy (fst RunPairs.built) = "two_by_two"%string
  /\ n_matings (fst RunPairs.built) = 3
  /\ select_parents Demo.np_exp (fst RunPairs.built) (snd RunPairs.built)
       RunPairs.fitness
     = Ok (Some (map (fun i => 2 * i)
                   (Np.arange 0 (n_matings (fst RunPairs.built)))),
           Some (map (fun i => 2 * i + 1)
                   (Np.arange 0 (n_matings (fst RunPairs.built)))),
           snd RunPairs.built).
Proof.
  assert (Hs : selection_strategy (fst RunPairs.built) = "two_by_two"%string)
    by (vm_compute; reflexivity).
  split; [exact Hs|]. split; [vm_compute; reflexivity|].
  exact (two_by_two_pairs Demo.np_exp (fst RunPairs.built)
           (snd RunPairs.built) RunPairs.fitness Hs).
Defined.

(** ** Tournaments *)

Lemma argmax_from_spec (suffix : list Q) :
  forall (prefix : list Q) (best : Q) (bi : nat),
    (bi < length prefix)%nat ->
    nth bi prefix 0%Q = best ->
    (forall j, (j < length prefix)%nat -> (nth j prefix 0 <= best)%Q) ->
    (forall j, (j < bi)%nat -> (nth j prefix 0 < best)%Q) ->
    exists r,
      Np.argmax_from best (Z.of_nat bi) (Z.of_nat (length prefix)) suffix
      = Z.of_nat r
      /\ (r < length (prefix ++ suffix))%nat
      /\ (forall j, (j < length (prefix ++ suffix))%nat ->
                    (nth j (prefix ++ suffix) 0 <= nth r (prefix ++ suffix) 0)%Q)
      /\ (forall j, (j < r)%nat ->
                    (nth j (prefix ++ suffix) 0 < nth r (prefix ++ suffix) 0)%Q).
Proof.
  induction suffix as [|x t IH]; intros prefix best bi Hbi Hbest Hle Hlt.
  - exists bi. rewrite app_nil_r. simpl. rewrite Hbest. auto.
  - assert (Happ : prefix ++ x :: t = (prefix ++ [x]) ++ t)
      by (rewrite <- app_assoc; reflexivity).
    assert (Hlen : Z.of_nat (length prefix) + 1
                   = Z.of_nat (length (prefix ++ [x])))
      by (rewrite length_app; simpl; lia).
    assert (Hx : nth (length prefix) (prefix ++ [x]) 0%Q = x).
    { rewrite app_nth2 by lia. rewrite Nat.sub_diag. reflexivity. }
    cbn [Np.argmax_from]. rewrite Happ, Hlen.
    destruct (Qle_bool x best) eqn:E.
    + apply Qle_bool_iff in E. apply IH.
      * rewrite length_app. simpl. lia.
      * rewrite app_nth1 by lia. exact Hbest.
      * intros j Hj. rewrite length_app in Hj. simpl in Hj.
        destruct (Nat.eq_dec j (length prefix)) as [->|Hn].
        -- rewrite Hx. exact E.
        -- rewrite app_nth1 by lia. apply Hle. lia.
      * intros j Hj. rewrite app_nth1 by lia. apply Hlt. exact Hj.
    + assert (Hgt : (best < x)%Q).
      { destruct (Qlt_le_dec best x) as [L|L]; [exact L|].
        apply Qle_bool_iff in L. congruence. }
      apply IH.
      * rewrite length_app. simpl. lia.
      * exact Hx.
      * intros j Hj. rewrite length_app in Hj. simpl in Hj.
        destruct (Nat.eq_dec j (length prefix)) as [->|Hn].
        -- rewrite Hx. apply Qle_refl.
        -- rewrite app_nth1 by lia. specialize (Hle j ltac:(lia)). lra.
      * intros j Hj. rewrite app_nth1 by lia. specialize (Hle j Hj). lra.
Qed.

(** [np.argmax] returns the first position of a largest entry. *)
Lemma argmax_spec (l : list Q) :
  l <> [] ->
  exists r,
    Np.argmax l = Z.of_nat r
    /\ (r < length l)%nat
    /\ (forall j, (j < length l)%nat -> (nth j l 0 <= nth r l 0)%Q)
    /\ (forall j, (j < r)%nat -> (nth j l 0 < nth r l 0)%Q).
Proof.
  destruct l as [|x t]; [congruence|]. intros _.
  apply (argmax_from_spec t [x] x 0%nat).
  - simpl. lia.
  - reflexivity.
  - intros j Hj. simpl in Hj. replace j with 0%nat by lia. apply Qle_refl.
  - intros j Hj. lia.
Qed.

Lemma Forall2_nth_error {A B : Type} (R : A -> B -> Prop) l1 l2 j a :
  Forall2 R l1 l2 -> nth_error l1 j = Some a ->
  exists b, nth_error l2 j = Some b /\ R a b.
Proof.
  intros H. revert j. induction H as [|x y t1 t2 Hxy _ IH]; intros [|j] E;
    simpl in *; try discriminate.
  - inversion E; subst. eauto.
  - apply IH. exact E.
Qed.

(** X5.  When [tournament_selection_helper] returns, the winner is one of
    the sampled individuals, no sampled individual has a higher fitness, and
    every individual sampled before the winner has a strictly lower one: ties
    go to the first sampled. *)
Theorem tournament_winner (selected_individuals : list Z) (fitness : list Q)
    (winner : Z)
    (H : tournament_selection_helper selected_individuals fitness
         = Ok winner) :
  exists (r : nat) (fw : Q),
    nth_error selected_individuals r = Some winner
    /\ Np.getitem fitness winner = Ok fw
    /\ (forall j s fs, nth_error selected_individuals j = Some s ->
                       Np.getitem fitness s = Ok fs -> (fs <= fw)%Q)
    /\ (forall j s fs, (j < r)%nat ->
                       nth_error selected_individuals j = Some s ->
                       Np.getitem fitness s = Ok fs -> (fs < fw)%Q).
Proof.
  unfold tournament_selection_helper in H.
  inv_bind H. rename a into fs_list.
  apply take_Forall2 in E.
  assert (Hne : fs_list <> []).
  { intros ->. inversion E; subst. rewrite getitem_nil in H. discriminate. }
  destruct (argmax_spec fs_list Hne) as (r & Hr & Hlen & Hmax & Hfirst).
  rewrite Hr in H. apply getitem_nonneg in H; [|lia].
  rewrite Nat2Z.id in H.
  destruct (Forall2_nth_error _ _ _ _ _ E H) as (fw & Hfw & Hget).
  assert (Hnth : forall j s fs,
             nth_error selected_individuals j = Some s ->
             Np.getitem fitness s = Ok fs ->
             (j < length fs_list)%nat /\ nth j fs_list 0%Q = fs).
  { intros j s fs Hj Hs.
    destruct (Forall2_nth_error _ _ _ _ _ E Hj) as (b & Hb & Hgb).
    rewrite Hs in Hgb. inversion Hgb; subst b. split.
    - apply nth_error_Some. congruence.
    - apply nth_error_nth. exact Hb. }
  destruct (Hnth r winner fw H Hget) as [_ Hrw].
  exists r, fw. repeat split; auto.
  - intros j s fs Hj Hs. destruct (Hnth j s fs Hj Hs) as [Hjl <-].
    rewrite <- Hrw. apply Hmax. exact Hjl.
  - intros j s fs Hjr Hj Hs. destruct (Hnth j s fs Hj Hs) as [Hjl <-].
    rewrite <- Hrw. apply Hfirst. exact Hjr.
Qed.

Lemma tournament_winner_witness :
  tournament_selection_helper [2; 1; 3] [1; 5; 3; 5]%Q = Ok 1
  /\ exists (r : nat) (fw : Q),
       nth_error [2; 1; 3] r = Some 1
       /\ Np.getitem [1; 5; 3; 5]%Q 1 = Ok fw
       /\ (forall j s fs, nth_error [2; 1; 3] j = Some s ->
                          Np.getitem [1; 5; 3; 5]%Q s = Ok fs -> (fs <= fw)%Q)
       /\ (forall j s fs, (j < r)%nat ->
                          nth_error [2; 1; 3] j = Some s ->
                          Np.getitem [1; 5; 3; 5]%Q s = Ok fs -> (fs < fw)%Q).
Proof.
  assert (H : tournament_selection_helper [2; 1; 3] [1; 5; 3; 5]%Q = Ok 1)
    by reflexivity.
  split; [exact H|]. exact (tournament_winner _ _ _ H).
Defined.

Lemma tournament_helper_In (selected_individuals : list Z) (fitness : list Q)
    (winner : Z) :
  tournament_selection_helper selected_individuals fitness = Ok winner ->
  In winner selected_individuals.
Proof.
  unfold tournament_selection_helper. intros H.
  inv_bind H. eapply getitem_In. exact H.
Qed.

Lemma chunks3_length (n : nat) :
  forall l, length l = (3 * n)%nat -> length (chunks3 l) = n.
Proof.
  induction n as [|n IH]; intros l Hl.
  - destruct l; [reflexivity | simpl in Hl; lia].
  - destruct l as [|a [|b [|c t]]]; simpl in Hl; try lia.
    simpl. f_equal. apply IH. lia.
Qed.

Lemma chunks3_In_bounded (n : nat) :
  forall l chunk x, (length l <= n)%nat ->
                    In chunk (chunks3 l) -> In x chunk -> In x l.
Proof.
  induction n as [|n IH]; intros l chunk x Hl Hc Hx.
  - destruct l; [contradiction | simpl in Hl; lia].
  - destruct l as [|a [|b [|c t]]]; simpl in Hc; try contradiction.
    destruct Hc as [<-|Hc].
    + simpl in Hx. simpl. tauto.
    + do 3 right. apply (IH t chunk x); auto. simpl in Hl. lia.
Qed.

Lemma map_result_Forall2 {A B : Type} (f : A -> result B) l ys :
  map_result f l = Ok ys -> Forall2 (fun x y => f x = Ok y) l ys.
Proof.
  revert ys. induction l as [|x t IH]; intros ys H; simpl in H.
  - inversion H. constructor.
  - inv_bind H. inv_bind H. inversion H; subst. constructor; auto.
Qed.

(** X6.  When [tournament_selection] returns, it returns [n_matings]
    winners, each an index in [0, range_max). *)
Theorem tournament_selection_winners {gene P : Type} (c : config gene P)
    (fitness : list Q) (range_max : Z) (g g' : rng) (winners : list Z)
    (H : tournament_selection c fitness range_max g = Ok (winners, g')) :
  Z.of_nat (length winners) = n_matings c
  /\ Forall (fun w => 0 <= w < range_max) winners.
Proof.
  unfold tournament_selection in H.
  destruct (Z.ltb_spec (n_matings c) 0) as [Hneg|Hpos]; [discriminate|].
  inv_bind H. destruct a as [draws g1]. cbn beta iota in H.
  inv_bind H. inversion H; subst; clear H.
  apply choice_spec in E. destruct E as (_ & Hlen & Hin & _).
  apply map_result_Forall2 in E0.
  split.
  - rewrite <- (Forall2_length E0).
    rewrite (chunks3_length (Z.to_nat (n_matings c))); lia.
  - apply Forall_forall. intros w Hw.
    apply In_nth_error in Hw. destruct Hw as (j & Hj).
    assert (Hchunk : exists chunk, In chunk (chunks3 draws)
                                   /\ tournament_selection_helper chunk fitness
                                      = Ok w).
    { clear - E0 Hj. revert j Hj.
      induction E0 as [|x y t1 t2 Hxy _ IH]; intros [|j] Hj; simpl in Hj;
        try discriminate.
      - inversion Hj; subst. exists x. split; [left; reflexivity | exact Hxy].
      - destruct (IH j Hj) as (ch & Hin & Hch). exists ch. split; auto.
        right. exact Hin. }
    destruct Hchunk as (chunk & Hc & Hwin).
    apply tournament_helper_In in Hwin. rename Hwin into Hr.
    pose proof (chunks3_In_bounded (length draws) draws chunk w
                  ltac:(lia) Hc Hr) as Hd.
    rewrite Forall_forall in Hin. apply Hin in Hd.
    apply arange_In in Hd. lia.
Qed.

Lemma tournament_selection_winners_witness :
  tournament_selection (fst RunPairs.built_tournament) RunPairs.fitness
    (n_matings (fst RunPairs.built_tournament) * 2)
    (np_random (snd RunPairs.built_tournament))
  = Ok (fst RunPairs.winners, snd RunPairs.winners)
  /\ Z.of_nat (length (fst RunPairs.winners)) = 3
  /\ Forall (fun w => 0 <= w < 6) (fst RunPairs.winners).
Proof.
  assert (H : tournament_selection (fst RunPairs.built_tournament)
                RunPairs.fitness
                (n_matings (fst RunPairs.built_tournament) * 2)
                (np_random (snd RunPairs.built_tournament))
              = Ok (fst RunPairs.winners, snd RunPairs.winners))
    by (vm_compute; reflexivity).
  split; [exact H|].
  exact (tournament_selection_winners _ _ _ _ _ _ H).
Defined.

(** ** The best fitness never goes down *)

Lemma map_fst_combine {A B : Type} (l : list A) (l' : list B) :
  length l = length l' -> map fst (combine l l') = l.
Proof.
  revert l'; induction l as [|x t IH]; intros [|y t']; simpl; intros H;
    try discriminate; auto.
  f_equal. apply IH. lia.
Qed.

(** Whenever [sort_by_fitness] returns, the fitness it returns is the
    fitness it was given, rearranged in non-increasing order. *)
Lemma sort_by_fitness_sorted {C P : Type} (uninit : P) (fit fit' : list Q)
    (pop pop' : list C) (pf pf' : list P) :
  sort_by_fitness uninit fit pop pf = Ok (fit', pop', pf') ->
  descending fit' /\ Permutation fit' fit.
Proof.
  unfold sort_by_fitness, sort_by_fitness_with. intros H.
  inv_bind H. inv_bind H. inv_bind H. inversion H; subst; clear H.
  pose proof (take_rev _ _ _ (take_argsort fit)) as Hfit.
  rewrite Hfit in E0. inversion E0; subst; clear E0.
  split; [apply sorted_keys_descending|].
  rewrite <- Permutation_rev.
  rewrite (Permutation_map fst (sort_by_key_perm (Np.enumerate fit))).
  unfold Np.enumerate. rewrite map_fst_combine; auto.
  rewrite arange_length. lia.
Qed.

Lemma descending_head (h : Q) (t : list Q) (x : Q) :
  descending (h :: t) -> In x (h :: t) -> (x <= h)%Q.
Proof.
  intros Hd [->|Hx]; [apply Qle_refl|].
  inversion Hd as [|? ? _ Hall]; subst.
  rewrite Forall_forall in Hall. apply Hall. exact Hx.
Qed.

Section BestFitness.
Variable gene : Type.
Variable gene_eqb : gene -> gene -> bool.
Variable P : Type.
Variable scalar_value : P -> Q.
Variable uninit : P.
Variable np_exp : Q -> Q.
Variable initialize_population : rng -> list (chromosome gene) * rng.
Variable refill_population : Z -> rng -> list (chromosome gene) * rng.
Variable create_offspring :
  chromosome gene -> chromosome gene -> option (list Z) -> offspring_number ->
  chromosome gene.
Variable mutate_genes :
  list (chromosome gene) -> list Z -> list Z -> rng ->
  list (chromosome gene) * rng.

Local Abbreviation generation' :=
  (generation gene_eqb scalar_value uninit np_exp refill_population
     create_offspring mutate_genes).
Local Abbreviation generations' :=
  (generations gene_eqb scalar_value uninit np_exp refill_population
     create_offspring mutate_genes).
Local Abbreviation solve' :=
  (solve gene_eqb scalar_value uninit np_exp initialize_population
     refill_population create_offspring mutate_genes).

Implicit Types (c : config gene P) (s : state gene P) (v : locals gene P).

Lemma descending_first (l : list Q) (h x : Q) :
  descending l -> Np.getitem l 0 = Ok h -> In x l -> (x <= h)%Q.
Proof.
  intros Hd Hh Hx.
  destruct l as [|h' t]; [rewrite getitem_nil in Hh; discriminate|].
  assert (Hh' : Np.getitem (h' :: t) 0 = Ok h') by reflexivity.
  assert (h' = h) by congruence. subst h'.
  exact (descending_head h t x Hd Hx).
Qed.

(** The fitness array a generation ends with is sorted and still holds the
    first fitness value the generation started with. *)
Lemma generation_fitness_sorted c v s v' s' (f0 : Q) :
  generation' c v s = Ok (v', s') ->
  Np.getitem (fitness v) 0 = Ok f0 ->
  descending (fitness v') /\ In f0 (fitness v').
Proof.
  intros H H0.
  unfold generation in H.
  inv_bind H. rename a into f0'.
  assert (f0' = f0) by congruence. subst f0'.
  inv_bind H. destruct a as [[ma pa] s1]. simpl in H.
  inv_bind H. destruct a as [xp g1]. simpl in H.
  inv_bind H. rename a into population1.
  inv_bind H. destruct a as [population2 g2]. simpl in H.
  inv_bind H. destruct a as [population3 g3]. simpl in H.
  destruct (calculate_fitness scalar_value c _) as [rest_fitness rest_pf].
  inv_bind H. rename a into n_rest.
  inv_bind H. rename a into printable1.
  inv_bind H. destruct a as [[fitness2 population4] printable2]. simpl in H.
  apply sort_by_fitness_sorted in E7. destruct E7 as [Hdesc Hperm].
  inv_bind H. inv_bind H. inv_bind H.
  inversion H; subst; clear H. simpl in *.
  split; [exact Hdesc|].
  apply (Permutation_in _ (Permutation_sym Hperm)). left. reflexivity.
Qed.

(** X7.  A generation never lowers the best fitness: the fitness of row 0
    is carried over unevaluated, so whatever the offspring, the mutations
    and the refill do, the sorted fitness after the generation starts with a
    value at least as large as the one before, and it is in non-increasing
    order. *)
Theorem generation_best_monotone c v s v' s' (f0 : Q)
    (H : generation' c v s = Ok (v', s'))
    (H0 : Np.getitem (fitness v) 0 = Ok f0) :
  descending (fitness v')
  /\ Np.getitem (fitness v') 0 = Ok (best_fitness_ s')
  /\ (f0 <= best_fitness_ s')%Q.
Proof.
  destruct (generation_fitness_sorted c v s v' s' f0 H H0) as [Hdesc Hin].
  apply generation_facts in H.
  destruct H as (_ & _ & _ & _ & Hbest & _).
  split; [exact Hdesc|]. split; [exact Hbest|].
  exact (descending_first _ _ _ Hdesc Hbest Hin).
Qed.

Lemma generations_best_monotone c niter k v s v' s' (f0 : Q) :
  generations' c niter k v s = Ok (v', s') ->
  Np.getitem (fitness v) 0 = Ok f0 ->
  exists xs,
    max_fitness v' = max_fitness v ++ xs
    /\ StronglySorted Qle xs
    /\ Forall (Qle f0) xs
    /\ ((xs = [] /\ v' = v /\ s' = s)
        \/ (Np.getitem (fitness v') 0 = Ok (best_fitness_ s')
            /\ (f0 <= best_fitness_ s')%Q
            /\ Forall (fun x => (x <= best_fitness_ s')%Q) xs)).
Proof.
  revert v s f0. induction k as [|k IH]; intros v s f0 H H0; simpl in H.
  - inversion H; subst. exists []. rewrite app_nil_r.
    split; [reflexivity|]. split; [constructor|]. split; [constructor|].
    left. auto.
  - inv_bind H. destruct a as [v1 s1]. simpl in H.
    pose proof (generation_facts _ _ _ _ _ _ _ _ _ _ _ _ _ _ E)
      as (_ & _ & _ & (f0' & Hf0' & Hx) & _).
    assert (f0' = f0) by congruence. subst f0'.
    destruct (generation_fitness_sorted _ _ _ _ _ _ E H0) as [Hdesc1 Hin1].
    pose proof (generation_facts _ _ _ _ _ _ _ _ _ _ _ _ _ _ E)
      as (_ & _ & _ & _ & Hb1 & _).
    pose proof (descending_first _ _ _ Hdesc1 Hb1 Hin1) as Hle1.
    destruct ((niter <=? gen_n v1) || (max_conv c <? conv v1)).
    + inversion H; subst v' s'; clear H.
      exists [f0]. split; [exact Hx|].
      split; [repeat constructor|].
      split; [repeat constructor; apply Qle_refl|].
      right. split; [exact Hb1|]. split; [exact Hle1|].
      repeat constructor. exact Hle1.
    + destruct (IH _ _ _ H Hb1) as (xs & Hxs & Hsorted & Hall & Hend).
      assert (Hall0 : Forall (Qle f0) xs).
      { eapply Forall_impl; [|exact Hall].
        intros x Hx1. eapply Qle_trans; eassumption. }
      exists (f0 :: xs).
      split; [rewrite Hxs, Hx, <- app_assoc; reflexivity|].
      split; [constructor; assumption|].
      split; [constructor; [apply Qle_refl | exact Hall0]|].
      right. destruct Hend as [(-> & -> & ->)|(Hb & Hle & Hup)].
      * split; [exact Hb1|]. split; [exact Hle1|].
        repeat constructor. exact Hle1.
      * split; [exact Hb|].
        assert (Hf : (f0 <= best_fitness_ s')%Q)
          by (eapply Qle_trans; eassumption).
        split; [exact Hf|]. constructor; assumption.
Qed.

(** X8.  The best-fitness history that one call of [solve] appends to the
    stored one is in non-decreasing order, and none of its entries exceeds
    the best fitness the solver holds when the call returns. *)
Theorem solve_max_history_sorted c niter s s'
    (H : solve' c niter s = Ok s') :
  exists xs,
    max_fitness_ s' = Some (history (max_fitness_ s) ++ xs)
    /\ StronglySorted Qle xs
    /\ Forall (fun x => (x <= best_fitness_ s')%Q) xs.
Proof.
  unfold solve in H. inv_bind H. destruct a as [v' s1]. simpl in H.
  inversion H; subst s'; clear H. cbn [store max_fitness_ best_fitness_].
  unfold solve_locals in E. inv_bind E. destruct a as [v0 s0]. simpl in E.
  pose proof E0 as Hp. apply solve_prepare_facts in Hp.
  destruct Hp as (_ & _ & _ & Hmax & _).
  rewrite <- Hmax.
  destruct (Np.getitem (fitness v0) 0) as [f0|e] eqn:E1.
  - destruct (generations_best_monotone _ _ _ _ _ _ _ _ E E1)
      as (xs & Hxs & Hsorted & _ & Hend).
    exists xs. rewrite Hxs. split; [reflexivity|]. split; [exact Hsorted|].
    destruct Hend as [(-> & _)|(_ & _ & Hup)]; [constructor | exact Hup].
  - destruct (Z.to_nat (budget c niter)) as [|k]; simpl in E.
    + inversion E; subst. exists []. rewrite app_nil_r.
      split; [reflexivity|]. split; constructor.
    + inv_bind E. destruct a as [v1 s2].
      apply generation_facts in E2.
      destruct E2 as (_ & _ & _ & (f0 & Hf0 & _) & _). congruence.
Qed.
End BestFitness.

Lemma generation_best_monotone_witness :
  Demo.generation Run.c (fst (Run.after 2)) (snd (Run.after 2))
  = Ok (fst (Run.next 2), snd (Run.next 2))
  /\ Np.getitem (fitness (fst (Run.after 2))) 0 = Ok 0%Q
  /\ (0 <= best_fitness_ (snd (Run.next 2)))%Q.
Proof.
  assert (H : Demo.generation Run.c (fst (Run.after 2)) (snd (Run.after 2))
              = Ok (fst (Run.next 2), snd (Run.next 2)))
    by (vm_compute; reflexivity).
  assert (H0 : Np.getitem (fitness (fst (Run.after 2))) 0 = Ok 0%Q)
    by (vm_compute; reflexivity).
  split; [exact H|]. split; [exact H0|].
  exact (proj2 (proj2 (generation_best_monotone Demo.gene Z.eqb Demo.P
                         (fun q => q) 0%Q Demo.np_exp
                         (Demo.refill_population (n_genes Run.c))
                         Demo.create_offspring Demo.mutate_genes Run.c
                         (fst (Run.after 2)) (snd (Run.after 2))
                         (fst (Run.next 2)) (snd (Run.next 2)) 0%Q H H0))).
Defined.

Lemma solve_max_history_sorted_witness :
  Demo.solve Run.c (Some 3) (Run.solved 3) = Ok (Run.solved_again 3)
  /\ exists xs,
       max_fitness_ (Run.solved_again 3)
       = Some (history (max_fitness_ (Run.solved 3)) ++ xs)
       /\ StronglySorted Qle xs.
Proof.
  assert (H : Demo.solve Run.c (Some 3) (Run.solved 3)
              = Ok (Run.solved_again 3))
    by (vm_compute; reflexivity).
  split; [exact H|].
  destruct (solve_max_history_sorted Demo.gene Z.eqb Demo.P (fun q => q) 0%Q
              Demo.np_exp
              (Demo.initialize_population (pop_size Run.c) (n_genes Run.c))
              (Demo.refill_population (n_genes Run.c))
              Demo.create_offspring Demo.mutate_genes Run.c
              (Some 3) (Run.solved 3) (Run.solved_again 3) H)
    as (xs & Hxs & Hsorted & _).
  exists xs. split; [exact Hxs | exact Hsorted].
Defined.

(** ** The offspring loop leaves the kept rows alone *)

Lemma arange2_In (hi k : Z) :
  In k (Np.arange2 0 hi) -> 0 <= k <= hi - 1.
Proof.
  unfold Np.arange2. intros H.
  apply in_map_iff in H. destruct H as (m & <- & Hm).
  apply in_seq in Hm.
  pose proof (Z.mul_div_le (hi - 0 + 1) 2 ltac:(lia)) as Hdiv.
  revert Hm Hdiv. generalize ((hi - 0 + 1) / 2). intros q Hm Hdiv.
  lia.
Qed.

Lemma normalize_index_neg (n : nat) (i : Z) (j : nat) :
  i < 0 -> Np.normalize_index n i = Some j -> Z.of_nat j = i + Z.of_nat n.
Proof.
  intros Hi. unfold Np.normalize_index.
  destruct (Z.ltb_spec i 0); try lia.
  destruct ((0 <=? i + Z.of_nat n) && (i + Z.of_nat n <? Z.of_nat n)) eqn:E;
    try discriminate.
  apply andb_true_iff in E. destruct E as [E1 E2].
  apply Z.leb_le in E1. intros H'. inversion H'. lia.
Qed.

Lemma setitem_from_end {A : Type} (a a' : list A) (k : Z) (x : A) (j : nat) :
  0 <= k ->
  Np.setitem a (-1 - k) x = Ok a' ->
  Z.of_nat j < Z.of_nat (length a) - 1 - k ->
  nth_error a' j = nth_error a j.
Proof.
  intros Hk H Hj. unfold Np.setitem in H.
  destruct (Np.normalize_index (length a) (-1 - k)) as [p|] eqn:E;
    try discriminate.
  inversion H; subst a'; clear H.
  apply normalize_index_neg in E; [|lia].
  apply nth_error_update_neq. lia.
Qed.

Section Offspring.
Context {gene : Type}.
Variable create_offspring :
  chromosome gene -> chromosome gene -> option (list Z) -> offspring_number ->
  chromosome gene.

(** X9.  The offspring loop never writes a kept row: on a population of
    [pop_size] rows, whatever the parents and the crossover points are, the
    rows at positions below [pop_keep] come out of the loop as they went
    in. *)
Theorem offspring_keeps_elite (pop_size pop_keep : Z) (ma pa : option (list Z))
    (xp : list (option (list Z))) (idx : list Z)
    (population population' : list (chromosome gene))
    (Hrows : Z.of_nat (length population) = pop_size)
    (H : fold_left
           (offspring_step create_offspring ma pa
              (Np.arange2 0 (pop_size - pop_keep - 1)) xp)
           idx (Ok population)
         = Ok population') :
  length population' = length population
  /\ forall j : nat, Z.of_nat j < pop_keep ->
                     nth_error population' j = nth_error population j.
Proof.
  apply (fold_result_inv _
           (fun p => length p = length population
                     /\ forall j : nat, Z.of_nat j < pop_keep ->
                          nth_error p j = nth_error population j)) in H.
  - destruct H as (a & Ha & Hi). inversion Ha; subst a. apply Hi. auto.
  - clear H. intros acc i a' H. unfold offspring_step in H.
    inv_bind H. rename a into p0. exists p0. split; auto.
    do 9 inv_bind H.
    match goal with
    | E : Np.getitem (Np.arange2 _ _) _ = Ok ?k |- _ =>
        apply getitem_In in E; apply arange2_In in E; rename E into Hk
    end.
    match goal with
    | E : Np.setitem p0 _ _ = Ok ?p1 |- _ => rename E into H1
    end.
    intros [Hlen Hkeep].
    pose proof (setitem_length _ _ _ _ H1) as Hl1.
    pose proof (setitem_length _ _ _ _ H) as Hl2.
    split; [congruence|].
    intros j Hj. rewrite <- (Hkeep j Hj).
    match type of H with
    | Np.setitem ?p1 (-1 - ?k - 1) ?x = Ok _ =>
        replace (-1 - k - 1) with (-1 - (k + 1)) in H by lia;
        rewrite (setitem_from_end p1 a' (k + 1) x j) by (try exact H; lia);
        eapply (setitem_from_end p0 p1 k); [lia | exact H1 | lia]
    end.
Qed.
End Offspring.

Lemma offspring_keeps_elite_witness :
  fold_left
    (offspring_step Demo.create_offspring (Some [0; 2; 4]) (Some [1; 3; 5])
       (Np.arange2 0 (12 - 6 - 1)) [None; None; None])
    (Np.arange 0 3) (Ok RunElite.population)
  = Ok RunElite.offspring
  /\ length RunElite.offspring = length RunElite.population
  /\ forall j : nat, Z.of_nat j < 6 ->
                     nth_error RunElite.offspring j
                     = nth_error RunElite.population j.
Proof.
  assert (H : fold_left
                (offspring_step Demo.create_offspring (Some [0; 2; 4])
                   (Some [1; 3; 5]) (Np.arange2 0 (12 - 6 - 1))
                   [None; None; None])
                (Np.arange 0 3) (Ok RunElite.population)
              = Ok RunElite.offspring)
    by (vm_compute; reflexivity).
  split; [exact H|].
  assert (Hrows : Z.of_nat (length RunElite.population) = 12) by reflexivity.
  exact (offspring_keeps_elite Demo.create_offspring 12 6 (Some [0; 2; 4])
           (Some [1; 3; 5]) [None; None; None] (Np.arange 0 3)
           RunElite.population RunElite.offspring Hrows H).
Defined.

(** ** What construction fixes about the selection sizes *)

(** X10.  A solver that is constructed has at least two rows and keeps at
    least two: [pop_keep] is the larger of 2 and the integer part of the
    binary64 product of the selection rate and [pop_size].  When it keeps
    no more rows than it has, the number of matings is not negative, and
    the rows kept together with two children per mating fit into the
    population, with at most one row to spare; when it keeps more rows
    than it has, the number of matings is negative. *)
Theorem init_selection_sizes {gene P : Type} (np_random_seed : Z -> rng)
    (cls_fitness_function cls_hashable_fitness_function
     : option (chromosome gene -> P))
    (a : init_args gene P) (g0 : rng) (c : config gene P) (s0 : state gene P)
    (H : init np_random_seed cls_fitness_function
           cls_hashable_fitness_function a g0 = Ok (c, s0)) :
  2 <= pop_size c
  /\ 2 <= pop_keep c
  /\ (exists k0, get_pop_keep (selection_rate gene P c) (pop_size c) = Ok k0
                 /\ pop_keep c = Z.max 2 k0)
  /\ n_matings c = (pop_size c - pop_keep c) / 2
  /\ (pop_keep c <= pop_size c ->
      0 <= n_matings c
      /\ pop_keep c + 2 * n_matings c <= pop_size c
         <= pop_keep c + 2 * n_matings c + 1)
  /\ (pop_size c < pop_keep c -> n_matings c < 0).
Proof.
  apply init_inv in H.
  destruct H as (f & allowed1 & k0 & _ & _ & Ek & _ & Hp & _ & _ & Hr & _
                 & Hk & Hm & Hsize).
  split; [exact Hsize|]. split; [lia|].
  split; [exists k0; rewrite Hr, Hp; auto|].
  split; [exact Hm|].
  rewrite Hm. clear Hm Hk Ek Hp Hr.
  pose proof (Z.mul_div_le (pop_size c - pop_keep c) 2 ltac:(lia)) as Hdiv.
  pose proof (Z.mod_pos_bound (pop_size c - pop_keep c) 2 ltac:(lia)) as Hmod.
  pose proof (Z.div_mod (pop_size c - pop_keep c) 2 ltac:(lia)) as Hdm.
  revert Hdiv Hmod Hdm.
  generalize ((pop_size c - pop_keep c) / 2)
             ((pop_size c - pop_keep c) mod 2).
  intros q r Hdiv Hmod Hdm. split; intros Hle; lia.
Qed.

Lemma init_selection_sizes_witness :
  Demo.init (Demo.args 12 1 "two_by_two" (1 # 2) false ExcludedNone)
    (Demo.replay [])
  = Ok (fst RunPairs.built, snd RunPairs.built)
  /\ pop_keep (fst RunPairs.built) = 6
  /\ n_matings (fst RunPairs.built) = 3
  /\ pop_keep (fst RunPairs.built) + 2 * n_matings (fst RunPairs.built)
     <= pop_size (fst RunPairs.built).
Proof.
  assert (H : Demo.init (Demo.args 12 1 "two_by_two" (1 # 2) false ExcludedNone)
                (Demo.replay [])
              = Ok (fst RunPairs.built, snd RunPairs.built))
    by (vm_compute; reflexivity).
  split; [exact H|].
  split; [reflexivity|]. split; [reflexivity|].
  destruct (init_selection_sizes Demo.np_random_seed None None
              (Demo.args 12 1 "two_by_two" (1 # 2) false ExcludedNone)
              (Demo.replay []) (fst RunPairs.built) (snd RunPairs.built) H)
    as (_ & _ & _ & _ & Hfit & _).
  destruct Hfit as (_ & Hfit & _).
  - vm_compute; discriminate.
  - exact Hfit.
Defined.

(** ** How many generations a call runs *)

Section GenerationCount.
Variable gene : Type.
Variable gene_eqb : gene -> gene -> bool.
Variable P : Type.
Variable scalar_value : P -> Q.
Variable uninit : P.
Variable np_exp : Q -> Q.
Variable initialize_population : rng -> list (chromosome gene) * rng.
Variable refill_population : Z -> rng -> list (chromosome gene) * rng.
Variable create_offspring :
  chromosome gene -> chromosome gene -> option (list Z) -> offspring_number ->
  chromosome gene.
Variable mutate_genes :
  list (chromosome gene) -> list Z -> list Z -> rng ->
  list (chromosome gene) * rng.

Local Abbreviation generations' :=
  (generations gene_eqb scalar_value uninit np_exp refill_population
     create_offspring mutate_genes).
Local Abbreviation solve' :=
  (solve gene_eqb scalar_value uninit np_exp initialize_population
     refill_population create_offspring mutate_genes).

Implicit Types (c : config gene P) (s : state gene P) (v : locals gene P).

Lemma generations_at_least_one c niter k v s v' s' :
  generations' c niter (S k) v s = Ok (v', s') ->
  gen_n v + 1 <= gen_n v'.
Proof.
  cbn [generations]. intros H.
  inv_bind H. destruct a as [v1 s1]. cbn beta iota in H.
  apply generation_facts in E. destruct E as (Hg & _).
  destruct ((niter <=? gen_n v1) || (max_conv c <? conv v1)).
  - inversion H; subst. lia.
  - apply generations_facts in H. destruct H as (_ & Hle & _). lia.
Qed.

(** X11.  The number of generations one call of [solve] adds to the
    generation counter, by its budget [b = min(max_gen, niter)]: none when
    [b <= 0], one when [b = 1], and between one and [b - 1] when [b >= 2];
    so [solve(1)] and [solve(2)] both run one generation. *)
Theorem solve_generations_run c niter s s'
    (H : solve' c niter s = Ok s') :
  (budget c niter <= 0 -> generations_ s' = generations_ s)
  /\ (budget c niter = 1 -> generations_ s' = generations_ s + 1)
  /\ (2 <= budget c niter ->
      generations_ s + 1 <= generations_ s'
      <= generations_ s + budget c niter - 1).
Proof.
  unfold solve in H. inv_bind H. destruct a as [v' s1]. cbn beta iota in H.
  inversion H; subst s'; clear H. cbn [store generations_].
  unfold solve_locals in E. inv_bind E. destruct a as [v0 s0].
  cbn beta iota in E.
  apply solve_prepare_facts in E0.
  destruct E0 as (Hg0 & _ & _ & _ & Hs0 & _).
  rewrite <- Hs0. clear Hs0.
  destruct (Z.to_nat (budget c niter)) as [|k] eqn:Ek.
  - cbn [generations] in E. inversion E; subst.
    repeat split; intros; lia.
  - pose proof (generations_at_least_one _ _ _ _ _ _ _ E) as Hone.
    apply generations_facts in E.
    destruct E as (Hd & Hr & Hle & _).
    repeat split; intros; try lia.
Qed.
End GenerationCount.

Lemma solve_generations_run_witness :
  Demo.solve Run.c (Some 1) Run.s0 = Ok (Run.solved 1)
  /\ budget Run.c (Some 1) = 1
  /\ generations_ (Run.solved 1) = generations_ Run.s0 + 1.
Proof.
  assert (H : Demo.solve Run.c (Some 1) Run.s0 = Ok (Run.solved 1))
    by (vm_compute; reflexivity).
  assert (Hb : budget Run.c (Some 1) = 1) by reflexivity.
  split; [exact H|]. split; [exact Hb|].
  exact (proj1 (proj2 (solve_generations_run Demo.gene Z.eqb Demo.P
                         (fun q => q) 0%Q Demo.np_exp
                         (Demo.initialize_population (pop_size Run.c)
                            (n_genes Run.c))
                         (Demo.refill_population (n_genes Run.c))
                         Demo.create_offspring Demo.mutate_genes Run.c
                         (Some 1) Run.s0 (Run.solved 1) H)) Hb).
Defined.

(** ** The general lemmas on concrete inputs *)

Lemma solve_generation_count_witness :
  Demo.solve_locals Run.c (Some 5) Run.s0
  = Ok (fst (Run.after 5), snd (Run.after 5))
  /\ 2 <= budget Run.c (Some 5)
  /\ generations_ (snd (Run.after 5)) - generations_ Run.s0
     <= budget Run.c (Some 5) - 1.
Proof.
  assert (H : Demo.solve_locals Run.c (Some 5) Run.s0
              = Ok (fst (Run.after 5), snd (Run.after 5)))
    by (vm_compute; reflexivity).
  assert (Hb : 2 <= budget Run.c (Some 5)) by (vm_compute; discriminate).
  split; [exact H|]. split; [exact Hb|].
  exact (proj1 (solve_generation_count Demo.gene Z.eqb Demo.P
                  (fun q => q) 0%Q Demo.np_exp
                  (Demo.initialize_population (pop_size Run.c)
                     (n_genes Run.c))
                  (Demo.refill_population (n_genes Run.c))
                  Demo.create_offspring Demo.mutate_genes Run.c
                  (Some 5) Run.s0 (fst (Run.after 5)) (snd (Run.after 5))
                  H Hb)).
Defined.

Lemma sort_by_fitness_spec_witness :
  exists fitness' population',
    sort_by_fitness 0%Q [1; 3; 2]%Q [[1]; [2]; [3]] [10; 30; 20]%Q
    = Ok (fitness', population', [10; 30; 20]%Q)
    /\ descending fitness'
    /\ Permutation (rev (Np.argsort [1; 3; 2]%Q))
         (Np.arange 0 (Z.of_nat (length [1; 3; 2]%Q)))
    /\ Forall2 (fun i fx => Np.getitem [1; 3; 2]%Q i = Ok fx)
         (rev (Np.argsort [1; 3; 2]%Q)) fitness'
    /\ Forall2 (fun i row => Np.getitem [[1]; [2]; [3]] i = Ok row)
         (rev (Np.argsort [1; 3; 2]%Q)) population'.
Proof.
  exact (sort_by_fitness_spec 0%Q [1; 3; 2]%Q [[1]; [2]; [3]] [10; 30; 20]%Q
           eq_refl eq_refl).
Defined.

Lemma generation_parallel_lengths_witness :
  Demo.generation Run.c (fst (Run.after 2)) (snd (Run.after 2))
  = Ok (fst (Run.next 2), snd (Run.next 2))
  /\ length (fitness (fst (Run.next 2)))
     = length (population (fst (Run.next 2)))
  /\ length (printable (fst (Run.next 2)))
     = length (population (fst (Run.next 2))).
Proof.
  assert (H : Demo.generation Run.c (fst (Run.after 2)) (snd (Run.after 2))
              = Ok (fst (Run.next 2), snd (Run.next 2)))
    by (vm_compute; reflexivity).
  assert (Hscal : forall (scalarize : list Demo.P -> list Q) l,
             scalarizer Run.c = Some scalarize ->
             length (scalarize l) = length l)
    by (intros scalarize l E; discriminate E).
  assert (Hrows : rows (fst (Run.after 2)) = pop_size Run.c)
    by (vm_compute; reflexivity).
  assert (Hpf : length (printable (fst (Run.after 2)))
                = length (population (fst (Run.after 2))))
    by (vm_compute; reflexivity).
  split; [exact H|].
  exact (generation_parallel_lengths Demo.gene Z.eqb Demo.P (fun q => q) 0%Q
           Demo.np_exp (Demo.refill_population (n_genes Run.c))
           Demo.create_offspring Demo.mutate_genes Run.c
           (demo_refill_rows (n_genes Run.c)) demo_mutate_rows Hscal
           (fst (Run.after 2)) (snd (Run.after 2))
           (fst (Run.next 2)) (snd (Run.next 2)) Hrows Hpf H).
Defined.

Lemma interval_selection_zero_witness :
  interval_selection (Some [Some 0%Q; Some (1 # 2); Some 1%Q]) 0 = Ok (-1).
Proof.
  apply (interval_selection_zero [Some (1 # 2); Some 1%Q] 0).
  reflexivity.
Defined.

Lemma sum_nonneg (l : list Q) :
  Forall (fun x => 0 <= x)%Q l -> (0 <= Np.sum l)%Q.
Proof.
  induction 1 as [|x t Hx Ht IH].
  - unfold Np.sum. simpl. apply Qle_refl.
  - rewrite sum_cons. lra.
Qed.

Lemma last_cons_map_Some (l : list Q) :
  l <> [] -> last (Some 0%Q :: map Some l) None = Some (last l 0%Q).
Proof.
  intros Hl0. destruct l as [|u l']; [congruence|].
  change (last (Some 0%Q :: map Some (u :: l')) None)
    with (last (map Some (u :: l')) None).
  clear. revert u. induction l' as [|v l' IH]; intros u; [reflexivity|].
  change (last (map Some (u :: v :: l')) None)
    with (last (map Some (v :: l')) None).
  change (last (u :: v :: l') 0%Q) with (last (v :: l') 0%Q).
  apply IH.
Qed.

Section BoltzmannLast.
Context {gene P : Type}.
Variable np_exp : Q -> Q.
Hypothesis np_exp_nonneg : forall x, (0 <= np_exp x)%Q.

Lemma boltzmann_mating_prob_nonneg temperature nfit mating_prob :
  boltzmann_mating_prob np_exp temperature nfit = Some mating_prob ->
  length mating_prob = length nfit
  /\ Forall (fun p => 0 <= p)%Q mating_prob
  /\ (Np.sum mating_prob == 1)%Q.
Proof.
  unfold boltzmann_mating_prob.
  destruct nfit as [|x t]; [discriminate|].
  destruct (Qeq_bool (list_max x t - list_min x t) 0); [discriminate|].
  match goal with
  | |- context [Qeq_bool (Np.sum ?e0) 0] => remember e0 as e eqn:Ee
  end.
  destruct (Qeq_bool (Np.sum e) 0) eqn:EC; [discriminate|].
  intros H. injection H as H. subst mating_prob.
  assert (HC0 : ~ (Np.sum e == 0)%Q).
  { intros E0. apply Qeq_bool_iff in E0. congruence. }
  assert (He : Forall (fun p => 0 <= p)%Q e).
  { subst e. apply Forall_forall. intros p Hp.
    apply in_map_iff in Hp. destruct Hp as (v & <- & _).
    apply np_exp_nonneg. }
  pose proof (sum_nonneg e He) as HC.
  split; [subst e; rewrite !length_map; reflexivity|].
  split.
  - apply Forall_forall. intros p Hp.
    apply in_map_iff in Hp. destruct Hp as (v & <- & Hv).
    rewrite Forall_forall in He. specialize (He v Hv).
    apply Qmult_le_0_compat; [exact He|].
    unfold Qdiv. rewrite Qmult_1_l. apply Qinv_le_0_compat. exact HC.
  - rewrite (sum_map_scale (1 / Np.sum e) e). field. exact HC0.
Qed.

(** X16.  With more rows than [pop_keep], the last entry of the boltzmann
    table, when it is a number, is 1 minus the normalised probability of row
    [pop_keep], the one probability that is computed and not accumulated:
    the table never ends above 1, and it ends at 1 exactly when that
    probability is zero, as it is when [np.exp] underflows. *)
Theorem boltzmann_table_last_entry (c : config gene P) (temperature : Q)
    (fitness : list Q) (table : list float) (temperature' : Q)
    (Hkeep : 1 <= pop_keep c)
    (Hlen : pop_keep c < Z.of_nat (length fitness))
    (H : get_boltzmann_probabilities np_exp c temperature fitness
         = Ok (table, temperature')) :
  forall q, last table None = Some q ->
    exists mating_prob dropped,
      boltzmann_mating_prob np_exp temperature
        (Np.slice fitness 0 (pop_keep c + 1)) = Some mating_prob
      /\ Z.of_nat (length mating_prob) = pop_keep c + 1
      /\ nth_error mating_prob (Z.to_nat (pop_keep c)) = Some dropped
      /\ (0 <= dropped)%Q
      /\ (q == 1 - dropped)%Q.
Proof.
  revert H. unfold get_boltzmann_probabilities.
  set (nfit := Np.slice fitness 0 (pop_keep c + 1)).
  assert (Hn : length nfit = S (Z.to_nat (pop_keep c))).
  { unfold nfit, Np.slice. simpl skipn. rewrite length_firstn. lia. }
  destruct nfit as [|x t] eqn:En; [discriminate|].
  destruct (Qeq_bool temperature 0); [discriminate|].
  destruct (boltzmann_mating_prob np_exp temperature (x :: t)) as [mp|] eqn:Emp;
    intros H; injection H as H1 H2; subst table; clear H2.
  - apply boltzmann_mating_prob_nonneg in Emp.
    destruct Emp as (Hl & Hpos & Hsum).
    intros q Hq.
    unfold Np.slice in Hq. simpl skipn in Hq.
    replace (Z.to_nat (pop_keep c) - Z.to_nat 0)%nat
      with (Z.to_nat (pop_keep c)) in Hq by lia.
    set (n := Z.to_nat (pop_keep c)) in *.
    assert (Hsplit : mp = firstn n mp ++ skipn n mp)
      by (symmetry; apply firstn_skipn).
    assert (Hfl : length (firstn n mp) = n)
      by (rewrite length_firstn; lia).
    assert (Hsl : length (skipn n mp) = 1%nat)
      by (rewrite length_skipn; lia).
    destruct (skipn n mp) as [|y [|z r]] eqn:Es; try discriminate.
    assert (Hnth : nth_error mp n = Some y).
    { rewrite Hsplit, nth_error_app2 by lia.
      rewrite Hfl, Nat.sub_diag. reflexivity. }
    assert (Hy : (0 <= y)%Q).
    { rewrite Forall_forall in Hpos. apply Hpos.
      rewrite Hsplit. apply in_or_app. right. left. reflexivity. }
    assert (Hne : firstn n mp <> []).
    { intros E0. rewrite E0 in Hfl. simpl in Hfl. lia. }
    assert (Hcs : Np.cumsum (firstn n mp) <> []).
    { destruct (firstn n mp); [congruence | discriminate]. }
    pose proof (eq_trans (eq_sym (last_cons_map_Some _ Hcs)) Hq) as Hq'.
    injection Hq' as Hq'. subst q.
    exists mp, y.
    split; [reflexivity|]. split; [lia|]. split; [exact Hnth|].
    split; [exact Hy|].
    unfold Np.cumsum. rewrite cumsum_from_last by exact Hne.
    assert (Hs1 : (Np.sum [y] == y)%Q) by (unfold Np.sum; simpl; ring).
    rewrite Hsplit, sum_app, Hs1 in Hsum.
    revert Hsum. generalize (Np.sum (firstn n mp)). intros S HS. lra.
  - intros q Hq. exfalso.
    unfold Np.slice in Hq. simpl skipn in Hq.
    rewrite length_firstn in Hq.
    replace (Nat.min (Z.to_nat (pop_keep c) - Z.to_nat 0) (length (x :: t)))
      with (S (Z.to_nat (pop_keep c) - 1)) in Hq by lia.
    revert Hq. generalize (Z.to_nat (pop_keep c) - 1)%nat. clear.
    intros m. induction m as [|m IH]; simpl; [discriminate|].
    exact IH.
Qed.
End BoltzmannLast.

Lemma underflowing_exp_nonneg (x : Q) : (0 <= underflowing_exp x)%Q.
Proof.
  unfold underflowing_exp.
  destruct (Qle_bool x (- (746))); [apply Qle_refl|].
  destruct (Qle_bool x 0) eqn:E.
  - apply Qle_bool_iff in E. apply Qlt_le_weak.
    unfold Qdiv. rewrite Qmult_1_l. apply Qinv_lt_0_compat. lra.
  - assert (~ (x <= 0)%Q).
    { intros Hle. apply Qle_bool_iff in Hle. congruence. }
    lra.
Qed.

Lemma boltzmann_table_last_entry_witness :
  get_boltzmann_probabilities underflowing_exp (fst RunBoltzmann.built) 100
    RunBoltzmann.spread
  = Ok (fst RunElite.table, snd RunElite.table)
  /\ exists q mating_prob dropped,
       last (fst RunElite.table) None = Some q
       /\ (q == 1)%Q
       /\ boltzmann_mating_prob underflowing_exp 100
            (Np.slice RunBoltzmann.spread 0
               (pop_keep (fst RunBoltzmann.built) + 1)) = Some mating_prob
       /\ nth_error mating_prob (Z.to_nat (pop_keep (fst RunBoltzmann.built)))
          = Some dropped
       /\ (q == 1 - dropped)%Q.
Proof.
  assert (H : get_boltzmann_probabilities underflowing_exp
                (fst RunBoltzmann.built) 100 RunBoltzmann.spread
              = Ok (fst RunElite.table, snd RunElite.table))
    by (vm_compute; reflexivity).
  assert (Hkeep : 1 <= pop_keep (fst RunBoltzmann.built))
    by (vm_compute; discriminate).
  assert (Hlen : pop_keep (fst RunBoltzmann.built)
                 < Z.of_nat (length RunBoltzmann.spread))
    by (vm_compute; reflexivity).
  split; [exact H|].
  destruct (last (fst RunElite.table) None) as [q|] eqn:Hlast;
    [|vm_compute in Hlast; discriminate Hlast].
  assert (Hone : (q == 1)%Q)
    by (vm_compute in Hlast; injection Hlast as <-; reflexivity).
  destruct (boltzmann_table_last_entry underflowing_exp underflowing_exp_nonneg
              (fst RunBoltzmann.built) 100 RunBoltzmann.spread
              (fst RunElite.table) (snd RunElite.table) Hkeep Hlen H
              q Hlast)
    as (mating_prob & dropped & Hmp & _ & Hnth & _ & Hq).
  exists q, mating_prob, dropped. auto.
Defined.

(** ** A converged elite under the boltzmann strategy *)

Lemma list_min_all_eq (f x : Q) (t : list Q) :
  (x == f)%Q -> Forall (fun y => y == f)%Q t -> (list_min x t == f)%Q.
Proof.
  intros Hx Ht. revert x Hx. induction Ht as [|y t Hy _ IH]; intros x Hx.
  - exact Hx.
  - cbn [list_min]. apply IH. destruct (Qle_bool y x); assumption.
Qed.

Lemma list_max_all_eq (f x : Q) (t : list Q) :
  (x == f)%Q -> Forall (fun y => y == f)%Q t -> (list_max x t == f)%Q.
Proof.
  intros Hx Ht. revert x Hx. induction Ht as [|y t Hy _ IH]; intros x Hx.
  - exact Hx.
  - cbn [list_max]. apply IH. destruct (Qle_bool x y); assumption.
Qed.

Lemma slice_length_le {A : Type} (l : list A) (hi : Z) :
  0 <= hi <= Z.of_nat (length l) ->
  length (Np.slice l 0 hi) = Z.to_nat hi.
Proof.
  intros H. unfold Np.slice. cbn [Z.to_nat skipn].
  rewrite Nat.sub_0_r, length_firstn. lia.
Qed.

(** X17.  When the first [pop_keep + 1] fitness values are all equal, the
    boltzmann table is a 0 followed by [pop_keep] NaNs, whatever [np.exp]
    and the temperature are, and every draw above 0 then selects row 0: the
    best row is mated with itself. *)
Theorem boltzmann_converged_elite {gene P : Type} (np_exp : Q -> Q)
    (c : config gene P) (temperature : Q) (fitness : list Q) (f : Q)
    (Hkeep : 1 <= pop_keep c)
    (Hlen : pop_keep c < Z.of_nat (length fitness))
    (Htemp : ~ (temperature == 0)%Q)
    (Hconv : Forall (fun y => y == f)%Q
               (Np.slice fitness 0 (pop_keep c + 1))) :
  get_boltzmann_probabilities np_exp c temperature fitness
  = Ok (Some 0%Q :: repeat None (Z.to_nat (pop_keep c)),
        (temperature + (1 # 10) * temperature)%Q)
  /\ forall value : Q,
       (0 < value)%Q ->
       interval_selection
         (Some (Some 0%Q :: repeat None (Z.to_nat (pop_keep c)))) value
       = Ok 0.
Proof.
  split.
  - unfold get_boltzmann_probabilities.
    assert (Hn : length (Np.slice fitness 0 (pop_keep c + 1))
                 = Z.to_nat (pop_keep c + 1))
      by (apply slice_length_le; lia).
    destruct (Np.slice fitness 0 (pop_keep c + 1)) as [|x t] eqn:Es.
    { cbn [length] in Hn. lia. }
    assert (Ht : Qeq_bool temperature 0 = false).
    { destruct (Qeq_bool temperature 0) eqn:E; auto.
      apply Qeq_bool_iff in E. contradiction. }
    rewrite Ht.
    inversion Hconv as [|? ? Hx Hall]; subst.
    unfold boltzmann_mating_prob.
    assert (Hz : Qeq_bool (list_max x t - list_min x t) 0 = true).
    { apply Qeq_bool_iff.
      rewrite (list_max_all_eq f x t Hx Hall).
      rewrite (list_min_all_eq f x t Hx Hall). ring. }
    rewrite Hz.
    rewrite slice_length_le by (rewrite Hn; lia).
    reflexivity.
  - intros value Hv. unfold interval_selection. f_equal.
    destruct (Z.to_nat (pop_keep c)) as [|k] eqn:Ek; [lia|].
    cbn [repeat map float_gt].
    assert (Hgt : negb (Qle_bool value 0) = true).
    { destruct (Qle_bool value 0) eqn:E; auto.
      apply Qle_bool_iff in E. lra. }
    rewrite Hgt. reflexivity.
Qed.

Lemma boltzmann_converged_elite_witness :
  get_boltzmann_probabilities Demo.np_exp (fst RunBoltzmann.built) 100
    RunBoltzmann.converged
  = Ok ([Some 0%Q; None; None], (100 + (1 # 10) * 100)%Q)
  /\ forall value : Q,
       (0 < value)%Q ->
       interval_selection (Some [Some 0%Q; None; None]) value = Ok 0.
Proof.
  assert (Hkeep : 1 <= pop_keep (fst RunBoltzmann.built))
    by (vm_compute; discriminate).
  assert (Hlen : pop_keep (fst RunBoltzmann.built)
                 < Z.of_nat (length RunBoltzmann.converged))
    by (vm_compute; reflexivity).
  assert (Htemp : ~ (100 == 0)%Q) by (intros E; discriminate E).
  assert (Hconv : Forall (fun y => y == 5)%Q
                    (Np.slice RunBoltzmann.converged 0
                       (pop_keep (fst RunBoltzmann.built) + 1)))
    by (repeat constructor).
  exact (boltzmann_converged_elite Demo.np_exp (fst RunBoltzmann.built) 100
           RunBoltzmann.converged 5 Hkeep Hlen Htemp Hconv).
Defined.

(** ** Populations too small to select from *)

(** X18.  A solver constructed with three rows or fewer has no mating to
    run, and under the roulette_wheel and random strategies
    [select_parents] then raises ValueError on every call: numpy refuses to
    apply [interval_selection] along an empty array of draws. *)
Theorem small_population_cannot_select {gene P : Type}
    (np_random_seed : Z -> rng)
    (cls_fitness_function cls_hashable_fitness_function
     : option (chromosome gene -> P))
    (np_exp : Q -> Q)
    (a : init_args gene P) (g0 : rng) (c : config gene P) (s0 : state gene P)
    (H : init np_random_seed cls_fitness_function
           cls_hashable_fitness_function a g0 = Ok (c, s0))
    (Hsmall : pop_size c <= 3)
    (Hstrategy : selection_strategy c = "roulette_wheel"%string
                 \/ selection_strategy c = "random"%string) :
  n_matings c <= 0
  /\ forall (s : state gene P) (fitness : list Q),
       select_parents np_exp c s fitness = Raise ValueError.
Proof.
  assert (Hm : n_matings c <= 0).
  { apply init_inv in H.
    destruct H as (f & allowed1 & k0 & _ & _ & _ & _ & _ & _ & _ & _ & _
                   & Hk & Hmat & _).
    rewrite Hmat.
    assert (Hd : (pop_size c - pop_keep c) / 2 < 1)
      by (apply Z.div_lt_upper_bound; lia).
    lia. }
  split; [exact Hm|].
  intros s fitness. unfold select_parents.
  assert (Hsel : forall table g, select_by_interval c table g
                                 = Raise ValueError).
  { intros table g. unfold select_by_interval.
    destruct (Z.leb_spec (n_matings c) 0); [reflexivity | lia]. }
  destruct Hstrategy as [-> | ->]; cbn [String.eqb Ascii.eqb Bool.eqb orb];
    rewrite Hsel; reflexivity.
Qed.

Lemma small_population_cannot_select_witness :
  Demo.init (Demo.args 3 1 "roulette_wheel" (1 # 2) false ExcludedNone)
    (Demo.replay [])
  = Ok (fst RunSmall.built, snd RunSmall.built)
  /\ n_matings (fst RunSmall.built) <= 0
  /\ forall s fitness,
       select_parents Demo.np_exp (fst RunSmall.built) s fitness
       = Raise ValueError.
Proof.
  assert (H : Demo.init
                (Demo.args 3 1 "roulette_wheel" (1 # 2) false ExcludedNone)
                (Demo.replay [])
              = Ok (fst RunSmall.built, snd RunSmall.built))
    by (vm_compute; reflexivity).
  assert (Hsmall : pop_size (fst RunSmall.built) <= 3)
    by (vm_compute; discriminate).
  assert (Hstrategy : selection_strategy (fst RunSmall.built)
                      = "roulette_wheel"%string
                      \/ selection_strategy (fst RunSmall.built)
                         = "random"%string)
    by (left; reflexivity).
  split; [exact H|].
  exact (small_population_cannot_select Demo.np_random_seed None None
           Demo.np_exp
           (Demo.args 3 1 "roulette_wheel" (1 # 2) false ExcludedNone)
           (Demo.replay []) (fst RunSmall.built) (snd RunSmall.built)
           H Hsmall Hstrategy).
Defined.
